(** * StepTracker ([app.js]): shallow embedding and verified properties

    The file has two halves.  The first embeds the program: the parts of the
    browser platform that [app.js] calls (numbers, [Math], arrays, [Date],
    [JSON], [localStorage]) and then the [StepTracker] class itself, method by
    method.  The second half states and proves the properties.

    Conventions of the embedding.
    - Integral JavaScript numbers (time stamps and durations in milliseconds,
      step counts, array indices) are [Z]: below 2^53 the arithmetic and the
      comparisons of binary64 coincide with those of [Z].
    - The sensor path ([handleMotion]) works on binary64 values as the
      browser does: Rocq's primitive [float].
    - The pace path divides integers and rounds to one decimal; the quotient
      is carried as an exact rational [Q] and [toFixed(1)] rounds it as
      ECMAScript specifies (nearest tenth, the larger one on a tie).  The
      binary64 quotient of the browser is written with the same digits
      unless the exact quotient lies half way between two tenths, where its
      rounding error decides; module [Binary64] evaluates it for comparison.
      The properties of the pace are stated as closeness to the quotient,
      which holds whichever tenth is written.
    - A method is a function on the [World]: the [StepTracker] object, the
      array heap, [localStorage] and the DOM text nodes it writes.  Clock and
      sensor readings are arguments. *)

From Stdlib Require Import ZArith QArith Qround Qabs Lqa Floats List String Ascii Bool Lia.
From Stdlib Require Import DecimalString DecimalN DecimalPos DecimalFacts Sorted.
Import ListNotations.
Set Warnings "-inexact-float,-register-all".
Local Open Scope Z_scope.

(** ** Characters and decimal numerals *)

(** The double quote and the backslash, by code: string literals of this file
    never contain a quote. *)
Definition dquote : ascii := ascii_of_nat 34.
Definition backslash : ascii := ascii_of_nat 92.

Definition str (c : ascii) : string := String c EmptyString.

(** [String(n)] for a non-negative integer: its decimal numeral. *)
Definition N_toString (n : N) : string := NilZero.string_of_uint (N.to_uint n).

(** [String(z)] for an integer (of magnitude below 10^21, where JavaScript
    turns to exponent notation). *)
Definition Z_toString (z : Z) : string :=
  match z with
  | Zneg p => String "-" (N_toString (Npos p))
  | _ => N_toString (Z.to_N z)
  end.

(** [s.padStart(w, '0')] on the numeral of a non-negative integer. *)
Fixpoint zeros (k : nat) : string :=
  match k with
  | O => EmptyString
  | S k' => String "0" (zeros k')
  end.

Definition padStart0 (w : nat) (n : Z) : string :=
  (zeros (w - String.length (Z_toString n)) ++ Z_toString n)%string.

(** ** Numbers with one decimal: [toFixed(1)] and [parseFloat] *)

(** The string [x.toFixed(1)] returns, kept in structured form: a sign and the
    magnitude counted in tenths. *)
Record Fixed1 : Set := mkFixed1 { fixed_neg : bool; fixed_tenths : N }.

(** [Number.prototype.toFixed] with one fraction digit (ECMA-262, 21.1.3.3):
    a negative [x] gives the sign and is negated; then [n] is the integer for
    which [n / 10 - x] is closest to zero, the larger one if there are two. *)
Definition toFixed1 (v : Q) : Fixed1 :=
  {| fixed_neg := negb (Qle_bool 0 v);
     fixed_tenths := Z.to_N (Qfloor (Qabs v * 10 + (1 # 2))) |}.

(** The characters of that string: [-]?digits[.]digit. *)
Definition Fixed1_toString (f : Fixed1) : string :=
  ((if fixed_neg f then "-" else "")
   ++ N_toString (fixed_tenths f / 10) ++ "." ++ N_toString (fixed_tenths f mod 10))%string.

(** The number the string denotes, in tenths. *)
Definition Fixed1_value (f : Fixed1) : Z :=
  if fixed_neg f then - Z.of_N (fixed_tenths f) else Z.of_N (fixed_tenths f).

(** A number known to have one decimal place is stored as its count of
    tenths; this is the rational it stands for. *)
Definition Q_of_tenths (t : Z) : Q := inject_Z t / 10.

(** The value of the conditional
    [d > 0 ? (n / (d / 60000)).toFixed(1) : 0]: a string or the number 0. *)
Inductive PaceValue : Set :=
| PaceNumber0
| PaceString (f : Fixed1).

(** [parseFloat(v)], in tenths: a number argument is first converted to its
    string. *)
Definition parseFloat (v : PaceValue) : Z :=
  match v with
  | PaceNumber0 => 0
  | PaceString f => Fixed1_value f
  end.

(** What [el.textContent = v] shows. *)
Definition PaceValue_text (v : PaceValue) : string :=
  match v with
  | PaceNumber0 => "0"
  | PaceString f => Fixed1_toString f
  end.

(** ** [Math] *)

Module Math.

(** [Math.round] on an exact quotient: the nearest integer, ties upward. *)
Definition round (v : Q) : Z := Qfloor (v + (1 # 2)).

Definition sqrt (v : float) : float := PrimFloat.sqrt v.

Definition abs (v : float) : float := PrimFloat.abs v.

(** [Math.pow(b, e)] for a small natural exponent, by repeated product
    ([Math.pow(b, 2)] is [b * b]). *)
Fixpoint pow (b : float) (e : nat) : float :=
  match e with
  | O => 1%float
  | S e' => (b * pow b e')%float
  end.

End Math.

(** [v || 0] on an optional number: [undefined], [null], [NaN] and both
    zeros are falsy. *)
Definition or_zero (v : option float) : float :=
  match v with
  | None => 0%float
  | Some f => if (PrimFloat.eqb f 0 || PrimFloat.is_nan f)%bool then 0%float else f
  end.

(** The number of elements of an array as a binary64 value. *)
Definition float_of_nat (n : nat) : float :=
  PrimFloat.of_uint63 (Uint63.of_Z (Z.of_nat n)).

(** ** Arrays *)

Module Array.
Section Ops.
Context {A : Type}.

(** [a.push(v)]. *)
Definition push (a : list A) (v : A) : list A := a ++ [v].

(** [a.shift()]: the array without its first element. *)
Definition shift (a : list A) : list A := tl a.

(** [a.splice(start, 1)] (ECMA-262, 23.1.3.31): a negative [start]
    counts from the end and is clamped to 0, a [start] past the end is
    clamped to the length; at most one element is removed there. *)
Definition splice1 (a : list A) (start : Z) : list A :=
  let len := Z.of_nat (List.length a) in
  let actualStart := if start <? 0 then Z.max (len + start) 0 else Z.min start len in
  let actualDeleteCount := Z.min (Z.max 1 0) (len - actualStart) in
  firstn (Z.to_nat actualStart) a
  ++ skipn (Z.to_nat (actualStart + actualDeleteCount)) a.

(** [a.reduce((s, v) => s + f(v), 0)] over the integers. *)
Definition sumZ (f : A -> Z) (a : list A) : Z :=
  fold_left (fun s v => s + f v) a 0.

End Ops.

(** [a.reduce((s, v) => s + v, 0)] on binary64 values. *)
Definition sum_float (a : list float) : float :=
  fold_left (fun s v => (s + v)%float) a 0%float.

End Array.

(** ** [Date] *)

(** A parser is a function from the remaining input to a result and the
    input left; [None] is failure. *)
Notation "x <- c1 ;; c2" :=
  (match c1 with
   | Some x => c2
   | None => None
   end)
  (at level 61, c1 at next level, right associativity).

Notation "' pat <- c1 ;; c2" :=
  (match c1 with
   | Some pat => c2
   | None => None
   end)
  (at level 61, pat pattern, c1 at next level, right associativity).

(** The value of a decimal digit character. *)
Definition digit_value (c : ascii) : option Z :=
  let n := Z.of_nat (nat_of_ascii c) in
  if (48 <=? n) && (n <=? 57) then Some (n - 48) else None.

(** Exactly [k] decimal digits. *)
Fixpoint take_digits (k : nat) (acc : Z) (s : string) : option (Z * string) :=
  match k with
  | O => Some (acc, s)
  | S k' =>
      match s with
      | String c r => d <- digit_value c ;; take_digits k' (acc * 10 + d) r
      | EmptyString => None
      end
  end.

(** One given character. *)
Definition expect (c : ascii) (s : string) : option string :=
  match s with
  | String c' r => if Ascii.eqb c' c then Some r else None
  | EmptyString => None
  end.

Module Date.

Definition msPerDay : Z := 86400000.

(** Days since 1970-01-01 of a day of the proleptic Gregorian calendar
    (ECMA-262, 21.4.1.28 MakeDay), months counted from March inside. *)
Definition days_from_civil (y m d : Z) : Z :=
  let y' := if m <=? 2 then y - 1 else y in
  let era := y' / 400 in
  let yoe := y' - era * 400 in
  let mp := if 2 <? m then m - 3 else m + 9 in
  let doy := (153 * mp + 2) / 5 + d - 1 in
  let doe := yoe * 365 + yoe / 4 - yoe / 100 + doy in
  era * 146097 + doe - 719468.

(** The inverse: year, month and day of a day number (21.4.1.8 to 21.4.1.12). *)
Definition civil_from_days (days : Z) : Z * Z * Z :=
  let z := days + 719468 in
  let era := z / 146097 in
  let doe := z - era * 146097 in
  let yoe := (doe - doe / 1460 + doe / 36524 - doe / 146096) / 365 in
  let doy := doe - (365 * yoe + yoe / 4 - yoe / 100) in
  let mp := (5 * doy + 2) / 153 in
  let d := doy - (153 * mp + 2) / 5 + 1 in
  let m := if mp <? 10 then mp + 3 else mp - 9 in
  let y := yoe + era * 400 in
  (if m <=? 2 then y + 1 else y, m, d).

Definition isLeapYear (y : Z) : bool :=
  (y mod 4 =? 0) && (negb (y mod 100 =? 0) || (y mod 400 =? 0)).

Definition daysInMonth (y m : Z) : Z :=
  if m =? 2 then (if isLeapYear y then 29 else 28)
  else if (m =? 4) || (m =? 6) || (m =? 9) || (m =? 11) then 30
  else 31.

(** The year of the string format: four digits from 0 to 9999, a sign and
    six digits otherwise (21.4.1.32.1). *)
Definition year_toString (y : Z) : string :=
  if (0 <=? y) && (y <=? 9999) then padStart0 4 y
  else String (if y <? 0 then "-"%char else "+"%char) (padStart0 6 (Z.abs y)).

(** [new Date(t).toISOString()] for a time value [t] in milliseconds:
    YYYY-MM-DDTHH:mm:ss.sssZ, in UTC. *)
Definition toISOString (t : Z) : string :=
  let '(y, m, d) := civil_from_days (t / msPerDay) in
  let ms := t mod msPerDay in
  (year_toString y ++ "-" ++ padStart0 2 m ++ "-" ++ padStart0 2 d ++ "T"
   ++ padStart0 2 (ms / 3600000) ++ ":" ++ padStart0 2 (ms / 60000 mod 60) ++ ":"
   ++ padStart0 2 (ms / 1000 mod 60) ++ "." ++ padStart0 3 (ms mod 1000) ++ "Z")%string.

Definition parse_year (s : string) : option (Z * string) :=
  match s with
  | String "+" r => take_digits 6 0 r
  | String "-" r =>
      '(y, r') <- take_digits 6 0 r ;;
      if y =? 0 then None else Some (- y, r')
  | _ => take_digits 4 0 s
  end.

(** [new Date(s).getTime()] for a string in the format [toISOString]
    writes; [None] is the time value [NaN] of an invalid date.  Only this
    complete UTC form is recognised: the other forms browsers accept are
    never written by the program and count as invalid here. *)
Definition parse (s : string) : option Z :=
  '(y, s) <- parse_year s ;;
  s <- expect "-" s ;;
  '(m, s) <- take_digits 2 0 s ;;
  s <- expect "-" s ;;
  '(d, s) <- take_digits 2 0 s ;;
  s <- expect "T" s ;;
  '(hh, s) <- take_digits 2 0 s ;;
  s <- expect ":" s ;;
  '(mm, s) <- take_digits 2 0 s ;;
  s <- expect ":" s ;;
  '(ss, s) <- take_digits 2 0 s ;;
  s <- expect "." s ;;
  '(ms, s) <- take_digits 3 0 s ;;
  s <- expect "Z" s ;;
  match s with
  | EmptyString =>
      if (1 <=? m) && (m <=? 12) && (1 <=? d) && (d <=? daysInMonth y m)
         && (hh <=? 24) && (mm <=? 59) && (ss <=? 59)
         && ((hh <? 24) || ((mm =? 0) && (ss =? 0) && (ms =? 0)))
      then Some (days_from_civil y m d * msPerDay
                 + hh * 3600000 + mm * 60000 + ss * 1000 + ms)
      else None
  | _ => None
  end.

End Date.


(** ** Walk records *)

(** One completed session, as [stopTracking] builds it and as the array
    [this.walks] and the persisted collection hold it.  [date] is the ISO
    string; [stepsPerMinute], a number with one decimal, is in tenths. *)
Record WalkRecord : Set := mkWalk {
  date : string;
  duration : Z;
  steps : Z;
  stepsPerMinute : Z
}.

(** ** [JSON] *)

Module JSON.

(** A JSON value.  A number is kept as the decimal it was written as:
    [JNumber m e] is [m * 10^e]. *)
Inductive json : Set :=
| JNull
| JBool (b : bool)
| JNumber (m e : Z)
| JString (s : string)
| JArray (l : list json)
| JObject (l : list (string * json)).

(** *** Writing *)

Definition hex_digit (n : N) : ascii :=
  ascii_of_N (if (n <? 10)%N then 48 + n else 87 + n)%N.

(** QuoteJSONString (ECMA-262, 25.5.2.3), one character: the quote, the
    backslash and the control characters are escaped. *)
Definition quote_char (c : ascii) : string :=
  let n := N_of_ascii c in
  if Ascii.eqb c dquote then String backslash (str dquote)
  else if Ascii.eqb c backslash then String backslash (str backslash)
  else if (n =? 8)%N then String backslash "b"
  else if (n =? 12)%N then String backslash "f"
  else if (n =? 10)%N then String backslash "n"
  else if (n =? 13)%N then String backslash "r"
  else if (n =? 9)%N then String backslash "t"
  else if (n <? 32)%N then
    String backslash (String "u" (String "0" (String "0"
      (String (hex_digit (n / 16)) (str (hex_digit (n mod 16)))))))
  else str c.

Fixpoint quote_body (s : string) : string :=
  match s with
  | EmptyString => EmptyString
  | String c r => (quote_char c ++ quote_body r)%string
  end.

Definition quote (s : string) : string :=
  String dquote (quote_body s ++ str dquote).

(** Number::toString of a number with one decimal, given in tenths: the
    integer numeral when the decimal is 0. *)
Definition tenths_toString (t : Z) : string :=
  if t mod 10 =? 0 then Z_toString (t / 10)
  else ((if (t <? 0)%Z then "-" else "")
        ++ N_toString (Z.to_N (Z.abs t / 10)%Z) ++ "."
        ++ N_toString (Z.to_N (Z.abs t mod 10)%Z))%string.

(** SerializeJSONObject on a walk record: its own properties in creation
    order. *)
Definition stringify_walk (r : WalkRecord) : string :=
  ("{" ++ quote "date" ++ ":" ++ quote (date r)
   ++ "," ++ quote "duration" ++ ":" ++ Z_toString (duration r)
   ++ "," ++ quote "steps" ++ ":" ++ Z_toString (steps r)
   ++ "," ++ quote "stepsPerMinute" ++ ":" ++ tenths_toString (stepsPerMinute r)
   ++ "}")%string.

Fixpoint join_walks (l : list WalkRecord) : string :=
  match l with
  | [] => EmptyString
  | [r] => stringify_walk r
  | r :: l' => (stringify_walk r ++ "," ++ join_walks l')%string
  end.

(** [JSON.stringify(walks)] on an array of walk records. *)
Definition stringify (l : list WalkRecord) : string :=
  ("[" ++ join_walks l ++ "]")%string.

(** *** Reading (ECMA-404) *)

Definition is_ws (c : ascii) : bool :=
  let n := N_of_ascii c in
  ((n =? 32) || (n =? 9) || (n =? 10) || (n =? 13))%N.

Fixpoint skip_ws (s : string) : string :=
  match s with
  | String c r => if is_ws c then skip_ws r else s
  | EmptyString => s
  end.

Definition digit_of_char (c : ascii) : option (Decimal.uint -> Decimal.uint) :=
  if Ascii.eqb c "0" then Some Decimal.D0
  else if Ascii.eqb c "1" then Some Decimal.D1
  else if Ascii.eqb c "2" then Some Decimal.D2
  else if Ascii.eqb c "3" then Some Decimal.D3
  else if Ascii.eqb c "4" then Some Decimal.D4
  else if Ascii.eqb c "5" then Some Decimal.D5
  else if Ascii.eqb c "6" then Some Decimal.D6
  else if Ascii.eqb c "7" then Some Decimal.D7
  else if Ascii.eqb c "8" then Some Decimal.D8
  else if Ascii.eqb c "9" then Some Decimal.D9
  else None.

(** The longest prefix of decimal digits. *)
Fixpoint scan_digits (s : string) : Decimal.uint * string :=
  match s with
  | String c r =>
      match digit_of_char c with
      | Some mk => let '(d, rest) := scan_digits r in (mk d, rest)
      | None => (Decimal.Nil, s)
      end
  | EmptyString => (Decimal.Nil, s)
  end.

Definition is_nil (d : Decimal.uint) : bool :=
  match d with Decimal.Nil => true | _ => false end.

(** An integer part is 0 or starts with a digit other than 0. *)
Definition int_part_ok (d : Decimal.uint) : bool :=
  match d with
  | Decimal.Nil => false
  | Decimal.D0 d' => is_nil d'
  | _ => true
  end.

(** An optional minus sign. *)
Definition sign (s : string) : bool * string :=
  match s with
  | String c r => if Ascii.eqb c "-" then (true, r) else (false, s)
  | EmptyString => (false, s)
  end.

(** An optional fraction: a point and at least one digit. *)
Definition fraction (s : string) : option (Decimal.uint * string) :=
  match s with
  | String c r =>
      if Ascii.eqb c "." then
        let '(d, r') := scan_digits r in
        if is_nil d then None else Some (d, r')
      else Some (Decimal.Nil, s)
  | EmptyString => Some (Decimal.Nil, s)
  end.

(** An optional exponent: [e] or [E], an optional sign, at least one
    digit. *)
Definition exponent (s : string) : option (Z * string) :=
  match s with
  | String c r =>
      if Ascii.eqb c "e" || Ascii.eqb c "E" then
        let '(eneg, r1) :=
          match r with
          | String c' r' =>
              if Ascii.eqb c' "-" then (true, r')
              else if Ascii.eqb c' "+" then (false, r')
              else (false, r)
          | EmptyString => (false, r)
          end in
        let '(d, r2) := scan_digits r1 in
        if is_nil d then None
        else Some (if eneg then - Z.of_N (N.of_uint d) else Z.of_N (N.of_uint d), r2)
      else Some (0, s)
  | EmptyString => Some (0, s)
  end.

(** The digits of a number, as mantissa and decimal exponent. *)
Definition unsigned_number (s : string) : option (Z * Z * string) :=
  let '(ip, s2) := scan_digits s in
  if negb (int_part_ok ip) then None else
  '(fp, s3) <- fraction s2 ;;
  '(ex, s4) <- exponent s3 ;;
  let k := Z.of_nat (Decimal.nb_digits fp) in
  Some (Z.of_N (N.of_uint ip) * 10 ^ k + Z.of_N (N.of_uint fp), ex - k, s4).

(** A number: [-]? int ([.] digits)? ([eE] [+-]? digits)?. *)
Definition number (s : string) : option (json * string) :=
  let '(neg, s1) := sign s in
  '(m, e, s4) <- unsigned_number s1 ;;
  Some (JNumber (if neg then - m else m) e, s4).

Definition hex_value (c : ascii) : option N :=
  let n := N_of_ascii c in
  if ((48 <=? n) && (n <=? 57))%N then Some (n - 48)%N
  else if ((97 <=? n) && (n <=? 102))%N then Some (n - 87)%N
  else if ((65 <=? n) && (n <=? 70))%N then Some (n - 55)%N
  else None.

(** The bytes (UTF-8) of the code unit a [\uXXXX] escape denotes; strings
    are byte strings here. *)
Definition utf8 (u : N) : string :=
  if (u <? 128)%N then str (ascii_of_N u)
  else if (u <? 2048)%N then
    String (ascii_of_N (192 + u / 64)) (str (ascii_of_N (128 + u mod 64)))
  else
    String (ascii_of_N (224 + u / 4096))
      (String (ascii_of_N (128 + (u / 64) mod 64)) (str (ascii_of_N (128 + u mod 64)))).

Definition unescape (c : ascii) : option ascii :=
  if Ascii.eqb c dquote then Some dquote
  else if Ascii.eqb c backslash then Some backslash
  else if Ascii.eqb c "/" then Some "/"%char
  else if Ascii.eqb c "b" then Some (ascii_of_N 8)
  else if Ascii.eqb c "f" then Some (ascii_of_N 12)
  else if Ascii.eqb c "n" then Some (ascii_of_N 10)
  else if Ascii.eqb c "r" then Some (ascii_of_N 13)
  else if Ascii.eqb c "t" then Some (ascii_of_N 9)
  else None.

(** The characters of a string after its opening quote, up to the closing
    one. *)
Fixpoint string_body (s : string) : option (string * string) :=
  match s with
  | EmptyString => None
  | String c r =>
      if Ascii.eqb c dquote then Some (EmptyString, r)
      else if Ascii.eqb c backslash then
        match r with
        | String e r1 =>
            if Ascii.eqb e "u" then
              match r1 with
              | String h1 (String h2 (String h3 (String h4 r2))) =>
                  a <- hex_value h1 ;; b <- hex_value h2 ;;
                  c' <- hex_value h3 ;; d <- hex_value h4 ;;
                  '(t, rest) <- string_body r2 ;;
                  Some ((utf8 (((a * 16 + b) * 16 + c') * 16 + d)%N ++ t)%string, rest)
              | _ => None
              end
            else
              ch <- unescape e ;;
              '(t, rest) <- string_body r1 ;;
              Some (String ch t, rest)
        | EmptyString => None
        end
      else if (N_of_ascii c <? 32)%N then None
      else
        '(t, rest) <- string_body r ;;
        Some (String c t, rest)
  end.

(** The input after a given prefix. *)
Fixpoint strip_prefix (p s : string) : option string :=
  match p with
  | EmptyString => Some s
  | String c p' =>
      match s with
      | String c' s' => if Ascii.eqb c c' then strip_prefix p' s' else None
      | EmptyString => None
      end
  end.

(** A value, the rest of an array after its first bracket, the rest of an
    object after its first brace.  [fuel] bounds the nesting and the number
    of elements. *)
Fixpoint value (fuel : nat) (s : string) : option (json * string) :=
  match fuel with
  | O => None
  | S fuel' =>
      match skip_ws s with
      | EmptyString => None
      | String c r =>
          if Ascii.eqb c "[" then
            match skip_ws r with
            | String c2 r2 =>
                if Ascii.eqb c2 "]" then Some (JArray [], r2)
                else '(vs, rest) <- elements fuel' r ;; Some (JArray vs, rest)
            | EmptyString => None
            end
          else if Ascii.eqb c "{" then
            match skip_ws r with
            | String c2 r2 =>
                if Ascii.eqb c2 "}" then Some (JObject [], r2)
                else '(ms, rest) <- members fuel' r ;; Some (JObject ms, rest)
            | EmptyString => None
            end
          else if Ascii.eqb c dquote then
            '(t, rest) <- string_body r ;; Some (JString t, rest)
          else if Ascii.eqb c "t" then
            rest <- strip_prefix "rue" r ;; Some (JBool true, rest)
          else if Ascii.eqb c "f" then
            rest <- strip_prefix "alse" r ;; Some (JBool false, rest)
          else if Ascii.eqb c "n" then
            rest <- strip_prefix "ull" r ;; Some (JNull, rest)
          else number (String c r)
      end
  end
with elements (fuel : nat) (s : string) : option (list json * string) :=
  match fuel with
  | O => None
  | S fuel' =>
      '(v, r) <- value fuel' s ;;
      match skip_ws r with
      | String c r' =>
          if Ascii.eqb c "," then
            '(vs, rest) <- elements fuel' r' ;; Some (v :: vs, rest)
          else if Ascii.eqb c "]" then Some ([v], r')
          else None
      | EmptyString => None
      end
  end
with members (fuel : nat) (s : string) : option (list (string * json) * string) :=
  match fuel with
  | O => None
  | S fuel' =>
      match skip_ws s with
      | String c r =>
          if Ascii.eqb c dquote then
            '(k, r1) <- string_body r ;;
            match skip_ws r1 with
            | String c1 r2 =>
                if Ascii.eqb c1 ":" then
                  '(v, r3) <- value fuel' r2 ;;
                  match skip_ws r3 with
                  | String c3 r4 =>
                      if Ascii.eqb c3 "," then
                        '(ms, rest) <- members fuel' r4 ;; Some ((k, v) :: ms, rest)
                      else if Ascii.eqb c3 "}" then Some ([(k, v)], r4)
                      else None
                  | EmptyString => None
                  end
                else None
            | EmptyString => None
            end
          else None
      | EmptyString => None
      end
  end.

(** [JSON.parse(s)]; [None] is the SyntaxError it throws.  The whole input
    must be one value between optional white space.  The fuel given is all
    the reader can use ([parse_fuel_enough] below). *)
Definition parse (s : string) : option json :=
  '(v, rest) <- value (2 * String.length s + 2) s ;;
  match skip_ws rest with
  | EmptyString => Some v
  | String _ _ => None
  end.

(** *** Parsed values as walk records *)

(** The integer [m * 10^e], when it is one. *)
Definition integer_of (m e : Z) : option Z :=
  if 0 <=? e then Some (m * 10 ^ e)
  else if m mod 10 ^ (- e) =? 0 then Some (m / 10 ^ (- e))
  else None.

(** An object with exactly the four properties of a walk record, in their
    order, is that record. *)
Definition walk_of_json (j : json) : option WalkRecord :=
  match j with
  | JObject [(k1, JString d); (k2, JNumber m2 e2); (k3, JNumber m3 e3); (k4, JNumber m4 e4)] =>
      if (String.eqb k1 "date" && String.eqb k2 "duration"
          && String.eqb k3 "steps" && String.eqb k4 "stepsPerMinute")%bool
      then
        du <- integer_of m2 e2 ;;
        st <- integer_of m3 e3 ;;
        sp <- integer_of m4 (e4 + 1) ;;
        Some (mkWalk d du st sp)
      else None
  | _ => None
  end.

Fixpoint walks_of_list (l : list json) : option (list WalkRecord) :=
  match l with
  | [] => Some []
  | j :: l' =>
      r <- walk_of_json j ;;
      rs <- walks_of_list l' ;;
      Some (r :: rs)
  end.

(** The value [parse] builds from the text of a record: the pace is an
    integer when its decimal is 0, tenths at exponent -1 otherwise. *)
Definition tenths_json (t : Z) : json :=
  if t mod 10 =? 0 then JNumber (t / 10) 0 else JNumber t (-1).

Definition of_walk (r : WalkRecord) : json :=
  JObject [("date"%string, JString (date r));
           ("duration"%string, JNumber (duration r) 0);
           ("steps"%string, JNumber (steps r) 0);
           ("stepsPerMinute"%string, tenths_json (stepsPerMinute r))].

(** A character a number may start with. *)
Definition starts_number (c : ascii) : bool :=
  match digit_of_char c with
  | Some _ => true
  | None => Ascii.eqb c "-"
  end.

(** The next character is not a digit. *)
Definition ends_digits (s : string) : bool :=
  match s with
  | String c _ =>
      match digit_of_char c with
      | Some _ => false
      | None => true
      end
  | EmptyString => true
  end.

(** The next character cannot continue a number. *)
Definition ends_number (s : string) : bool :=
  match s with
  | String c _ =>
      match digit_of_char c with
      | Some _ => false
      | None => negb (Ascii.eqb c "." || Ascii.eqb c "e" || Ascii.eqb c "E")
      end
  | EmptyString => true
  end.

(** An array of walk records; any other value is outside the data model
    of the walk store. *)
Definition walks_of_json (j : json) : option (list WalkRecord) :=
  match j with
  | JArray l => walks_of_list l
  | _ => None
  end.

End JSON.

(** ** [localStorage] *)

Module localStorage.

(** The string stored under each key, if any.  The store has no quota and
    access to it does not fail. *)
Definition t : Type := string -> option string.

Definition empty : t := fun _ => None.

Definition getItem (key : string) (ls : t) : option string := ls key.

Definition setItem (key value : string) (ls : t) : t :=
  fun k => if String.eqb k key then Some value else ls k.

End localStorage.

(** ** The array heap *)

(** Arrays of walk records are objects: [this.walks] holds a reference, and
    [push] and [splice] change the array in place.  The heap lists the arrays
    created so far; an address is a position in it. *)
Definition addr : Set := nat.
Definition Heap : Set := list (list WalkRecord).

Definition heap_alloc (a : list WalkRecord) (h : Heap) : addr * Heap :=
  (List.length h, h ++ [a]).

Definition heap_read (h : Heap) (p : addr) : list WalkRecord := nth p h [].

Fixpoint heap_write (h : Heap) (p : addr) (a : list WalkRecord) : Heap :=
  match h, p with
  | [], _ => []
  | _ :: h', O => a :: h'
  | x :: h', S p' => x :: heap_write h' p' a
  end.

(** ** The state *)

(** The fields of a [StepTracker] object (constructor, lines 8 to 22 and 36;
    [motionHandler] and [simulationInterval] appear in [startStepDetection]
    and [simulateSteps]).  A timer or listener handle is [true] while it is
    installed.  [lastAcceleration], which no method reads, and the handles of
    DOM elements are left out. *)
Record StepTracker : Set := mkStepTracker {
  isTracking : bool;
  startTime : option Z;
  elapsedTime : Z;
  stepCount : Z;
  timerInterval : bool;
  walks : addr;
  stepThreshold : float;
  lastStepTime : Z;
  minStepInterval : Z;
  accelerationBuffer : list float;
  bufferSize : Z;
  motionHandler : bool;
  simulationInterval : bool;
  currentPeriod : string
}.

(** The text nodes the modelled methods write.  The two counts that the
    program formats with [toLocaleString] are kept as numbers; [chartTotal]
    is the number in front of " total steps". *)
Record DOM : Set := mkDOM {
  timerDisplay : string;
  stepCountEl : string;
  stepsPerMinuteEl : string;
  summaryDuration : string;
  summarySteps : string;
  summaryPace : string;
  summaryModal : bool;
  avgSteps : Z;
  avgPace : string;
  totalWalks : string;
  chartTotal : Z
}.

Record World : Type := mkWorld {
  this : StepTracker;
  heap : Heap;
  storage : localStorage.t;
  dom : DOM
}.

(** Assignment to one field. *)
Definition set_isTracking (v : bool) (t : StepTracker) : StepTracker :=
  mkStepTracker v (startTime t) (elapsedTime t) (stepCount t) (timerInterval t) (walks t)
    (stepThreshold t) (lastStepTime t) (minStepInterval t) (accelerationBuffer t)
    (bufferSize t) (motionHandler t) (simulationInterval t) (currentPeriod t).

Definition set_startTime (v : option Z) (t : StepTracker) : StepTracker :=
  mkStepTracker (isTracking t) v (elapsedTime t) (stepCount t) (timerInterval t) (walks t)
    (stepThreshold t) (lastStepTime t) (minStepInterval t) (accelerationBuffer t)
    (bufferSize t) (motionHandler t) (simulationInterval t) (currentPeriod t).

Definition set_elapsedTime (v : Z) (t : StepTracker) : StepTracker :=
  mkStepTracker (isTracking t) (startTime t) v (stepCount t) (timerInterval t) (walks t)
    (stepThreshold t) (lastStepTime t) (minStepInterval t) (accelerationBuffer t)
    (bufferSize t) (motionHandler t) (simulationInterval t) (currentPeriod t).

Definition set_stepCount (v : Z) (t : StepTracker) : StepTracker :=
  mkStepTracker (isTracking t) (startTime t) (elapsedTime t) v (timerInterval t) (walks t)
    (stepThreshold t) (lastStepTime t) (minStepInterval t) (accelerationBuffer t)
    (bufferSize t) (motionHandler t) (simulationInterval t) (currentPeriod t).

Definition set_timerInterval (v : bool) (t : StepTracker) : StepTracker :=
  mkStepTracker (isTracking t) (startTime t) (elapsedTime t) (stepCount t) v (walks t)
    (stepThreshold t) (lastStepTime t) (minStepInterval t) (accelerationBuffer t)
    (bufferSize t) (motionHandler t) (simulationInterval t) (currentPeriod t).

Definition set_walks (v : addr) (t : StepTracker) : StepTracker :=
  mkStepTracker (isTracking t) (startTime t) (elapsedTime t) (stepCount t) (timerInterval t) v
    (stepThreshold t) (lastStepTime t) (minStepInterval t) (accelerationBuffer t)
    (bufferSize t) (motionHandler t) (simulationInterval t) (currentPeriod t).

Definition set_lastStepTime (v : Z) (t : StepTracker) : StepTracker :=
  mkStepTracker (isTracking t) (startTime t) (elapsedTime t) (stepCount t) (timerInterval t) (walks t)
    (stepThreshold t) v (minStepInterval t) (accelerationBuffer t)
    (bufferSize t) (motionHandler t) (simulationInterval t) (currentPeriod t).

Definition set_accelerationBuffer (v : list float) (t : StepTracker) : StepTracker :=
  mkStepTracker (isTracking t) (startTime t) (elapsedTime t) (stepCount t) (timerInterval t) (walks t)
    (stepThreshold t) (lastStepTime t) (minStepInterval t) v
    (bufferSize t) (motionHandler t) (simulationInterval t) (currentPeriod t).

Definition set_motionHandler (v : bool) (t : StepTracker) : StepTracker :=
  mkStepTracker (isTracking t) (startTime t) (elapsedTime t) (stepCount t) (timerInterval t) (walks t)
    (stepThreshold t) (lastStepTime t) (minStepInterval t) (accelerationBuffer t)
    (bufferSize t) v (simulationInterval t) (currentPeriod t).

Definition set_simulationInterval (v : bool) (t : StepTracker) : StepTracker :=
  mkStepTracker (isTracking t) (startTime t) (elapsedTime t) (stepCount t) (timerInterval t) (walks t)
    (stepThreshold t) (lastStepTime t) (minStepInterval t) (accelerationBuffer t)
    (bufferSize t) (motionHandler t) v (currentPeriod t).

Definition set_currentPeriod (v : string) (t : StepTracker) : StepTracker :=
  mkStepTracker (isTracking t) (startTime t) (elapsedTime t) (stepCount t) (timerInterval t) (walks t)
    (stepThreshold t) (lastStepTime t) (minStepInterval t) (accelerationBuffer t)
    (bufferSize t) (motionHandler t) (simulationInterval t) v.

Definition with_this (f : StepTracker -> StepTracker) (w : World) : World :=
  mkWorld (f (this w)) (heap w) (storage w) (dom w).

Definition with_dom (f : DOM -> DOM) (w : World) : World :=
  mkWorld (this w) (heap w) (storage w) (f (dom w)).

(** The array [this.walks] refers to. *)
Definition walksArray (w : World) : list WalkRecord := heap_read (heap w) (walks (this w)).

(** [this.walks] refers to an array that exists. *)
Definition wf (w : World) : Prop := (walks (this w) < List.length (heap w))%nat.

(** How a method that may throw ends.  [JSON.parse] may return a value that
    is not an array of walk records; the program would keep it in
    [this.walks] as it is, and the typed state cannot: [OutsideModel]. *)
Inductive Error : Set := SyntaxError.

Inductive Completion : Type :=
| Normal (w : World)
| Throw (e : Error)
| OutsideModel (j : JSON.json).

(** ** Sensor events *)

(** [event.accelerationIncludingGravity]: each axis may be missing. *)
Record Acceleration : Set := mkAcceleration {
  acc_x : option float;
  acc_y : option float;
  acc_z : option float
}.

Record DeviceMotionEvent : Set := mkEvent {
  accelerationIncludingGravity : option Acceleration
}.

(** The outcome of the permission request of [startTracking]. *)
Inductive Permission : Set :=
| NotRequired   (* the platform has no [requestPermission] *)
| Granted
| NotGranted
| RequestFailed (* the request threw; the error is caught and logged *).

(** ** The methods of [StepTracker] *)

(** *** Walk store (lines 345 to 381) *)

Definition storageKey : string := "stepTrackerWalks".

(** [saveWalk(walkData)]. *)
Definition saveWalk (walkData : WalkRecord) (w : World) : World :=
  let h := heap_write (heap w) (walks (this w)) (Array.push (walksArray w) walkData) in
  mkWorld (this w) h
    (localStorage.setItem storageKey (JSON.stringify (heap_read h (walks (this w)))) (storage w))
    (dom w).

(** [this.walks = a] for a new array [a]. *)
Definition assign_walks (a : list WalkRecord) (w : World) : World :=
  let '(p, h) := heap_alloc a (heap w) in
  mkWorld (set_walks p (this w)) h (storage w) (dom w).

(** [loadWalks()]: [null] and the empty string are falsy. *)
Definition loadWalks (w : World) : Completion :=
  match localStorage.getItem storageKey (storage w) with
  | None => Normal (assign_walks [] w)
  | Some saved =>
      if String.eqb saved EmptyString then Normal (assign_walks [] w)
      else
        match JSON.parse saved with
        | None => Throw SyntaxError
        | Some j =>
            match JSON.walks_of_json j with
            | Some a => Normal (assign_walks a w)
            | None => OutsideModel j
            end
        end
  end.

Definition weekMs : Z := 7 * 24 * 60 * 60 * 1000.
Definition monthMs : Z := 30 * 24 * 60 * 60 * 1000.

(** [new Date(w.date) >= limit]: false for an invalid date. *)
Definition notBefore (limit : Z) (r : WalkRecord) : bool :=
  match Date.parse (date r) with
  | Some tv => limit <=? tv
  | None => false
  end.

(** [getFilteredWalks()], the clock reading [now]: the address of the array
    it returns, and the world with the arrays it created. *)
Definition getFilteredWalks (now : Z) (w : World) : addr * World :=
  let '(filtered, h1) := heap_alloc (walksArray w) (heap w) in
  if String.eqb (currentPeriod (this w)) "week" then
    let weekAgo := now - weekMs in
    let '(p, h2) := heap_alloc (List.filter (notBefore weekAgo) (walksArray w)) h1 in
    (p, mkWorld (this w) h2 (storage w) (dom w))
  else if String.eqb (currentPeriod (this w)) "month" then
    let monthAgo := now - monthMs in
    let '(p, h2) := heap_alloc (List.filter (notBefore monthAgo) (walksArray w)) h1 in
    (p, mkWorld (this w) h2 (storage w) (dom w))
  else
    (filtered, mkWorld (this w) h1 (storage w) (dom w)).

(** *** Statistics (lines 467 to 486) *)

Definition sumQ (l : list WalkRecord) : Q :=
  fold_left (fun s r => (s + Q_of_tenths (stepsPerMinute r))%Q) l 0%Q.

Definition set_stats (a : Z) (p : string) (n : string) (c : Z) (d : DOM) : DOM :=
  mkDOM (timerDisplay d) (stepCountEl d) (stepsPerMinuteEl d) (summaryDuration d)
    (summarySteps d) (summaryPace d) (summaryModal d) a p n c.

(** [updateHistoryStats()]. *)
Definition updateHistoryStats (now : Z) (w : World) : World :=
  let '(p, w1) := getFilteredWalks now w in
  let walks := heap_read (heap w1) p in
  if (List.length walks =? 0)%nat then
    with_dom (set_stats 0 "0" "0" 0) w1
  else
    let len := Z.of_nat (List.length walks) in
    let totalSteps := Array.sumZ steps walks in
    let avgSteps := Math.round (inject_Z totalSteps / inject_Z len) in
    let avgPace := toFixed1 (sumQ walks / inject_Z len) in
    with_dom (set_stats avgSteps (Fixed1_toString avgPace) (Z_toString len) totalSteps) w1.

(** [renderHistory()], as far as it writes modelled state: the list and the
    sorted copy it renders from are not modelled. *)
Definition renderHistory (now : Z) (w : World) : World :=
  let '(p, w1) := getFilteredWalks now w in
  if (List.length (heap_read (heap w1) p) =? 0)%nat then w1
  else updateHistoryStats now w1.

(** [updateChart()], likewise: the chart is not modelled. *)
Definition updateChart (now : Z) (w : World) : World :=
  snd (getFilteredWalks now w).

(** [deleteWalk(index)]; one clock reading stands for the [new Date()] of
    each call it makes. *)
Definition deleteWalk (index : Z) (now : Z) (w : World) : World :=
  let h := heap_write (heap w) (walks (this w)) (Array.splice1 (walksArray w) index) in
  let w1 :=
    mkWorld (this w) h
      (localStorage.setItem storageKey (JSON.stringify (heap_read h (walks (this w)))) (storage w))
      (dom w) in
  updateChart now (renderHistory now w1).

(** [switchPeriod(button)], the period of the button given. *)
Definition switchPeriod (period : string) (now : Z) (w : World) : World :=
  updateHistoryStats now (updateChart now (with_this (set_currentPeriod period) w)).

(** *** Session (lines 130 to 239) *)

(** [d > 0 ? (n / (d / 60000)).toFixed(1) : 0], the expression both
    [stopTracking] (line 188) and [updateTimer] (lines 231 to 233) evaluate. *)
Definition paceOf (n d : Z) : PaceValue :=
  if 0 <? d then PaceString (toFixed1 (inject_Z n / (inject_Z d / 60000)))
  else PaceNumber0.

(** [startStepDetection()]: the sensor if the platform has one, else the
    simulation. *)
Definition startStepDetection (hasDeviceMotion : bool) (w : World) : World :=
  if hasDeviceMotion then with_this (set_motionHandler true) w
  else with_this (set_simulationInterval true) w.

(** [stopStepDetection()]. *)
Definition stopStepDetection (w : World) : World :=
  with_this (fun t => set_simulationInterval false (set_motionHandler false t)) w.

(** [startTracking()], given how the permission request ended, whether the
    platform has [DeviceMotionEvent], and the clock. *)
Definition startTracking (perm : Permission) (hasDeviceMotion : bool) (now : Z) (w : World)
  : World :=
  match perm with
  | NotGranted => w
  | _ =>
      let w1 :=
        with_this (fun t =>
          set_timerInterval true
            (set_accelerationBuffer []
              (set_stepCount 0
                (set_elapsedTime 0
                  (set_startTime (Some now)
                    (set_isTracking true t)))))) w in
      startStepDetection hasDeviceMotion w1
  end.

Definition set_summary (d s p : string) (o : DOM) : DOM :=
  mkDOM (timerDisplay o) (stepCountEl o) (stepsPerMinuteEl o) d s p true
    (avgSteps o) (avgPace o) (totalWalks o) (chartTotal o).

(** [showSummary(duration, steps, stepsPerMinute)]. *)
Definition showSummary (duration steps : Z) (stepsPerMinute : PaceValue) (w : World) : World :=
  let totalSeconds := duration / 1000 in
  let hours := totalSeconds / 3600 in
  let minutes := Z.rem totalSeconds 3600 / 60 in
  let seconds := Z.rem totalSeconds 60 in
  let durationText :=
    if 0 <? hours then
      (Z_toString hours ++ "h " ++ Z_toString minutes ++ "m " ++ Z_toString seconds ++ "s")%string
    else if 0 <? minutes then
      (Z_toString minutes ++ " min " ++ Z_toString seconds ++ " sec")%string
    else (Z_toString seconds ++ " sec")%string in
  with_dom (set_summary durationText (Z_toString steps) (PaceValue_text stepsPerMinute)) w.

(** [stopTracking()], the clock reading [now]. *)
Definition stopTracking (now : Z) (w : World) : World :=
  let w1 := with_this (fun t => set_timerInterval false (set_isTracking false t)) w in
  let w2 := stopStepDetection w1 in
  let duration := elapsedTime (this w2) in
  let steps := stepCount (this w2) in
  let stepsPerMinute := paceOf steps duration in
  let w3 :=
    if 1000 <? duration then
      saveWalk {| date := Date.toISOString now;
                  duration := duration;
                  steps := steps;
                  stepsPerMinute := parseFloat stepsPerMinute |} w2
    else w2 in
  showSummary duration steps stepsPerMinute w3.

(** [toggleTracking()]. *)
Definition toggleTracking (perm : Permission) (hasDeviceMotion : bool) (now : Z) (w : World)
  : World :=
  if isTracking (this w) then stopTracking now w
  else startTracking perm hasDeviceMotion now w.

Definition set_displays (t c p : string) (o : DOM) : DOM :=
  mkDOM t c p (summaryDuration o) (summarySteps o) (summaryPace o) (summaryModal o)
    (avgSteps o) (avgPace o) (totalWalks o) (chartTotal o).

(** The callback [stopTracking] schedules 500 ms later. *)
Definition resetDisplays (w : World) : World :=
  with_dom (set_displays "00:00:00" "0" "0.0") w.

(** [updateTimer()], the clock reading [now]; a [null] start time counts
    as 0. *)
Definition updateTimer (now : Z) (w : World) : World :=
  let elapsed := now - match startTime (this w) with Some st => st | None => 0 end in
  let w1 := with_this (set_elapsedTime elapsed) w in
  let totalSeconds := elapsed / 1000 in
  let hours := totalSeconds / 3600 in
  let minutes := Z.rem totalSeconds 3600 / 60 in
  let seconds := Z.rem totalSeconds 60 in
  let text := (padStart0 2 hours ++ ":" ++ padStart0 2 minutes ++ ":" ++ padStart0 2 seconds)%string in
  let stepsPerMinute := paceOf (stepCount (this w1)) (elapsedTime (this w1)) in
  with_dom (fun o => set_displays text (stepCountEl o) (PaceValue_text stepsPerMinute) o) w1.

(** *** Step detection (lines 270 to 320) *)

(** [registerStep()]; the haptic pulse is not modelled. *)
Definition registerStep (w : World) : World :=
  let w1 := with_this (fun t => set_stepCount (stepCount t + 1) t) w in
  with_dom (fun o => set_displays (timerDisplay o) (Z_toString (stepCount (this w1)))
                       (stepsPerMinuteEl o) o) w1.

(** Lines 277 to 281: the magnitude of the acceleration. *)
Definition magnitudeOf (a : Acceleration) : float :=
  Math.sqrt (Math.pow (or_zero (acc_x a)) 2
             + Math.pow (or_zero (acc_y a)) 2
             + Math.pow (or_zero (acc_z a)) 2)%float.

(** Lines 284 to 287: the buffer after the sample. *)
Definition pushSample (size : Z) (buffer : list float) (magnitude : float) : list float :=
  let b := Array.push buffer magnitude in
  if size <? Z.of_nat (List.length b) then Array.shift b else b.

(** Line 290: the mean of the buffer. *)
Definition average (buffer : list float) : float :=
  (Array.sum_float buffer / float_of_nat (List.length buffer))%float.

(** [handleMotion(event)], the clock reading [now]. *)
Definition handleMotion (event : DeviceMotionEvent) (now : Z) (w : World) : World :=
  if negb (isTracking (this w)) then w
  else
    match accelerationIncludingGravity event with
    | None => w
    | Some acceleration =>
        let magnitude := magnitudeOf acceleration in
        let w1 :=
          with_this (fun t =>
            set_accelerationBuffer
              (pushSample (bufferSize t) (accelerationBuffer t) magnitude) t) w in
        let avgMagnitude := average (accelerationBuffer (this w1)) in
        let deltaAcc := Math.abs (avgMagnitude - 9.8)%float in
        if (PrimFloat.ltb (stepThreshold (this w1)) deltaAcc
            && (minStepInterval (this w1) <? now - lastStepTime (this w1)))%bool
        then with_this (set_lastStepTime now) (registerStep w1)
        else w1
    end.

(** One tick of the interval [simulateSteps()] installs, [random] the value
    of [Math.random()]. *)
Definition simulationTick (random : float) (w : World) : World :=
  if (isTracking (this w) && PrimFloat.ltb 0.1 random)%bool then registerStep w
  else w.

(** *** Construction (lines 7 to 54) *)

(** [init()], as far as it touches modelled state. *)
Definition init (now : Z) (w : World) : Completion :=
  match loadWalks w with
  | Normal w1 => Normal (updateChart now (renderHistory now w1))
  | c => c
  end.

(** [new StepTracker()], given the store, the page and the clock. *)
Definition constructor (ls : localStorage.t) (page : DOM) (now : Z) : Completion :=
  let '(p, h) := heap_alloc [] [] in
  init now
    {| this :=
         {| isTracking := false;
            startTime := None;
            elapsedTime := 0;
            stepCount := 0;
            timerInterval := false;
            walks := p;
            stepThreshold := 1.2%float;
            lastStepTime := 0;
            minStepInterval := 250;
            accelerationBuffer := [];
            bufferSize := 4;
            motionHandler := false;
            simulationInterval := false;
            currentPeriod := "week" |};
       heap := h;
       storage := ls;
       dom := page |}.

(** ** Runs and sample states *)

(** A stream of sensor events with the clock reading at each: the worlds
    they lead through. *)
Fixpoint processMotion (samples : list (DeviceMotionEvent * Z)) (w : World) : World :=
  match samples with
  | [] => w
  | (event, now) :: rest => processMotion rest (handleMotion event now w)
  end.

(** A call of [handleMotion] registered a step when it raised the count. *)
Definition stepped (w w' : World) : bool :=
  stepCount (this w') =? stepCount (this w) + 1.

(** The clock readings at which the stream registered a step. *)
Fixpoint stepTimes (samples : list (DeviceMotionEvent * Z)) (w : World) : list Z :=
  match samples with
  | [] => []
  | (event, now) :: rest =>
      let w' := handleMotion event now w in
      if stepped w w' then now :: stepTimes rest w' else stepTimes rest w'
  end.

(** [saveWalk] on each record of a list, in order. *)
Definition saveWalks (rs : list WalkRecord) (w : World) : World :=
  fold_left (fun w' r => saveWalk r w') rs w.

(** What is persisted is the text of the walk array; nothing persisted
    stands for the empty array. *)
Definition inSync (w : World) : Prop :=
  match localStorage.getItem storageKey (storage w) with
  | Some saved => saved = JSON.stringify (walksArray w)
  | None => walksArray w = []
  end.

(** The page before the program has written to it. *)
Definition blankPage : DOM :=
  mkDOM "00:00:00" "0" "0.0" "" "" "" false 0 "0" "0" 0.

(** The object the constructor builds, with an empty array and nothing
    persisted. *)
Definition idleWorld : World :=
  {| this := mkStepTracker false None 0 0 false 0%nat 1.2%float 0 250 [] 4 false false "week";
     heap := [[]];
     storage := localStorage.empty;
     dom := blankPage |}.

(** A session in progress: started at [start], with [n] steps counted and
    the timer last run [elapsed] ms after the start. *)
Definition walkingWorld (start elapsed n : Z) : World :=
  with_this (fun t =>
    set_motionHandler true
      (set_timerInterval true
        (set_stepCount n
          (set_elapsedTime elapsed
            (set_startTime (Some start)
              (set_isTracking true t)))))) idleWorld.

(** A world whose walk array holds the given records, persisted. *)
Definition storedWorld (rs : list WalkRecord) (period : string) : World :=
  {| this := mkStepTracker false None 0 0 false 0%nat 1.2%float 0 250 [] 4 false false period;
     heap := [rs];
     storage := localStorage.setItem storageKey (JSON.stringify rs) localStorage.empty;
     dom := blankPage |}.

(** A world with a given string persisted and nothing loaded yet. *)
Definition persistedWorld (saved : string) : World :=
  {| this := mkStepTracker false None 0 0 false 0%nat 1.2%float 0 250 [] 4 false false "week";
     heap := [[]];
     storage := localStorage.setItem storageKey saved localStorage.empty;
     dom := blankPage |}.

(** [t2] comes more than [gap] after [t1]. *)
Definition apart (gap : Z) (t1 t2 : Z) : Prop := gap < t2 - t1.

(** A heap that still holds every array of an earlier one, unchanged and at
    its address. *)
Definition extends (h h' : Heap) : Prop := exists extra, h' = h ++ extra.

(** The contents of the array [getFilteredWalks] returns, by period. *)
Definition filteredBy (period : string) (now : Z) (a : list WalkRecord) : list WalkRecord :=
  if String.eqb period "week" then List.filter (notBefore (now - weekMs)) a
  else if String.eqb period "month" then List.filter (notBefore (now - monthMs)) a
  else a.

(** A sensor event well above the threshold: 12 on one axis. *)
Definition strongSample : DeviceMotionEvent :=
  mkEvent (Some (mkAcceleration (Some 0%float) (Some 0%float) (Some 12%float))).

(** Sample walks: one from the day before, one from a month before and one
    from a year before 2024-02-29T12:34:56.789Z. *)
Definition sampleNow : Z := 1709210096789.
Definition walkYesterday : WalkRecord := mkWalk "2024-02-28T12:00:00.000Z" 65000 130 1200.
Definition walkLastMonth : WalkRecord := mkWalk "2024-02-01T08:30:00.000Z" 600000 1000 1000.
Definition walkLastYear : WalkRecord := mkWalk "2023-03-01T18:00:00.000Z" 1800000 2500 833.
Definition walkHourAgo : WalkRecord := mkWalk "2024-02-29T11:34:56.789Z" 120000 201 1005.

(** ** The pace in binary64 *)

(** The pace path of the embedding is exact; the browser evaluates it in
    binary64.  The definitions below evaluate it as the browser does, to
    compare the two on given inputs. *)
Module Binary64.

(** An integer as a binary64 value (round to nearest, ties to even). *)
Definition of_Z (z : Z) : float := SF2Prim (binary_normalize prec emax z 0 false).

(** The rational a finite binary64 value is. *)
Definition to_Q (v : float) : option Q :=
  match Prim2SF v with
  | S754_zero _ => Some 0%Q
  | S754_finite s m e => Some (inject_Z (if s then Zneg m else Zpos m) * Qpower 2 e)%Q
  | _ => None
  end.

(** [n / (d / 60000)] in binary64. *)
Definition quotient (n d : Z) : float := (of_Z n / (of_Z d / 60000))%float.

(** [(n / (d / 60000)).toFixed(1)] on the binary64 quotient, when it is
    finite. *)
Definition pace (n d : Z) : option Fixed1 := option_map toFixed1 (to_Q (quotient n d)).

(** [((0 + a/10 + b/10) / 2).toFixed(1)], the mean of two stored paces
    given in tenths. *)
Definition mean2 (a b : Z) : option Fixed1 :=
  option_map toFixed1 (to_Q ((0 + of_Z a / 10 + of_Z b / 10) / 2)%float).

End Binary64.

(** ** The event loop *)

(** What the page delivers to the object: a click on the control button
    (with how the permission request ends, whether the platform has
    [DeviceMotionEvent], and the clock), a tick of the timer, a sensor
    event, a tick of the simulation, the delayed reset of the displays, the
    opening of the history tab, a swipe on a history item, a click on a
    period button.  A click on the control button is taken together with
    the permission request it makes: clicks made while a request is pending
    are not among the events. *)
Inductive Event : Set :=
| ControlClick (perm : Permission) (hasDeviceMotion : bool) (now : Z)
| TimerTick (now : Z)
| DeviceMotion (event : DeviceMotionEvent) (now : Z)
| SimulationTick (random : float)
| DisplayReset
| HistoryTab (now : Z)
| SwipeDelete (index : Z) (now : Z)
| PeriodClick (period : string) (now : Z).

(** A timer or a listener runs only while it is installed. *)
Definition dispatch (e : Event) (w : World) : World :=
  match e with
  | ControlClick perm hasDeviceMotion now => toggleTracking perm hasDeviceMotion now w
  | TimerTick now => if timerInterval (this w) then updateTimer now w else w
  | DeviceMotion event now => if motionHandler (this w) then handleMotion event now w else w
  | SimulationTick random => if simulationInterval (this w) then simulationTick random w else w
  | DisplayReset => resetDisplays w
  | HistoryTab now => updateChart now (renderHistory now w)
  | SwipeDelete index now => deleteWalk index now w
  | PeriodClick period now => switchPeriod period now w
  end.

(** The worlds the program can be in: the one the constructor builds, and
    those events lead to. *)
Inductive reachable : World -> Prop :=
| reachable_new (ls : localStorage.t) (page : DOM) (now : Z) (w : World) :
    constructor ls page now = Normal w -> reachable w
| reachable_step (e : Event) (w : World) :
    reachable w -> reachable (dispatch e w).

(** What holds of the object in every such world: the parameters of the
    constructor, a buffer within its size, a count that is not negative, and
    no timer or listener left installed outside a session. *)
Definition trackerInvariant (t : StepTracker) : Prop :=
  bufferSize t = 4
  /\ minStepInterval t = 250
  /\ stepThreshold t = 1.2%float
  /\ (List.length (accelerationBuffer t) <= 4)%nat
  /\ 0 <= stepCount t
  /\ (isTracking t = false ->
      timerInterval t = false /\ motionHandler t = false /\ simulationInterval t = false).

Definition invariant (w : World) : Prop := wf w /\ trackerInvariant (this w).

(** ** Checks by enumeration *)

(** A test holds of [n] consecutive integers from [z] on. *)
Fixpoint all_from (P : Z -> bool) (z : Z) (n : nat) : bool :=
  match n with
  | O => true
  | S n' => if P z then all_from P (z + 1) n' else false
  end.

(** The numeral of [n], padded to [k] digits, reads as [n]. *)
Definition padded_ok (k : nat) (n : Z) : bool :=
  match take_digits k 0 (padStart0 k n) with
  | Some (v, EmptyString) => v =? n
  | _ => false
  end.

(** ** The history list and the chart *)

From Stdlib Require Import Permutation.

(** *** [parseInt], [findIndex] and [sort] *)

(** StrWhiteSpaceChar among the ASCII characters: tab, line feed, vertical
    tab, form feed, carriage return and space. *)
Definition is_StrWhiteSpaceChar (c : ascii) : bool :=
  let n := N_of_ascii c in
  (((9 <=? n) && (n <=? 13)) || (n =? 32))%N.

Fixpoint trimStart (s : string) : string :=
  match s with
  | String c r => if is_StrWhiteSpaceChar c then trimStart r else s
  | EmptyString => s
  end.

(** The value of the longest prefix of hexadecimal digits, after the digits
    read so far; [None] when there is no digit at all. *)
Fixpoint scan_hex (s : string) (acc : option N) : option N :=
  match s with
  | String c r =>
      match JSON.hex_value c with
      | Some v => scan_hex r (Some (match acc with Some a => a * 16 + v | None => v end)%N)
      | None => acc
      end
  | EmptyString => acc
  end.

(** The value of the longest prefix of decimal digits, if there is one. *)
Definition scan_decimal (s : string) : option N :=
  let '(d, _) := JSON.scan_digits s in
  if JSON.is_nil d then None else Some (N.of_uint d).

(** The digits of [parseInt]: the prefix 0x or 0X selects radix 16, and the
    longest prefix of digits of the radix is the value. *)
Definition parseInt_digits (s : string) : option N :=
  match s with
  | String "0" (String x r) =>
      if (Ascii.eqb x "x" || Ascii.eqb x "X")%bool then scan_hex r None
      else scan_decimal s
  | _ => scan_decimal s
  end.

(** [parseInt(s)] with no radix (ECMA-262, 19.2.5): leading white space is
    dropped, a sign is read, then the digits; [None] is NaN. *)
Definition parseInt (s : string) : option Z :=
  let s1 := trimStart s in
  let '(negative, s2) :=
    match s1 with
    | String "-" r => (true, r)
    | String "+" r => (false, r)
    | _ => (false, s1)
    end in
  match parseInt_digits s2 with
  | Some n => Some (if negative then - Z.of_N n else Z.of_N n)
  | None => None
  end.

(** [a.findIndex(p)]: the first index whose element satisfies [p], or -1. *)
Fixpoint findIndex_from {A : Type} (p : A -> bool) (a : list A) (k : Z) : Z :=
  match a with
  | [] => -1
  | x :: r => if p x then k else findIndex_from p r (k + 1)
  end.

Definition findIndex {A : Type} (p : A -> bool) (a : list A) : Z := findIndex_from p a 0.

(** [a.sort(comparefn)] (ECMA-262, 23.1.3.30).  The comparator returns a
    number, negative when its first argument goes first, and NaN ([None])
    counts as +0.  For a consistent comparator the result is determined: the
    elements in the order of the comparator, those that compare as equal in
    the order they had.  [sort] computes it by insertion.  For an
    inconsistent comparator the order is left to the implementation; the
    properties below are stated where the comparator is consistent. *)
Definition notAfter {A : Type} (comparefn : A -> A -> option Z) (x y : A) : bool :=
  match comparefn x y with
  | Some v => v <=? 0
  | None => true
  end.

Fixpoint insert {A : Type} (comparefn : A -> A -> option Z) (x : A) (l : list A) : list A :=
  match l with
  | [] => [x]
  | y :: r => if notAfter comparefn x y then x :: l else y :: insert comparefn x r
  end.

Definition sort {A : Type} (comparefn : A -> A -> option Z) (l : list A) : list A :=
  fold_right (insert comparefn) [] l.

(** *** [renderHistory] (lines 383 to 465) *)

(** The time value of [new Date(walk.date)]; [None] for an invalid date. *)
Definition dateValue (walk : WalkRecord) : option Z := Date.parse (date walk).

(** [new Date(a.date) - new Date(b.date)]. *)
Definition dateDifference (a b : WalkRecord) : option Z :=
  match dateValue a, dateValue b with
  | Some ta, Some tb => Some (ta - tb)
  | _, _ => None
  end.

(** One entry of the list.  [dateStr] and [timeStr] are texts that the
    browser forms from the date for its locale and time zone: the entry keeps
    the date.  The step count, shown with [toLocaleString], is kept as the
    number. *)
Record HistoryItem : Set := mkItem {
  dataIndex : string;
  itemDate : option Z;
  durationStr : string;
  itemSteps : Z;
  itemPace : string
}.

(** What [renderHistory] puts into the list element: the empty-state
    markup, or the entries. *)
Inductive HistoryList : Set :=
| EmptyState
| Items (l : list HistoryItem).

(** Lines 414 to 418. *)
Definition durationText (duration : Z) : string :=
  let durationMin := duration / 60000 in
  let durationSec := Z.rem duration 60000 / 1000 in
  if 0 <? durationMin then
    (Z_toString durationMin ++ "m " ++ Z_toString durationSec ++ "s")%string
  else (Z_toString durationSec ++ "s")%string.

(** Line 420. *)
Definition originalIndex (walks : list WalkRecord) (walk : WalkRecord) : Z :=
  findIndex (fun w => String.eqb (date w) (date walk)) walks.

(** The callback of [sortedWalks.map], lines 402 to 441. *)
Definition historyItem (walks : list WalkRecord) (walk : WalkRecord) : HistoryItem :=
  {| dataIndex := Z_toString (originalIndex walks walk);
     itemDate := dateValue walk;
     durationStr := durationText (duration walk);
     itemSteps := steps walk;
     itemPace := JSON.tenths_toString (stepsPerMinute walk) |}.

(** The list [renderHistory()] renders: the filtered walks, sorted by date
    descending. *)
Definition historyList (now : Z) (w : World) : HistoryList :=
  let '(p, w1) := getFilteredWalks now w in
  let walks := heap_read (heap w1) p in
  if (List.length walks =? 0)%nat then EmptyState
  else
    let sortedWalks := sort (fun a b => dateDifference b a) walks in
    Items (map (historyItem (walksArray w1)) sortedWalks).

(** The [touchend] handler of an entry (lines 452 to 461): the two
    [clientX] readings of the touch, and the answer to the confirm dialog,
    which is asked only after a swipe of more than 100 to the left.
    [splice] takes a NaN index as 0. *)
Definition touchend (item : HistoryItem) (touchStartX touchEndX : float) (confirmed : bool)
  (now : Z) (w : World) : World :=
  if PrimFloat.ltb 100 (touchStartX - touchEndX)%float then
    if confirmed then
      let index := match parseInt (dataIndex item) with Some i => i | None => 0 end in
      deleteWalk index now w
    else w
  else w.

(** *** [updateChart] (lines 581 to 610) *)

(** A label of the chart: a literal text, or a date shown as its short
    weekday, or as its short month and day, in the words of the locale. *)
Inductive Label : Set :=
| LabelText (s : string)
| LabelWeekday (d : option Z)
| LabelMonthDay (d : option Z).

Record ChartData : Set := mkChartData {
  chartLabels : list Label;
  chartValues : list Z
}.

(** What [updateChart()] assigns to [chart.data.labels] and to
    [chart.data.datasets[0].data]. *)
Definition chartData (now : Z) (w : World) : ChartData :=
  let '(p, w1) := getFilteredWalks now w in
  let walks := heap_read (heap w1) p in
  let sortedWalks := sort dateDifference walks in
  let labels :=
    map (fun walk =>
           if String.eqb (currentPeriod (this w1)) "week" then LabelWeekday (dateValue walk)
           else LabelMonthDay (dateValue walk)) sortedWalks in
  let data := map steps sortedWalks in
  if (List.length data =? 0)%nat then
    {| chartLabels := map LabelText ["Mon"; "Tue"; "Wed"; "Thu"; "Fri"; "Sat"; "Sun"]%string;
       chartValues := [0; 0; 0; 0; 0; 0; 0] |}
  else {| chartLabels := labels; chartValues := data |}.

(** The walk that the tooltip callbacks (lines 519 to 540) describe for the
    bar at [index]: [this.getFilteredWalks()[index]], [None] when there is
    none and the tooltip stays empty. *)
Definition tooltipWalk (index : nat) (now : Z) (w : World) : option WalkRecord :=
  let '(p, w1) := getFilteredWalks now w in
  nth_error (heap_read (heap w1) p) index.

(** *** Runs of the simulation, and what a reload finds *)

(** The ticks of the simulation timer, with the value [Math.random()]
    returns in each. *)
Definition simulate (randoms : list float) (w : World) : World :=
  fold_left (fun w' random => simulationTick random w') randoms w.

(** The events of a list, dispatched in order. *)
Definition run (events : list Event) (w : World) : World :=
  fold_left (fun w' e => dispatch e w') events w.

(** The array [loadWalks] would install from a store; [None] when it would
    not complete with an array of records. *)
Definition storedWalks (ls : localStorage.t) : option (list WalkRecord) :=
  match localStorage.getItem storageKey ls with
  | None => Some []
  | Some saved =>
      if String.eqb saved EmptyString then Some []
      else
        match JSON.parse saved with
        | Some j => JSON.walks_of_json j
        | None => None
        end
  end.

(** Walks in the order of their dates, all valid, the earlier first. *)
Definition byDate (a b : WalkRecord) : Prop :=
  match dateValue a, dateValue b with
  | Some ta, Some tb => ta <= tb
  | _, _ => False
  end.

Definition validDate (walk : WalkRecord) : Prop := dateValue walk <> None.

(** The world of a first visit: nothing persisted, the page blank. *)
Definition freshWorld : World :=
  match constructor localStorage.empty blankPage 0 with
  | Normal w => w
  | _ => idleWorld
  end.

(** The time value of a walk's date, 0 standing in for an invalid one. *)
Definition timeOf (walk : WalkRecord) : Z :=
  match dateValue walk with
  | Some t => t
  | None => 0
  end.

(** The label [updateChart] gives a walk in a period. *)
Definition labelOf (period : string) (walk : WalkRecord) : Label :=
  if String.eqb period "week" then LabelWeekday (dateValue walk)
  else LabelMonthDay (dateValue walk).

(** A session that has what it needs to run: its timer, one source of
    steps and not both, and a start time. *)
Definition sessionRunning (t : StepTracker) : Prop :=
  timerInterval t = true
  /\ xorb (motionHandler t) (simulationInterval t) = true
  /\ startTime t <> None.

(** *** The timer ring (lines 236 to 245) *)

(** [Math.PI]. *)
Definition PI : float := 3.141592653589793%float.

(** [updateTimerRing(progress)]: the value it assigns to
    [strokeDashoffset]. *)
Definition updateTimerRing (progress : float) : float :=
  let circumference := (2 * PI * 90)%float in
  let offset := (circumference * (1 - progress))%float in
  offset.

(** Lines 236 to 238 of [updateTimer], for the elapsed time it has
    computed: the offset the ring gets. *)
Definition timerRing (elapsed : Z) : float :=
  let totalSeconds := elapsed / 1000 in
  let ringProgress := (Binary64.of_Z (Z.rem totalSeconds 60) / 60)%float in
  updateTimerRing ringProgress.

(** The ring at two seconds of the minute, given as [60 * s + s']: its
    offset is positive and at most the circumference, which it is at second
    0 only, and it is smaller at the later second. *)
Definition ring_seconds_ok (k : Z) : bool :=
  let s := k / 60 in
  let s' := k mod 60 in
  let circumference := (2 * PI * 90)%float in
  PrimFloat.ltb 0 (timerRing (s * 1000))
  && PrimFloat.leb (timerRing (s * 1000)) circumference
  && Bool.eqb (PrimFloat.eqb (timerRing (s * 1000)) circumference) (s =? 0)
  && implb (s <? s') (PrimFloat.ltb (timerRing (s' * 1000)) (timerRing (s * 1000))).

(** *** Platforms that do not ask for the motion permission *)

(** Where [DeviceMotionEvent.requestPermission] does not exist,
    [startTracking] has no [await] to stop at: a click on the control
    button runs to its end before the next event is delivered, as [dispatch]
    has it.  Where it exists, the object is set to tracking only after the
    request has been answered, and a click made in between starts a second
    session beside the first; the properties of timers and listeners below
    are stated for events without a request. *)
Definition unprompted (e : Event) : Prop :=
  match e with
  | ControlClick perm _ _ => perm = NotRequired
  | _ => True
  end.

(** The worlds the program can be in on such a platform. *)
Inductive reachableUnprompted : World -> Prop :=
| unprompted_new (ls : localStorage.t) (page : DOM) (now : Z) (w : World) :
    constructor ls page now = Normal w -> reachableUnprompted w
| unprompted_step (e : Event) (w : World) :
    unprompted e -> reachableUnprompted w -> reachableUnprompted (dispatch e w).

(** *** Dates as the program writes them *)



(** * Properties *)

(** ** Dates *)

Example toISOString_epoch : Date.toISOString 0 = "1970-01-01T00:00:00.000Z"%string.
Proof. reflexivity. Qed.

Example toISOString_leap_day : Date.toISOString 1709210096789 = "2024-02-29T12:34:56.789Z"%string.
Proof. reflexivity. Qed.

Example toISOString_before_epoch : Date.toISOString (-1) = "1969-12-31T23:59:59.999Z"%string.
Proof. reflexivity. Qed.

Example parse_leap_day : Date.parse "2024-02-29T12:34:56.789Z" = Some 1709210096789.
Proof. reflexivity. Qed.

Example parse_no_such_day : Date.parse "2023-02-29T12:34:56.789Z" = None.
Proof. reflexivity. Qed.

(** The sample walks are dated one hour, a day, four weeks and a year
    before the sample clock reading. *)
Example sample_dates :
  Date.parse (date walkHourAgo) = Some (sampleNow - 60 * 60 * 1000)
  /\ Date.parse (date walkYesterday) = Some 1709121600000
  /\ Date.toISOString sampleNow = "2024-02-29T12:34:56.789Z"%string.
Proof. repeat split. Qed.

(** ** Rounding *)

Lemma Qfloor_half_bounds (v : Q) :
  (inject_Z (Qfloor (v + (1 # 2))) - (1 # 2) <= v
   /\ v < inject_Z (Qfloor (v + (1 # 2))) + (1 # 2))%Q.
Proof.
  pose proof (Qfloor_le (v + (1 # 2))) as Hlo.
  pose proof (Qlt_floor (v + (1 # 2))) as Hhi.
  rewrite inject_Z_plus in Hhi. change (inject_Z 1) with 1%Q in Hhi.
  split; lra.
Qed.

(** [Math.round] returns the nearest integer, the upper one on a tie. *)
Lemma Math_round_nearest (v : Q) :
  (inject_Z (Math.round v) - (1 # 2) <= v /\ v < inject_Z (Math.round v) + (1 # 2))%Q.
Proof. apply Qfloor_half_bounds. Qed.

Lemma Qfloor_nonneg (v : Q) : (0 <= v)%Q -> 0 <= Qfloor v.
Proof.
  intros H. change 0 with (Qfloor 0). apply Qfloor_resp_le. exact H.
Qed.

Lemma toFixed1_tenths (v : Q) :
  Z.of_N (fixed_tenths (toFixed1 v)) = Qfloor (Qabs v * 10 + (1 # 2)).
Proof.
  unfold toFixed1; cbn [fixed_tenths].
  apply Z2N.id. apply Qfloor_nonneg.
  pose proof (Qabs_nonneg v). lra.
Qed.

(** For a non-negative [v], [toFixed(1)] has no sign and its tenths are the
    nearest integer to [10 v]. *)
Lemma toFixed1_nonneg (v : Q) :
  (0 <= v)%Q ->
  fixed_neg (toFixed1 v) = false
  /\ Fixed1_value (toFixed1 v) = Qfloor (v * 10 + (1 # 2)).
Proof.
  intros Hv.
  assert (Hneg : fixed_neg (toFixed1 v) = false).
  { unfold toFixed1; cbn [fixed_neg]. apply negb_false_iff. apply Qle_bool_iff. exact Hv. }
  split; [exact Hneg|].
  unfold Fixed1_value. rewrite Hneg, toFixed1_tenths.
  apply Qfloor_comp. rewrite (Qabs_pos v Hv). reflexivity.
Qed.

(** The number [toFixed(1)] writes is within half a tenth of its argument:
    the argument to one decimal place. *)
Lemma toFixed1_close (v : Q) :
  (Qabs (Q_of_tenths (Fixed1_value (toFixed1 v)) - v) <= 1 # 20)%Q.
Proof.
  destruct (Qfloor_half_bounds (Qabs v * 10)) as [Hlo Hhi].
  unfold Fixed1_value. rewrite toFixed1_tenths.
  set (t := Qfloor (Qabs v * 10 + (1 # 2))) in *.
  apply Qabs_Qle_condition.
  unfold toFixed1; cbn [fixed_neg].
  destruct (Qle_bool 0 v) eqn:Hs; cbn [negb].
  - apply Qle_bool_iff in Hs. rewrite (Qabs_pos v Hs) in Hlo, Hhi.
    unfold Q_of_tenths.
    assert (Hdiv : (inject_Z t / 10 == inject_Z t * (1 # 10))%Q) by (unfold Qdiv; reflexivity).
    rewrite Hdiv. split; lra.
  - assert (Hneg : (v <= 0)%Q).
    { destruct (Qlt_le_dec v 0) as [H|H]; [lra|].
      apply Qle_bool_iff in H. congruence. }
    rewrite (Qabs_neg v Hneg) in Hlo, Hhi.
    unfold Q_of_tenths. rewrite inject_Z_opp.
    assert (Hdiv : (- inject_Z t / 10 == - inject_Z t * (1 # 10))%Q) by (unfold Qdiv; reflexivity).
    rewrite Hdiv. split; lra.
Qed.

(** ** The heap *)

Lemma heap_write_length (h : Heap) (p : addr) (a : list WalkRecord) :
  List.length (heap_write h p a) = List.length h.
Proof.
  revert p; induction h as [|x h IH]; intros [|p]; simpl; auto.
Qed.

Lemma heap_read_write_same (h : Heap) (p : addr) (a : list WalkRecord) :
  (p < List.length h)%nat -> heap_read (heap_write h p a) p = a.
Proof.
  unfold heap_read.
  revert p; induction h as [|x h IH]; intros [|p] Hp; simpl in *; try lia; auto.
  apply IH; lia.
Qed.

Lemma heap_read_write_other (h : Heap) (p q : addr) (a : list WalkRecord) :
  p <> q -> heap_read (heap_write h p a) q = heap_read h q.
Proof.
  unfold heap_read.
  revert p q; induction h as [|x h IH]; intros [|p] [|q] Hpq; simpl; auto; try congruence.
Qed.

Lemma heap_write_same_contents (h : Heap) (p : addr) :
  heap_write h p (heap_read h p) = h.
Proof.
  unfold heap_read.
  revert p; induction h as [|x h IH]; intros [|p]; simpl; auto.
  f_equal. apply IH.
Qed.

Lemma heap_read_alloc_old (h : Heap) (a : list WalkRecord) (p : addr) :
  (p < List.length h)%nat -> heap_read (h ++ [a]) p = heap_read h p.
Proof. intros Hp. unfold heap_read. apply app_nth1. exact Hp. Qed.

Lemma heap_read_alloc_new (h : Heap) (a : list WalkRecord) :
  heap_read (h ++ [a]) (List.length h) = a.
Proof. unfold heap_read. apply nth_middle. Qed.

(** ** Saving a walk *)

Lemma saveWalk_this (r : WalkRecord) (w : World) : this (saveWalk r w) = this w.
Proof. reflexivity. Qed.

Lemma saveWalk_wf (r : WalkRecord) (w : World) : wf w -> wf (saveWalk r w).
Proof.
  unfold wf, saveWalk; cbn [this heap]. intros H. rewrite heap_write_length. exact H.
Qed.

Lemma saveWalk_walksArray (r : WalkRecord) (w : World) :
  wf w -> walksArray (saveWalk r w) = walksArray w ++ [r].
Proof.
  intros H. unfold walksArray at 1, saveWalk; cbn [this heap].
  rewrite heap_read_write_same by exact H. reflexivity.
Qed.

Lemma saveWalk_storage (r : WalkRecord) (w : World) :
  wf w ->
  localStorage.getItem storageKey (storage (saveWalk r w))
  = Some (JSON.stringify (walksArray w ++ [r])).
Proof.
  intros H. unfold saveWalk; cbn [storage].
  rewrite heap_read_write_same by exact H.
  unfold localStorage.getItem, localStorage.setItem.
  rewrite String.eqb_refl. reflexivity.
Qed.

(** ** The pace *)

Lemma paceOf_positive (n d : Z) :
  0 < d -> paceOf n d = PaceString (toFixed1 (inject_Z n / (inject_Z d / 60000))).
Proof.
  intros Hd. unfold paceOf.
  destruct (0 <? d) eqn:E; [reflexivity | apply Z.ltb_ge in E; lia].
Qed.

Lemma paceOf_guard (n d : Z) : d <= 0 -> paceOf n d = PaceNumber0.
Proof.
  intros Hd. unfold paceOf.
  destruct (0 <? d) eqn:E; [apply Z.ltb_lt in E; lia | reflexivity].
Qed.

(** ** Stopping a session *)

Lemma stopTracking_walks (now : Z) (w : World) :
  walks (this (stopTracking now w)) = walks (this w).
Proof.
  unfold stopTracking.
  destruct (1000 <? _); reflexivity.
Qed.

Lemma stopTracking_unsaved (now : Z) (w : World) :
  elapsedTime (this w) <= 1000 ->
  heap (stopTracking now w) = heap w /\ storage (stopTracking now w) = storage w.
Proof.
  intros Hd. unfold stopTracking.
  cbn [stopStepDetection with_this this elapsedTime set_simulationInterval
       set_motionHandler set_timerInterval set_isTracking].
  destruct (1000 <? elapsedTime (this w)) eqn:E; [apply Z.ltb_lt in E; lia|].
  split; reflexivity.
Qed.

Lemma stopTracking_saved (now : Z) (w : World) :
  1000 < elapsedTime (this w) ->
  wf w ->
  walksArray (stopTracking now w)
  = walksArray w
    ++ [ {| date := Date.toISOString now;
            duration := elapsedTime (this w);
            steps := stepCount (this w);
            stepsPerMinute :=
              parseFloat (paceOf (stepCount (this w)) (elapsedTime (this w))) |} ]
  /\ localStorage.getItem storageKey (storage (stopTracking now w))
     = Some (JSON.stringify (walksArray (stopTracking now w))).
Proof.
  intros Hd Hwf. unfold stopTracking.
  cbn [stopStepDetection with_this this elapsedTime stepCount set_simulationInterval
       set_motionHandler set_timerInterval set_isTracking].
  destruct (1000 <? elapsedTime (this w)) eqn:E; [|apply Z.ltb_ge in E; lia].
  set (w2 := stopStepDetection _).
  assert (Hwf2 : wf w2) by exact Hwf.
  set (r := mkWalk _ _ _ _).
  change (walksArray (showSummary ?d ?n ?p ?x)) with (walksArray x).
  change (storage (showSummary ?d ?n ?p ?x)) with (storage x).
  rewrite (saveWalk_walksArray r w2 Hwf2), (saveWalk_storage r w2 Hwf2).
  split; reflexivity.
Qed.

(** C1.  [stopTracking] appends a record to the walk array exactly when the
    elapsed time it reads is above 1000 ms.  The record carries that elapsed
    time as its duration and the step count as its steps; its pace is
    [steps / (duration / 60000)] to one decimal place (within half a tenth
    of the quotient); and the array is persisted with it.  At
    1000 ms or less (500, say) array and storage stay as they were.  With
    65000 ms and 130 steps the record is 65000, 130 and 120.0 (1200 tenths). *)
Theorem stopTracking_records_walk (now : Z) (w : World) (Hwf : wf w) :
  let d := elapsedTime (this w) in
  let n := stepCount (this w) in
  let w' := stopTracking now w in
  (1000 < d ->
   exists r,
     walksArray w' = walksArray w ++ [r]
     /\ date r = Date.toISOString now
     /\ duration r = d
     /\ steps r = n
     /\ (Qabs (Q_of_tenths (stepsPerMinute r) - inject_Z n / (inject_Z d / 60000)) <= 1 # 20)%Q
     /\ localStorage.getItem storageKey (storage w') = Some (JSON.stringify (walksArray w')))
  /\ (d <= 1000 -> walksArray w' = walksArray w /\ storage w' = storage w)
  /\ (d = 500 -> walksArray w' = walksArray w)
  /\ (d = 65000 -> n = 130 ->
      walksArray w' = walksArray w ++ [mkWalk (Date.toISOString now) 65000 130 1200]).
Proof.
  intros d n w'.
  assert (Hno : d <= 1000 -> walksArray w' = walksArray w /\ storage w' = storage w).
  { intros Hd. destruct (stopTracking_unsaved now w Hd) as [Hh Hs].
    split; [|exact Hs]. unfold walksArray, w'.
    rewrite Hh, stopTracking_walks. reflexivity. }
  repeat split.
  - intros Hd. destruct (stopTracking_saved now w Hd Hwf) as [Ha Hs].
    eexists. split; [exact Ha|].
    cbn [date duration steps stepsPerMinute]. fold d n.
    rewrite (paceOf_positive n d) by lia. cbn [parseFloat].
    repeat split; try reflexivity.
    + apply toFixed1_close.
    + exact Hs.
  - apply Hno; assumption.
  - apply Hno; assumption.
  - intros Hd. apply Hno. lia.
  - intros Hd Hn. destruct (stopTracking_saved now w) as [Ha _]; [fold d; lia | exact Hwf |].
    fold w' in Ha. rewrite Ha. fold d n. rewrite Hd, Hn. reflexivity.
Qed.

(** A session of 65 s with 130 steps, stopped at 2024-02-29T12:34:56.789Z. *)
Lemma stopTracking_records_walk_witness :
  let w := walkingWorld 1709210031789 65000 130 in
  let w' := stopTracking 1709210096789 w in
  (1000 < 65000 ->
   exists r,
     walksArray w' = walksArray w ++ [r]
     /\ date r = Date.toISOString 1709210096789
     /\ duration r = 65000
     /\ steps r = 130
     /\ (Qabs (Q_of_tenths (stepsPerMinute r) - inject_Z 130 / (inject_Z 65000 / 60000)) <= 1 # 20)%Q
     /\ localStorage.getItem storageKey (storage w') = Some (JSON.stringify (walksArray w')))
  /\ (65000 <= 1000 -> walksArray w' = walksArray w /\ storage w' = storage w)
  /\ (65000 = 500 -> walksArray w' = walksArray w)
  /\ (65000 = 65000 -> 130 = 130 ->
      walksArray w' = walksArray w ++ [mkWalk (Date.toISOString 1709210096789) 65000 130 1200]).
Proof.
  apply (stopTracking_records_walk 1709210096789 (walkingWorld 1709210031789 65000 130)).
  unfold wf. simpl. lia.
Defined.

(** ** The timer *)


Lemma updateTimer_pace (now : Z) (w : World) :
  stepsPerMinuteEl (dom (updateTimer now w))
  = PaceValue_text (paceOf (stepCount (this w)) (elapsedTime (this (updateTimer now w)))).
Proof. reflexivity. Qed.

Lemma stopTracking_summaryPace (now : Z) (w : World) :
  summaryPace (dom (stopTracking now w))
  = PaceValue_text (paceOf (stepCount (this w)) (elapsedTime (this w))).
Proof. reflexivity. Qed.

(** The text shown for a pace: 0 when the elapsed time is not positive, and
    otherwise a [toFixed(1)] string within half a tenth of the quotient. *)
Lemma pace_text (n d : Z) :
  (d <= 0 -> PaceValue_text (paceOf n d) = "0"%string)
  /\ (0 < d ->
      exists f,
        PaceValue_text (paceOf n d) = Fixed1_toString f
        /\ (Qabs (Q_of_tenths (Fixed1_value f) - inject_Z n / (inject_Z d / 60000)) <= 1 # 20)%Q).
Proof.
  split.
  - intros Hd. rewrite (paceOf_guard n d Hd). reflexivity.
  - intros Hd. rewrite (paceOf_positive n d Hd). eexists. split; [reflexivity|].
    apply toFixed1_close.
Qed.

(** C6.  The pace is [n / (d / 60000)] to one decimal place: for a positive
    elapsed time [d] a [toFixed(1)] string whose number is within half a
    tenth of the quotient.  When [d] is 0 the division is not evaluated and
    the pace is the number 0, whatever the step count.  120 steps in
    60000 ms give 120.0.  [updateTimer] shows the pace so for the elapsed
    time it has just computed, [stopTracking] for the elapsed time it
    reads. *)
Theorem pace_guarded_against_zero :
  (forall n d : Z,
      0 < d ->
      (exists f, paceOf n d = PaceString f)
      /\ (Qabs (Q_of_tenths (parseFloat (paceOf n d)) - inject_Z n / (inject_Z d / 60000))
          <= 1 # 20)%Q)
  /\ (forall n : Z,
         paceOf n 0 = PaceNumber0
         /\ parseFloat (paceOf n 0) = 0
         /\ PaceValue_text (paceOf n 0) = "0"%string)
  /\ (parseFloat (paceOf 120 60000) = 1200
      /\ PaceValue_text (paceOf 120 60000) = "120.0"%string)
  /\ (forall (now : Z) (w : World),
         let n := stepCount (this w) in
         let d := elapsedTime (this (updateTimer now w)) in
         let shown := stepsPerMinuteEl (dom (updateTimer now w)) in
         (d <= 0 -> shown = "0"%string)
         /\ (0 < d ->
             exists f,
               shown = Fixed1_toString f
               /\ (Qabs (Q_of_tenths (Fixed1_value f) - inject_Z n / (inject_Z d / 60000))
                   <= 1 # 20)%Q)
         /\ (d = 60000 -> n = 120 -> shown = "120.0"%string))
  /\ (forall (now : Z) (w : World),
         let n := stepCount (this w) in
         let d := elapsedTime (this w) in
         let shown := summaryPace (dom (stopTracking now w)) in
         (d <= 0 -> shown = "0"%string)
         /\ (0 < d ->
             exists f,
               shown = Fixed1_toString f
               /\ (Qabs (Q_of_tenths (Fixed1_value f) - inject_Z n / (inject_Z d / 60000))
                   <= 1 # 20)%Q)
         /\ (d = 60000 -> n = 120 -> shown = "120.0"%string)).
Proof.
  split; [|split; [|split; [|split]]].
  - intros n d Hd. rewrite (paceOf_positive n d Hd). split; [eexists; reflexivity|].
    cbn [parseFloat]. apply toFixed1_close.
  - intros n. rewrite (paceOf_guard n 0) by lia. repeat split.
  - split; vm_compute; reflexivity.
  - intros now w n d shown. unfold shown. rewrite updateTimer_pace. fold n d.
    destruct (pace_text n d) as [H0 Hpos].
    split; [exact H0|]. split; [exact Hpos|].
    intros -> ->. vm_compute. reflexivity.
  - intros now w n d shown. unfold shown. rewrite stopTracking_summaryPace. fold n d.
    destruct (pace_text n d) as [H0 Hpos].
    split; [exact H0|]. split; [exact Hpos|].
    intros -> ->. vm_compute. reflexivity.
Qed.

(** 130 steps in 65 s. *)
Lemma pace_guarded_against_zero_witness :
  (exists f, paceOf 130 65000 = PaceString f)
  /\ (Qabs (Q_of_tenths (parseFloat (paceOf 130 65000)) - inject_Z 130 / (inject_Z 65000 / 60000))
      <= 1 # 20)%Q.
Proof.
  apply (proj1 pace_guarded_against_zero 130 65000). reflexivity.
Defined.

(** ** Agreement with binary64 *)

(** On the sample inputs the binary64 quotient, which is not always the
    exact one (130 steps in 65 s give 120.00000000000001), is written by
    [toFixed(1)] as the exact quotient is. *)
Example binary64_pace_65000_130 :
  Binary64.pace 130 65000 = Some (mkFixed1 false 1200)
  /\ paceOf 130 65000 = PaceString (mkFixed1 false 1200).
Proof. split; vm_compute; reflexivity. Qed.

Example binary64_pace_60000_120 :
  Binary64.pace 120 60000 = Some (mkFixed1 false 1200)
  /\ paceOf 120 60000 = PaceString (mkFixed1 false 1200).
Proof. split; vm_compute; reflexivity. Qed.

Example binary64_mean_100_120 :
  Binary64.mean2 1000 1200 = Some (mkFixed1 false 1100)
  /\ toFixed1 ((0 + Q_of_tenths 1000 + Q_of_tenths 1200) / 2) = mkFixed1 false 1100.
Proof. split; vm_compute; reflexivity. Qed.

(** The two can differ only by the choice between two equally near tenths:
    1 step in 400000 ms is exactly 0.15 steps per minute; the binary64
    quotient lies just below and is written 0.1, the exact one is written
    0.2.  Both are the quotient to one decimal place; the properties below
    say no more than that about the digit chosen. *)
Example binary64_pace_tie :
  Binary64.pace 1 400000 = Some (mkFixed1 false 1)
  /\ paceOf 1 400000 = PaceString (mkFixed1 false 2)
  /\ (inject_Z 1 / (inject_Z 400000 / 60000) == 15 # 100)%Q.
Proof. repeat split; vm_compute; reflexivity. Qed.

(** ** The motion handler *)

(** What one call does while a session is active and the event carries an
    acceleration. *)
Lemma handleMotion_active (event : DeviceMotionEvent) (now : Z) (w : World) (a : Acceleration) :
  isTracking (this w) = true ->
  accelerationIncludingGravity event = Some a ->
  let b := pushSample (bufferSize (this w)) (accelerationBuffer (this w)) (magnitudeOf a) in
  let fire :=
    (PrimFloat.ltb (stepThreshold (this w)) (Math.abs (average b - 9.8)%float)
     && (minStepInterval (this w) <? now - lastStepTime (this w)))%bool in
  let w' := handleMotion event now w in
  accelerationBuffer (this w') = b
  /\ stepCount (this w') = (if fire then stepCount (this w) + 1 else stepCount (this w))
  /\ lastStepTime (this w') = (if fire then now else lastStepTime (this w)).
Proof.
  intros Ht Ha b fire w'. unfold w', handleMotion. rewrite Ht, Ha. cbn [negb].
  cbn [with_this this accelerationBuffer set_accelerationBuffer stepThreshold
       minStepInterval lastStepTime bufferSize].
  fold b. fold fire. destruct fire; repeat split.
Qed.

(** A call that does not start from an active session with an acceleration
    returns the world it was given. *)
Lemma handleMotion_inactive (event : DeviceMotionEvent) (now : Z) (w : World) :
  isTracking (this w) = false \/ accelerationIncludingGravity event = None ->
  handleMotion event now w = w.
Proof.
  intros [H|H]; unfold handleMotion.
  - rewrite H. reflexivity.
  - rewrite H. destruct (negb _); reflexivity.
Qed.

(** The fields the handler never assigns. *)
Lemma handleMotion_constants (event : DeviceMotionEvent) (now : Z) (w : World) :
  let w' := handleMotion event now w in
  isTracking (this w') = isTracking (this w)
  /\ stepThreshold (this w') = stepThreshold (this w)
  /\ minStepInterval (this w') = minStepInterval (this w)
  /\ bufferSize (this w') = bufferSize (this w)
  /\ walks (this w') = walks (this w)
  /\ heap w' = heap w
  /\ storage w' = storage w.
Proof.
  unfold handleMotion.
  destruct (negb (isTracking (this w))); [repeat split|].
  destruct (accelerationIncludingGravity event); [|repeat split].
  match goal with |- context [if ?c then _ else _] => destruct c end; repeat split.
Qed.

(** The count moves by one step or not at all, and the time of the last
    step moves only with it. *)
Lemma handleMotion_step (event : DeviceMotionEvent) (now : Z) (w : World) :
  let w' := handleMotion event now w in
  (stepped w w' = true
   /\ lastStepTime (this w') = now
   /\ minStepInterval (this w) < now - lastStepTime (this w)
   /\ isTracking (this w) = true
   /\ exists a, accelerationIncludingGravity event = Some a
        /\ PrimFloat.ltb (stepThreshold (this w))
             (Math.abs (average (accelerationBuffer (this w')) - 9.8)%float) = true)
  \/ (stepped w w' = false
      /\ stepCount (this w') = stepCount (this w)
      /\ lastStepTime (this w') = lastStepTime (this w)).
Proof.
  intros w'. unfold stepped.
  destruct (isTracking (this w)) eqn:Ht.
  2:{ right. unfold w'. rewrite handleMotion_inactive by (left; exact Ht).
      repeat split. apply Z.eqb_neq. lia. }
  destruct (accelerationIncludingGravity event) as [a|] eqn:Ha.
  2:{ right. unfold w'. rewrite handleMotion_inactive by (right; exact Ha).
      repeat split. apply Z.eqb_neq. lia. }
  destruct (handleMotion_active event now w a Ht Ha) as (Hb & Hc & Hl).
  fold w' in Hb, Hc, Hl. rewrite Hb.
  destruct (PrimFloat.ltb _ _) eqn:Hthr; cbn [andb] in Hc, Hl.
  - destruct (minStepInterval (this w) <? now - lastStepTime (this w)) eqn:Hgate.
    + left. rewrite Hc, Hl. apply Z.ltb_lt in Hgate.
      repeat split; try assumption.
      * apply Z.eqb_refl.
      * exists a. split; reflexivity.
    + right. rewrite Hc, Hl. repeat split. apply Z.eqb_neq. lia.
  - right. rewrite Hc, Hl. repeat split. apply Z.eqb_neq. lia.
Qed.

(** C10.  While no session is active ([isTracking] is false) a sensor event
    changes nothing: [handleMotion] returns the world it was given, so the
    buffer, the step count and the time of the last step stay as they were,
    and a whole stream of such events registers no step. *)
Theorem handleMotion_idle_unchanged
  (event : DeviceMotionEvent) (now : Z) (w : World)
  (Hidle : isTracking (this w) = false) :
  handleMotion event now w = w
  /\ (forall samples, processMotion samples w = w /\ stepTimes samples w = []).
Proof.
  split.
  - apply handleMotion_inactive. left. exact Hidle.
  - induction samples as [|[e t] rest [IHp IHs]]; [split; reflexivity|].
    cbn [processMotion stepTimes].
    rewrite (handleMotion_inactive e t w) by (left; exact Hidle).
    split; [exact IHp|].
    unfold stepped. replace (_ =? _) with false; [exact IHs|].
    symmetry. apply Z.eqb_neq. lia.
Qed.

(** A strong sample reaching the idle object. *)
Lemma handleMotion_idle_unchanged_witness :
  let event := mkEvent (Some (mkAcceleration (Some 0%float) (Some 0%float) (Some 15%float))) in
  handleMotion event 5000 idleWorld = idleWorld
  /\ (forall samples, processMotion samples idleWorld = idleWorld
                      /\ stepTimes samples idleWorld = []).
Proof.
  apply (handleMotion_idle_unchanged
           (mkEvent (Some (mkAcceleration (Some 0%float) (Some 0%float) (Some 15%float))))
           5000 idleWorld).
  reflexivity.
Defined.

Lemma stepTimes_apart (samples : list (DeviceMotionEvent * Z)) :
  forall w : World,
    0 <= minStepInterval (this w) ->
    Forall (apart (minStepInterval (this w)) (lastStepTime (this w))) (stepTimes samples w)
    /\ StronglySorted (apart (minStepInterval (this w))) (stepTimes samples w).
Proof.
  induction samples as [|[e t] rest IH]; intros w Hm.
  - split; constructor.
  - cbn [stepTimes].
    destruct (handleMotion_constants e t w) as (_ & _ & Hmin & _).
    destruct (IH (handleMotion e t w)) as [IHf IHs]; [rewrite Hmin; exact Hm|].
    rewrite Hmin in IHf, IHs.
    destruct (handleMotion_step e t w) as [(Hs & Hl & Hgap & _)|(Hs & _ & Hl)];
      rewrite Hs; rewrite Hl in IHf.
    + split.
      * constructor; [exact Hgap|].
        eapply Forall_impl; [|exact IHf]. unfold apart. intros; lia.
      * constructor; assumption.
    + split; assumption.
Qed.

(** C2.  With the interval of the constructor (250 ms) and its threshold
    (1.2): the times at which a stream of sensor events registers steps,
    preceded by the time of the last step before the stream, are pairwise
    more than 250 ms apart, each later one after each earlier one.  A call
    registers a step only if the mean magnitude deviates from 9.8 by more
    than 1.2 and more than 250 ms have passed since the last step; it then
    sets the time of the last step to the clock reading; a call that
    registers no step leaves count and time as they were. *)
Theorem steps_more_than_interval_apart
  (samples : list (DeviceMotionEvent * Z)) (w : World)
  (Hinterval : minStepInterval (this w) = 250)
  (Hthreshold : stepThreshold (this w) = 1.2%float) :
  StronglySorted (fun t1 t2 => 250 < t2 - t1) (lastStepTime (this w) :: stepTimes samples w)
  /\ (forall event now,
         let w' := handleMotion event now w in
         stepped w w' = true ->
         isTracking (this w) = true
         /\ (exists a,
                accelerationIncludingGravity event = Some a
                /\ PrimFloat.ltb 1.2
                     (Math.abs (average (accelerationBuffer (this w')) - 9.8)%float) = true)
         /\ 250 < now - lastStepTime (this w)
         /\ lastStepTime (this w') = now)
  /\ (forall event now,
         let w' := handleMotion event now w in
         stepped w w' = false ->
         stepCount (this w') = stepCount (this w)
         /\ lastStepTime (this w') = lastStepTime (this w)).
Proof.
  split; [|split].
  - destruct (stepTimes_apart samples w) as [Hf Hs]; [lia|].
    rewrite Hinterval in Hf, Hs. constructor; assumption.
  - intros event now w' Hstep.
    destruct (handleMotion_step event now w)
      as [(_ & Hl & Hgap & Ht & a & Ha & Hd)|(Hs & _)]; [|fold w' in Hs; congruence].
    rewrite Hinterval in Hgap. rewrite Hthreshold in Hd.
    repeat split; try assumption. exists a. split; assumption.
  - intros event now w' Hstep.
    destruct (handleMotion_step event now w) as [(Hs & _)|(_ & Hc & Hl)];
      [fold w' in Hs; congruence | split; assumption].
Qed.

(** Three strong samples at 1000, 1100 and 1300 ms into a session: the
    second comes too soon after the first. *)
Example stepTimes_sample :
  stepTimes [(strongSample, 1000); (strongSample, 1100); (strongSample, 1300)]
    (walkingWorld 0 0 0) = [1000; 1300].
Proof. vm_compute. reflexivity. Qed.

Lemma steps_more_than_interval_apart_witness :
  let samples := [(strongSample, 1000); (strongSample, 1100); (strongSample, 1300)] in
  let w := walkingWorld 0 0 0 in
  StronglySorted (fun t1 t2 => 250 < t2 - t1) (lastStepTime (this w) :: stepTimes samples w)
  /\ (forall event now,
         let w' := handleMotion event now w in
         stepped w w' = true ->
         isTracking (this w) = true
         /\ (exists a,
                accelerationIncludingGravity event = Some a
                /\ PrimFloat.ltb 1.2
                     (Math.abs (average (accelerationBuffer (this w')) - 9.8)%float) = true)
         /\ 250 < now - lastStepTime (this w)
         /\ lastStepTime (this w') = now)
  /\ (forall event now,
         let w' := handleMotion event now w in
         stepped w w' = false ->
         stepCount (this w') = stepCount (this w)
         /\ lastStepTime (this w') = lastStepTime (this w)).
Proof.
  apply (steps_more_than_interval_apart
           [(strongSample, 1000); (strongSample, 1100); (strongSample, 1300)]
           (walkingWorld 0 0 0)); reflexivity.
Defined.

(** ** The signal filter *)

Lemma pushSample_length (b : list float) (m : float) :
  (List.length b <= 4)%nat -> (List.length (pushSample 4 b m) <= 4)%nat.
Proof.
  intros Hb. unfold pushSample, Array.push, Array.shift.
  destruct (4 <? Z.of_nat (List.length (b ++ [m]))) eqn:E.
  - destruct b as [|x b]; simpl in *; [lia|]. rewrite length_app. simpl. lia.
  - apply Z.ltb_ge in E. lia.
Qed.


Lemma processMotion_buffer (samples : list (DeviceMotionEvent * Z)) :
  forall w : World,
    bufferSize (this w) = 4 ->
    (List.length (accelerationBuffer (this w)) <= 4)%nat ->
    (List.length (accelerationBuffer (this (processMotion samples w))) <= 4)%nat.
Proof.
  induction samples as [|[e t] rest IH]; intros w Hsize Hlen; [exact Hlen|].
  cbn [processMotion]. apply IH.
  - destruct (handleMotion_constants e t w) as (_ & _ & _ & Hb & _). rewrite Hb. exact Hsize.
  - destruct (isTracking (this w)) eqn:Ht.
    2:{ rewrite handleMotion_inactive by (left; exact Ht). exact Hlen. }
    destruct (accelerationIncludingGravity e) as [a|] eqn:Ha.
    2:{ rewrite handleMotion_inactive by (right; exact Ha). exact Hlen. }
    destruct (handleMotion_active e t w a Ht Ha) as (Hb & _).
    rewrite Hb, Hsize. apply pushSample_length. exact Hlen.
Qed.


(** Six samples into a session: the buffer fills up to four and stays
    there. *)
Example buffer_sample :
  List.length (accelerationBuffer (this (processMotion
    [(strongSample, 1000); (strongSample, 1100); (strongSample, 1300);
     (strongSample, 1400); (strongSample, 1500); (strongSample, 1600)]
    (walkingWorld 0 0 0)))) = 4%nat.
Proof. vm_compute. reflexivity. Qed.


(** ** A whole session *)

Lemma handleMotion_startTime (event : DeviceMotionEvent) (now : Z) (w : World) :
  startTime (this (handleMotion event now w)) = startTime (this w).
Proof.
  unfold handleMotion.
  destruct (negb (isTracking (this w))); [reflexivity|].
  destruct (accelerationIncludingGravity event); [|reflexivity].
  match goal with |- context [if ?c then _ else _] => destruct c end; reflexivity.
Qed.

(** A stream of sensor events raises the count by the number of steps it
    registers, and leaves the start time, the walk array and the storage as
    they were. *)
Lemma processMotion_spec (samples : list (DeviceMotionEvent * Z)) :
  forall w : World,
    stepCount (this (processMotion samples w))
    = stepCount (this w) + Z.of_nat (List.length (stepTimes samples w))
    /\ startTime (this (processMotion samples w)) = startTime (this w)
    /\ walks (this (processMotion samples w)) = walks (this w)
    /\ heap (processMotion samples w) = heap w
    /\ storage (processMotion samples w) = storage w.
Proof.
  induction samples as [|[e t] rest IH]; intros w; cbn [processMotion stepTimes].
  - repeat split. cbn. lia.
  - destruct (IH (handleMotion e t w)) as (Hc & Hs & Hw & Hh & Hst).
    destruct (handleMotion_constants e t w) as (_ & _ & _ & _ & Hw' & Hh' & Hst').
    rewrite Hc, Hs, Hw, Hh, Hst, Hw', Hh', Hst', handleMotion_startTime.
    repeat split.
    destruct (handleMotion_step e t w) as [(Hstep & _)|(Hstep & Hcount & _)]; rewrite Hstep.
    + unfold stepped in Hstep. apply Z.eqb_eq in Hstep. rewrite Hstep.
      cbn [List.length]. lia.
    + rewrite Hcount. reflexivity.
Qed.




(** The same session evaluated: two steps in two seconds. *)
Example session_record_sample :
  walksArray (stopTracking 2100
                (updateTimer 2000
                   (processMotion [(strongSample, 1000); (strongSample, 1100); (strongSample, 1300)]
                      (startTracking Granted true 0 idleWorld))))
  = [mkWalk "1970-01-01T00:00:02.100Z" 2000 2 600].
Proof. vm_compute. reflexivity. Qed.

(** ** Filtering leaves the store alone *)

Lemma extends_refl (h : Heap) : extends h h.
Proof. exists []. symmetry. apply List.app_nil_r. Qed.

Lemma extends_trans (h1 h2 h3 : Heap) : extends h1 h2 -> extends h2 h3 -> extends h1 h3.
Proof.
  intros [e1 ->] [e2 ->]. exists (e1 ++ e2). symmetry. apply List.app_assoc.
Qed.

Lemma extends_read (h h' : Heap) (p : addr) :
  extends h h' -> (p < List.length h)%nat -> heap_read h' p = heap_read h p.
Proof.
  intros [e ->] Hp. unfold heap_read. apply app_nth1. exact Hp.
Qed.

Lemma extends_length (h h' : Heap) : extends h h' -> (List.length h <= List.length h')%nat.
Proof. intros [e ->]. rewrite length_app. lia. Qed.

Lemma getFilteredWalks_spec (now : Z) (w : World) :
  let p := fst (getFilteredWalks now w) in
  let w' := snd (getFilteredWalks now w) in
  heap_read (heap w') p = filteredBy (currentPeriod (this w)) now (walksArray w)
  /\ (List.length (heap w) <= p < List.length (heap w'))%nat
  /\ extends (heap w) (heap w')
  /\ this w' = this w
  /\ storage w' = storage w
  /\ dom w' = dom w.
Proof.
  unfold getFilteredWalks, filteredBy, heap_alloc.
  destruct (String.eqb (currentPeriod (this w)) "week");
    [|destruct (String.eqb (currentPeriod (this w)) "month")];
    cbn [fst snd heap this storage dom].
  - repeat split.
    + apply heap_read_alloc_new.
    + rewrite length_app. simpl. lia.
    + rewrite !length_app. simpl. lia.
    + exists [walksArray w; List.filter (notBefore (now - weekMs)) (walksArray w)].
      rewrite <- List.app_assoc. reflexivity.
  - repeat split.
    + apply heap_read_alloc_new.
    + rewrite length_app. simpl. lia.
    + rewrite !length_app. simpl. lia.
    + exists [walksArray w; List.filter (notBefore (now - monthMs)) (walksArray w)].
      rewrite <- List.app_assoc. reflexivity.
  - repeat split.
    + apply heap_read_alloc_new.
    + lia.
    + rewrite length_app. simpl. lia.
    + exists [walksArray w]. reflexivity.
Qed.

(** ** Dates written and read back *)

Lemma all_from_spec (P : Z -> bool) (n : nat) :
  forall z, all_from P z n = true -> forall x, z <= x < z + Z.of_nat n -> P x = true.
Proof.
  induction n as [|n IH]; intros z H x Hx; [lia|].
  cbn [all_from] in H. destruct (P z) eqn:E; [|discriminate].
  destruct (Z.eq_dec x z) as [->|Hne]; [exact E|].
  apply (IH (z + 1)); [exact H | lia].
Qed.

(** *** The calendar *)

(** Goals on quotients and remainders by constants: stated by their
    defining equations, then linear arithmetic. *)
Ltac euclid := Z.to_euclidean_division_equations; lia.

(** The year of a day of the 400-year cycle, and the day in that year (from
    March 1); a 366th day only before a leap February ends. *)
Lemma year_of_era (doe : Z) :
  0 <= doe < 146097 ->
  let yoe := (doe - doe / 1460 + doe / 36524 - doe / 146096) / 365 in
  let doy := doe - (365 * yoe + yoe / 4 - yoe / 100) in
  0 <= yoe <= 399
  /\ 0 <= doy <= 365
  /\ (doy = 365 -> (yoe + 1) mod 4 = 0 /\ ((yoe + 1) mod 100 <> 0 \/ yoe = 399)).
Proof. intros H yoe doy. unfold doy, yoe. euclid. Qed.

(** The month (from March) and the day of the month of a day of the year. *)
Lemma month_of_year (doy : Z) :
  0 <= doy <= 365 ->
  let mp := (5 * doy + 2) / 153 in
  let d := doy - (153 * mp + 2) / 5 + 1 in
  0 <= mp <= 11
  /\ 1 <= d <= 31
  /\ (mp = 1 \/ mp = 3 \/ mp = 6 \/ mp = 8 -> d <= 30)
  /\ (mp = 11 -> d <= 29 /\ (d = 29 -> doy = 365)).
Proof. intros H mp d. unfold d, mp. euclid. Qed.

Lemma isLeapYear_spec (y : Z) :
  Date.isLeapYear y = true <-> y mod 4 = 0 /\ (y mod 100 <> 0 \/ y mod 400 = 0).
Proof.
  unfold Date.isLeapYear.
  rewrite andb_true_iff, orb_true_iff, negb_true_iff, !Z.eqb_eq, Z.eqb_neq. tauto.
Qed.

(** The date of a day is a valid date, and counts back to the day. *)
Lemma civil_round_trip (z : Z) :
  let '(y, m, d) := Date.civil_from_days z in
  Date.days_from_civil y m d = z
  /\ 1 <= m <= 12
  /\ 1 <= d <= Date.daysInMonth y m
  /\ (-719528 <= z <= 2932896 -> 0 <= y <= 9999).
Proof.
  unfold Date.civil_from_days.
  set (era := (z + 719468) / 146097).
  set (doe := z + 719468 - era * 146097).
  assert (Hdoe : 0 <= doe < 146097) by (unfold doe, era; euclid).
  assert (Hera : -719528 <= z <= 2932896 ->
                 -1 <= era <= 24 /\ (era = -1 -> 146037 <= doe) /\ (era = 24 -> doe <= 146036))
    by (unfold doe, era; euclid).
  pose proof (year_of_era doe Hdoe) as Hy. cbv zeta in Hy |- *.
  set (yoe := (doe - doe / 1460 + doe / 36524 - doe / 146096) / 365) in *.
  set (doy := doe - (365 * yoe + yoe / 4 - yoe / 100)) in *.
  destruct Hy as (Hyoe & Hdoy & Hleap).
  pose proof (month_of_year doy Hdoy) as Hm. cbv zeta in Hm.
  set (mp := (5 * doy + 2) / 153) in *.
  set (d := doy - (153 * mp + 2) / 5 + 1) in *.
  destruct Hm as (Hmp & Hd & H30 & Hfeb).
  assert (Hback : forall y m,
             m = (if mp <? 10 then mp + 3 else mp - 9) ->
             y = (if m <=? 2 then yoe + era * 400 + 1 else yoe + era * 400) ->
             Date.days_from_civil y m d = z).
  { intros y m -> ->. unfold Date.days_from_civil. cbv zeta.
    destruct (mp <? 10) eqn:E; [apply Z.ltb_lt in E | apply Z.ltb_ge in E].
    - replace (mp + 3 <=? 2) with false by (symmetry; apply Z.leb_gt; lia).
      replace (2 <? mp + 3) with true by (symmetry; apply Z.ltb_lt; lia).
      replace ((yoe + era * 400) / 400) with era by euclid.
      replace (yoe + era * 400 - era * 400) with yoe by lia.
      replace (mp + 3 - 3) with mp by lia.
      unfold d, doy, doe. lia.
    - replace (mp - 9 <=? 2) with true by (symmetry; apply Z.leb_le; lia).
      replace (2 <? mp - 9) with false by (symmetry; apply Z.ltb_ge; lia).
      replace ((yoe + era * 400 + 1 - 1) / 400) with era by euclid.
      replace (yoe + era * 400 + 1 - 1 - era * 400) with yoe by lia.
      replace (mp - 9 + 9) with mp by lia.
      unfold d, doy, doe. lia. }
  split; [apply Hback; reflexivity|].
  destruct (mp <? 10) eqn:E; [apply Z.ltb_lt in E | apply Z.ltb_ge in E].
  - replace (mp + 3 <=? 2) with false by (symmetry; apply Z.leb_gt; lia).
    split; [lia|]. split.
    + unfold Date.daysInMonth.
      replace (mp + 3 =? 2) with false by (symmetry; apply Z.eqb_neq; lia).
      destruct (_ || _)%bool eqn:E4; [|lia].
      rewrite !orb_true_iff, !Z.eqb_eq in E4. lia.
    + intros Hz. specialize (Hera Hz). clear Hback Hleap. unfold mp, doy in *. euclid.
  - replace (mp - 9 <=? 2) with true by (symmetry; apply Z.leb_le; lia).
    split; [lia|]. split.
    + unfold Date.daysInMonth.
      destruct (mp - 9 =? 2) eqn:E2; [apply Z.eqb_eq in E2 | apply Z.eqb_neq in E2].
      * destruct (Date.isLeapYear _) eqn:EL; [lia|].
        assert (d = 29 -> False); [|lia].
        intros Hd29. destruct Hfeb as [_ Hfeb]; [lia|]. specialize (Hleap (Hfeb Hd29)).
        assert (Date.isLeapYear (yoe + era * 400 + 1) = true); [|congruence].
        apply isLeapYear_spec. euclid.
      * destruct (_ || _)%bool eqn:E4; [|lia].
        rewrite !orb_true_iff, !Z.eqb_eq in E4. lia.
    + intros Hz. specialize (Hera Hz). clear Hback Hleap. unfold mp, doy in *. euclid.
Qed.

(** *** The text *)

Lemma padded2 : all_from (padded_ok 2) 0 100 = true.
Proof. vm_compute. reflexivity. Qed.

Lemma padded3 : all_from (padded_ok 3) 0 1000 = true.
Proof. vm_compute. reflexivity. Qed.

Lemma padded4 : all_from (padded_ok 4) 0 (Z.to_nat 10000) = true.
Proof. vm_compute. reflexivity. Qed.

Lemma take_digits_append (k : nat) :
  forall acc s v r rest,
    take_digits k acc s = Some (v, r) ->
    take_digits k acc (s ++ rest) = Some (v, (r ++ rest)%string).
Proof.
  induction k as [|k IH]; intros acc s v r rest H; cbn [take_digits] in *.
  - injection H as <- <-. reflexivity.
  - destruct s as [|c s]; [discriminate|]. cbn [String.append].
    destruct (digit_value c); [|discriminate]. apply IH. exact H.
Qed.

Lemma take_padded (k : nat) (bound : nat) (n : Z) (rest : string) :
  all_from (padded_ok k) 0 bound = true ->
  0 <= n < Z.of_nat bound ->
  take_digits k 0 (padStart0 k n ++ rest) = Some (n, rest).
Proof.
  intros Hall Hn.
  pose proof (all_from_spec _ _ _ Hall n Hn) as H. unfold padded_ok in H.
  destruct (take_digits k 0 (padStart0 k n)) as [[v r]|] eqn:E; [|discriminate].
  destruct r; [|discriminate]. apply Z.eqb_eq in H. subst v.
  apply (take_digits_append k 0 _ n EmptyString rest E).
Qed.

(** A year written with four digits is read as such. *)
Lemma parse_year_digits (s : string) (v : Z) (r : string) :
  take_digits 4 0 s = Some (v, r) -> Date.parse_year s = Some (v, r).
Proof.
  intros H. destruct s as [|c s]; [discriminate|].
  cbn [take_digits] in H.
  destruct (digit_value c) eqn:E; [|discriminate].
  assert (Hc : Date.parse_year (String c s) = take_digits 4 0 (String c s)).
  { destruct c as [b0 b1 b2 b3 b4 b5 b6 b7].
    destruct b0, b1, b2, b3, b4, b5, b6, b7; try discriminate E; reflexivity. }
  rewrite Hc. cbn [take_digits]. rewrite E. exact H.
Qed.

Lemma expect_head (c : ascii) (rest : string) : expect c (String c rest) = Some rest.
Proof. cbn [expect]. rewrite Ascii.eqb_refl. reflexivity. Qed.

(** The time of day in its four fields. *)
Lemma time_of_day (ms : Z) :
  0 <= ms < 86400000 ->
  0 <= ms / 3600000 < 24
  /\ 0 <= ms / 60000 mod 60 < 60
  /\ 0 <= ms / 1000 mod 60 < 60
  /\ 0 <= ms mod 1000 < 1000
  /\ ms / 3600000 * 3600000 + ms / 60000 mod 60 * 60000 + ms / 1000 mod 60 * 1000 + ms mod 1000
     = ms.
Proof.
  intros H.
  pose proof (Z.div_mod ms 1000) as H1.
  pose proof (Z.mod_pos_bound ms 1000) as B1.
  pose proof (Z.div_mod (ms / 1000) 60) as H2.
  pose proof (Z.mod_pos_bound (ms / 1000) 60) as B2.
  pose proof (Z.div_mod (ms / 60000) 60) as H3.
  pose proof (Z.mod_pos_bound (ms / 60000) 60) as B3.
  assert (E1 : ms / 60000 = ms / 1000 / 60) by (rewrite Z.div_div by lia; reflexivity).
  assert (E2 : ms / 3600000 = ms / 60000 / 60) by (rewrite Z.div_div by lia; reflexivity).
  rewrite E2 in *. rewrite E1 in *.
  set (a := ms / 1000) in *. set (b := a / 60) in *. set (c := b / 60) in *.
  assert (0 <= a) by (apply Z.div_pos; lia).
  assert (a < 86400) by (apply Z.div_lt_upper_bound; lia).
  assert (0 <= b) by (apply Z.div_pos; lia).
  assert (b < 1440) by (apply Z.div_lt_upper_bound; lia).
  assert (0 <= c) by (apply Z.div_pos; lia).
  assert (c < 24) by (apply Z.div_lt_upper_bound; lia).
  repeat split; lia.
Qed.

Lemma toISOString_read_back (t : Z) :
  -62167219200000 <= t <= 253402300799999 ->
  Date.parse (Date.toISOString t) = Some t.
Proof.
  intros Ht. unfold Date.toISOString, Date.msPerDay.
  pose proof (Z.div_mod t 86400000) as Hdm.
  pose proof (Z.mod_pos_bound t 86400000) as Hms.
  set (z := t / 86400000) in *. set (ms := t mod 86400000) in *.
  assert (Hz : -719528 <= z <= 2932896) by lia.
  pose proof (civil_round_trip z) as Hc.
  destruct (Date.civil_from_days z) as [[y m] d].
  destruct Hc as (Hback & Hm & Hd & Hy). specialize (Hy Hz).
  destruct (time_of_day ms) as (Hhh & Hmm & Hss & Hmss & Hsum); [lia|].
  assert (Hd31 : d <= 31).
  { unfold Date.daysInMonth in Hd.
    destruct (m =? 2); [destruct (Date.isLeapYear y); lia|].
    destruct (_ || _)%bool; lia. }
  unfold Date.year_toString.
  replace ((0 <=? y) && (y <=? 9999)) with true
    by (symmetry; apply andb_true_iff; split; apply Z.leb_le; lia).
  unfold Date.parse.
  rewrite (parse_year_digits _ y _ (take_padded 4 _ y _ padded4 ltac:(lia))).
  cbn [String.append]. rewrite expect_head.
  rewrite (take_padded 2 100 m _ padded2) by lia.
  cbn [String.append]. rewrite expect_head.
  rewrite (take_padded 2 100 d _ padded2) by lia.
  cbn [String.append]. rewrite expect_head.
  rewrite (take_padded 2 100 (ms / 3600000) _ padded2) by lia.
  cbn [String.append]. rewrite expect_head.
  rewrite (take_padded 2 100 (ms / 60000 mod 60) _ padded2) by lia.
  cbn [String.append]. rewrite expect_head.
  rewrite (take_padded 2 100 (ms / 1000 mod 60) _ padded2) by lia.
  cbn [String.append]. rewrite expect_head.
  rewrite (take_padded 3 1000 (ms mod 1000) _ padded3) by lia.
  rewrite expect_head.
  replace ((1 <=? m) && (m <=? 12) && (1 <=? d) && (d <=? Date.daysInMonth y m)
           && (ms / 3600000 <=? 24) && (ms / 60000 mod 60 <=? 59) && (ms / 1000 mod 60 <=? 59)
           && ((ms / 3600000 <? 24)
               || ((ms / 60000 mod 60 =? 0) && (ms / 1000 mod 60 =? 0) && (ms mod 1000 =? 0))))
    with true.
  - f_equal. rewrite Hback. unfold Date.msPerDay. lia.
  - symmetry. repeat (apply andb_true_iff; split); try (apply Z.leb_le; lia).
    apply orb_true_iff. left. apply Z.ltb_lt. lia.
Qed.





Example getFilteredWalks_sample_week :
  let w := storedWorld [walkLastYear; walkLastMonth; walkYesterday; walkHourAgo] "week" in
  heap_read (heap (snd (getFilteredWalks sampleNow w))) (fst (getFilteredWalks sampleNow w))
  = [walkYesterday; walkHourAgo].
Proof. vm_compute. reflexivity. Qed.

Example getFilteredWalks_sample_month :
  let w := storedWorld [walkLastYear; walkLastMonth; walkYesterday; walkHourAgo] "month" in
  heap_read (heap (snd (getFilteredWalks sampleNow w))) (fst (getFilteredWalks sampleNow w))
  = [walkLastMonth; walkYesterday; walkHourAgo].
Proof. vm_compute. reflexivity. Qed.




(** ** Statistics *)

Lemma sumZ_fold_right {A : Type} (f : A -> Z) (l : list A) :
  Array.sumZ f l = fold_right Z.add 0 (map f l).
Proof.
  unfold Array.sumZ.
  assert (H : forall a, fold_left (fun s v => s + f v) l a = a + fold_right Z.add 0 (map f l)).
  { induction l as [|x l IH]; intros a; simpl; [lia|]. rewrite IH. lia. }
  rewrite H. lia.
Qed.

Lemma Q_of_tenths_plus (a b : Z) :
  (Q_of_tenths (a + b) == Q_of_tenths a + Q_of_tenths b)%Q.
Proof. unfold Q_of_tenths. rewrite inject_Z_plus. field. Qed.

(** The sum of the stored paces is the sum of their tenths, over ten. *)
Lemma sumQ_tenths (l : list WalkRecord) :
  (sumQ l == Q_of_tenths (fold_right Z.add 0%Z (map stepsPerMinute l)))%Q.
Proof.
  unfold sumQ.
  assert (H : forall a : Q,
             (fold_left (fun s r => s + Q_of_tenths (stepsPerMinute r)) l a
              == a + Q_of_tenths (fold_right Z.add 0%Z (map stepsPerMinute l)))%Q).
  { induction l as [|x l IH]; intros a; simpl.
    - unfold Q_of_tenths. field.
    - rewrite IH, Q_of_tenths_plus. ring. }
  rewrite H. ring.
Qed.

Lemma toFixed1_comp (v v' : Q) : (v == v')%Q -> toFixed1 v = toFixed1 v'.
Proof.
  intros E. unfold toFixed1. f_equal.
  - f_equal. destruct (Qle_bool 0 v) eqn:H1, (Qle_bool 0 v') eqn:H2; try reflexivity.
    + apply Qle_bool_iff in H1. rewrite E in H1. apply Qle_bool_iff in H1. congruence.
    + apply Qle_bool_iff in H2. rewrite <- E in H2. apply Qle_bool_iff in H2. congruence.
  - f_equal. apply Qfloor_comp. rewrite E. reflexivity.
Qed.

Lemma updateHistoryStats_frame (now : Z) (w : World) :
  this (updateHistoryStats now w) = this w
  /\ storage (updateHistoryStats now w) = storage w
  /\ extends (heap w) (heap (updateHistoryStats now w)).
Proof.
  destruct (getFilteredWalks_spec now w) as (_ & _ & Hext & Hthis & Hsto & _).
  unfold updateHistoryStats.
  destruct (getFilteredWalks now w) as [p w1]. cbn [fst snd] in *.
  destruct (_ =? _)%nat; cbn [with_dom this storage heap]; auto.
Qed.

(** C8.  [updateHistoryStats] works on the array [getFilteredWalks] returns.
    When it is empty the four readouts are 0.  Otherwise the total is the
    sum of the records' steps, the walk count is the length, the average
    steps are the mean of the steps rounded to the nearest integer, and the
    average pace is the mean of the records' stored paces to one decimal
    place (a [toFixed(1)] string within half a tenth of the mean).  Two records with paces 100 and
    120 give 110.0. *)
Theorem history_stats (now : Z) (w : World) :
  let ws := heap_read (heap (snd (getFilteredWalks now w))) (fst (getFilteredWalks now w)) in
  let d := dom (updateHistoryStats now w) in
  let n := inject_Z (Z.of_nat (List.length ws)) in
  let totalSteps := fold_right Z.add 0 (map steps ws) in
  let meanPace := (Q_of_tenths (fold_right Z.add 0%Z (map stepsPerMinute ws)) / n)%Q in
  (ws = [] ->
   avgSteps d = 0 /\ avgPace d = "0"%string /\ totalWalks d = "0"%string /\ chartTotal d = 0)
  /\ (ws <> [] ->
      chartTotal d = totalSteps
      /\ totalWalks d = Z_toString (Z.of_nat (List.length ws))
      /\ avgSteps d = Math.round (inject_Z totalSteps / n)
      /\ (inject_Z (avgSteps d) - (1 # 2) <= inject_Z totalSteps / n
          /\ inject_Z totalSteps / n < inject_Z (avgSteps d) + (1 # 2))%Q
      /\ exists f,
           avgPace d = Fixed1_toString f
           /\ (Qabs (Q_of_tenths (Fixed1_value f) - meanPace) <= 1 # 20)%Q)
  /\ (forall r1 r2,
         ws = [r1; r2] -> stepsPerMinute r1 = 1000 -> stepsPerMinute r2 = 1200 ->
         avgPace d = "110.0"%string).
Proof.
  intros ws d n totalSteps meanPace.
  assert (Hfull : ws <> [] ->
                  chartTotal d = totalSteps
                  /\ totalWalks d = Z_toString (Z.of_nat (List.length ws))
                  /\ avgSteps d = Math.round (inject_Z totalSteps / n)
                  /\ avgPace d = Fixed1_toString (toFixed1 meanPace)).
  { intros Hne. unfold d, updateHistoryStats.
    unfold ws, n, totalSteps, meanPace, ws in *.
    destruct (getFilteredWalks now w) as [p w1]. cbn [fst snd] in *.
    destruct (heap_read (heap w1) p) as [|r l] eqn:E; [congruence|].
    cbn [List.length Nat.eqb with_dom dom set_stats chartTotal totalWalks avgSteps avgPace].
    rewrite sumZ_fold_right. repeat split.
    f_equal. apply toFixed1_comp. rewrite sumQ_tenths. reflexivity. }
  split; [|split].
  - intros Hempty. unfold d, updateHistoryStats. unfold ws in Hempty.
    destruct (getFilteredWalks now w) as [p w1]. cbn [fst snd] in *.
    rewrite Hempty. repeat split.
  - intros Hne. destruct (Hfull Hne) as (Hc & Ht & Ha & Hp).
    repeat split; try assumption.
    + rewrite Ha. apply Math_round_nearest.
    + rewrite Ha. apply Math_round_nearest.
    + exists (toFixed1 meanPace). split; [exact Hp | apply toFixed1_close].
  - intros r1 r2 Hws H1 H2.
    destruct Hfull as (_ & _ & _ & Hp); [rewrite Hws; discriminate|].
    rewrite Hp. unfold meanPace, n. rewrite Hws. cbn [map fold_right List.length].
    rewrite H1, H2. vm_compute. reflexivity.
Qed.

Example history_stats_sample :
  let d := dom (updateHistoryStats sampleNow
                  (storedWorld [walkLastYear; walkLastMonth; walkYesterday; walkHourAgo] "month")) in
  avgSteps d = 444 /\ avgPace d = "106.8"%string
  /\ totalWalks d = "3"%string /\ chartTotal d = 1331.
Proof. vm_compute. repeat split. Qed.

(** The walks of the last 30 days among four sample walks. *)
Lemma history_stats_witness :
  let w := storedWorld [walkLastYear; walkLastMonth; walkYesterday; walkHourAgo] "month" in
  let ws := heap_read (heap (snd (getFilteredWalks sampleNow w))) (fst (getFilteredWalks sampleNow w)) in
  let d := dom (updateHistoryStats sampleNow w) in
  let n := inject_Z (Z.of_nat (List.length ws)) in
  let totalSteps := fold_right Z.add 0 (map steps ws) in
  let meanPace := (Q_of_tenths (fold_right Z.add 0%Z (map stepsPerMinute ws)) / n)%Q in
  chartTotal d = totalSteps
  /\ totalWalks d = Z_toString (Z.of_nat (List.length ws))
  /\ avgSteps d = Math.round (inject_Z totalSteps / n)
  /\ (inject_Z (avgSteps d) - (1 # 2) <= inject_Z totalSteps / n
      /\ inject_Z totalSteps / n < inject_Z (avgSteps d) + (1 # 2))%Q
  /\ exists f,
       avgPace d = Fixed1_toString f
       /\ (Qabs (Q_of_tenths (Fixed1_value f) - meanPace) <= 1 # 20)%Q.
Proof.
  apply (proj1 (proj2 (history_stats sampleNow
           (storedWorld [walkLastYear; walkLastMonth; walkYesterday; walkHourAgo] "month")))).
  vm_compute. discriminate.
Defined.

(** ** Deleting a walk *)

Section Splice.
Context {A : Type}.

(** A start at or past the end removes nothing. *)
Lemma splice1_past_end (a : list A) (start : Z) :
  Z.of_nat (List.length a) <= start -> Array.splice1 a start = a.
Proof.
  intros H. unfold Array.splice1.
  destruct (start <? 0) eqn:E; [apply Z.ltb_lt in E; lia|].
  rewrite Z.min_r by lia. rewrite Z.sub_diag.
  replace (Z.min (Z.max 1 0) 0) with 0 by lia.
  rewrite Z.add_0_r, Nat2Z.id. apply firstn_skipn.
Qed.

(** A start inside the array removes the element there. *)
Lemma splice1_inside (a : list A) (start : Z) :
  0 <= start < Z.of_nat (List.length a) ->
  Array.splice1 a start = firstn (Z.to_nat start) a ++ skipn (S (Z.to_nat start)) a.
Proof.
  intros H. unfold Array.splice1.
  destruct (start <? 0) eqn:E; [apply Z.ltb_lt in E; lia|].
  rewrite Z.min_l by lia.
  replace (Z.min (Z.max 1 0) (Z.of_nat (List.length a) - start)) with 1 by lia.
  replace (Z.to_nat (start + 1)) with (S (Z.to_nat start)) by lia. reflexivity.
Qed.

(** A negative start counts from the end, and not beyond the first
    element. *)
Lemma splice1_negative (a : list A) (start : Z) :
  start < 0 ->
  Array.splice1 a start = Array.splice1 a (Z.max (Z.of_nat (List.length a) + start) 0).
Proof.
  intros H. unfold Array.splice1.
  destruct (start <? 0) eqn:E; [|apply Z.ltb_ge in E; lia].
  destruct (Z.max (Z.of_nat (List.length a) + start) 0 <? 0) eqn:E2;
    [apply Z.ltb_lt in E2; lia|].
  rewrite (Z.min_l (Z.max (Z.of_nat (List.length a) + start) 0) (Z.of_nat (List.length a)))
    by lia.
  reflexivity.
Qed.

End Splice.

Lemma renderHistory_frame (now : Z) (w : World) :
  this (renderHistory now w) = this w
  /\ storage (renderHistory now w) = storage w
  /\ extends (heap w) (heap (renderHistory now w)).
Proof.
  destruct (getFilteredWalks_spec now w) as (_ & _ & Hext & Hthis & Hsto & _).
  unfold renderHistory.
  destruct (getFilteredWalks now w) as [p w1]. cbn [fst snd] in *.
  destruct (_ =? _)%nat; [auto|].
  destruct (updateHistoryStats_frame now w1) as (Ht & Hs & He).
  rewrite Ht, Hs, Hthis, Hsto. repeat split. eapply extends_trans; eassumption.
Qed.

Lemma updateChart_frame (now : Z) (w : World) :
  this (updateChart now w) = this w
  /\ storage (updateChart now w) = storage w
  /\ extends (heap w) (heap (updateChart now w)).
Proof.
  destruct (getFilteredWalks_spec now w) as (_ & _ & Hext & Hthis & Hsto & _).
  unfold updateChart. auto.
Qed.

(** [deleteWalk] is [splice] on the walk array, persisted; the object and
    the other arrays stay as they were. *)
Lemma deleteWalk_spec (index now : Z) (w : World) :
  wf w ->
  let w' := deleteWalk index now w in
  walksArray w' = Array.splice1 (walksArray w) index
  /\ this w' = this w
  /\ localStorage.getItem storageKey (storage w')
     = Some (JSON.stringify (Array.splice1 (walksArray w) index))
  /\ (forall q, (q < List.length (heap w))%nat -> q <> walks (this w) ->
                heap_read (heap w') q = heap_read (heap w) q).
Proof.
  intros Hwf w'. unfold w', deleteWalk.
  set (h := heap_write (heap w) (walks (this w)) (Array.splice1 (walksArray w) index)).
  set (w1 := mkWorld (this w) h _ (dom w)).
  destruct (renderHistory_frame now w1) as (Ht1 & Hs1 & He1).
  destruct (updateChart_frame now (renderHistory now w1)) as (Ht2 & Hs2 & He2).
  assert (He : extends h (heap (updateChart now (renderHistory now w1))))
    by (eapply extends_trans; eassumption).
  assert (Hlen : List.length h = List.length (heap w)) by apply heap_write_length.
  assert (Hread : heap_read h (walks (this w)) = Array.splice1 (walksArray w) index)
    by (apply heap_read_write_same; exact Hwf).
  repeat split.
  - unfold walksArray at 1. rewrite Ht2, Ht1. cbn [this w1].
    rewrite (extends_read h _ _ He) by (rewrite Hlen; exact Hwf). exact Hread.
  - rewrite Ht2, Ht1. reflexivity.
  - rewrite Hs2, Hs1. cbn [storage w1]. rewrite Hread.
    unfold localStorage.getItem, localStorage.setItem. rewrite String.eqb_refl. reflexivity.
  - intros q Hq Hne.
    rewrite (extends_read h _ _ He) by (rewrite Hlen; exact Hq).
    apply heap_read_write_other. congruence.
Qed.

(** C4, as the program has it.  For an index at or past the end of the walk
    array [deleteWalk] removes nothing: the array, the object and every other
    array are as before, what is persisted is the unchanged array, and
    [getFilteredWalks] returns afterwards what it returned before.  The
    function has no failure case.  (An index below 0 is not covered: [splice]
    counts it from the end.) *)
Theorem deleteWalk_past_end_noop (index now : Z) (w : World)
  (Hwf : wf w)
  (Hpast : Z.of_nat (List.length (walksArray w)) <= index) :
  let w' := deleteWalk index now w in
  walksArray w' = walksArray w
  /\ this w' = this w
  /\ (forall q, (q < List.length (heap w))%nat -> heap_read (heap w') q = heap_read (heap w) q)
  /\ localStorage.getItem storageKey (storage w') = Some (JSON.stringify (walksArray w))
  /\ (forall later,
         heap_read (heap (snd (getFilteredWalks later w'))) (fst (getFilteredWalks later w'))
         = heap_read (heap (snd (getFilteredWalks later w))) (fst (getFilteredWalks later w))).
Proof.
  intros w'.
  destruct (deleteWalk_spec index now w Hwf) as (Ha & Ht & Hs & Hq).
  fold w' in Ha, Ht, Hs, Hq.
  rewrite (splice1_past_end (walksArray w) index Hpast) in Ha, Hs.
  repeat split; try assumption.
  - intros q Hlt. destruct (Nat.eq_dec q (walks (this w))) as [->|Hne].
    + unfold walksArray in Ha. rewrite Ht in Ha. exact Ha.
    + apply Hq; assumption.
  - intros later.
    destruct (getFilteredWalks_spec later w') as (-> & _).
    destruct (getFilteredWalks_spec later w) as (-> & _).
    rewrite Ht, Ha. reflexivity.
Qed.

(** Index 2 on a collection of two walks. *)
Lemma deleteWalk_past_end_noop_witness :
  let w := storedWorld [walkLastMonth; walkYesterday] "all" in
  let w' := deleteWalk 2 sampleNow w in
  walksArray w' = walksArray w
  /\ this w' = this w
  /\ (forall q, (q < List.length (heap w))%nat -> heap_read (heap w') q = heap_read (heap w) q)
  /\ localStorage.getItem storageKey (storage w') = Some (JSON.stringify (walksArray w))
  /\ (forall later,
         heap_read (heap (snd (getFilteredWalks later w'))) (fst (getFilteredWalks later w'))
         = heap_read (heap (snd (getFilteredWalks later w))) (fst (getFilteredWalks later w))).
Proof.
  apply (deleteWalk_past_end_noop 2 sampleNow (storedWorld [walkLastMonth; walkYesterday] "all")).
  - unfold wf. simpl. lia.
  - simpl. lia.
Defined.

(** C4 fails for a negative index: -1 is out of range for a collection of
    two walks, and [deleteWalk(-1)] removes the last of them. *)
Lemma deleteWalk_negative_index_removes :
  let w := storedWorld [walkLastMonth; walkYesterday] "all" in
  let w' := deleteWalk (-1) sampleNow w in
  ~ (0 <= -1 < Z.of_nat (List.length (walksArray w)))
  /\ walksArray w' = [walkLastMonth]
  /\ walksArray w' <> walksArray w
  /\ localStorage.getItem storageKey (storage w') = Some (JSON.stringify [walkLastMonth]).
Proof.
  cbv zeta. split; [lia|]. split; [vm_compute; reflexivity|].
  split; [vm_compute; discriminate|]. vm_compute. reflexivity.
Qed.

(** X3.  What [deleteWalk] does with any index: inside the array it removes the
    record there and keeps the others in order; a negative index counts from
    the end. *)
Lemma deleteWalk_any_index (index now : Z) (w : World) :
  wf w ->
  let a := walksArray w in
  let len := Z.of_nat (List.length a) in
  let a' := walksArray (deleteWalk index now w) in
  (0 <= index < len -> a' = firstn (Z.to_nat index) a ++ skipn (S (Z.to_nat index)) a)
  /\ (- len <= index < 0 ->
      a' = firstn (Z.to_nat (len + index)) a ++ skipn (S (Z.to_nat (len + index))) a)
  /\ (index < - len -> 0 < len -> a' = tl a).
Proof.
  intros Hwf a len a'.
  destruct (deleteWalk_spec index now w Hwf) as (Ha & _). fold a a' in Ha.
  repeat split; intros.
  - rewrite Ha. apply splice1_inside. assumption.
  - rewrite Ha, splice1_negative by lia. fold len.
    rewrite Z.max_l by lia. apply splice1_inside. lia.
  - rewrite Ha, splice1_negative by lia. fold len.
    rewrite Z.max_r by lia. rewrite splice1_inside by (fold len; lia).
    destruct a; reflexivity.
Qed.

(** The second of three walks deleted. *)
Lemma deleteWalk_any_index_witness :
  let a := walksArray (storedWorld [walkLastYear; walkLastMonth; walkYesterday] "all") in
  let len := Z.of_nat (List.length a) in
  let a' := walksArray (deleteWalk 1 sampleNow
                          (storedWorld [walkLastYear; walkLastMonth; walkYesterday] "all")) in
  (0 <= 1 < len -> a' = firstn (Z.to_nat 1) a ++ skipn (S (Z.to_nat 1)) a)
  /\ (- len <= 1 < 0 ->
      a' = firstn (Z.to_nat (len + 1)) a ++ skipn (S (Z.to_nat (len + 1))) a)
  /\ (1 < - len -> 0 < len -> a' = tl a).
Proof.
  apply (deleteWalk_any_index 1 sampleNow
           (storedWorld [walkLastYear; walkLastMonth; walkYesterday] "all")).
  unfold wf. simpl. lia.
Defined.

Example deleteWalk_second_of_three :
  walksArray (deleteWalk 1 sampleNow
                (storedWorld [walkLastYear; walkLastMonth; walkYesterday] "all"))
  = [walkLastYear; walkYesterday].
Proof. vm_compute. reflexivity. Qed.

(** ** Reading back what [JSON.stringify] writes *)

(** *** Strings *)

Lemma append_assoc (a b c : string) : ((a ++ b) ++ c = a ++ (b ++ c))%string.
Proof. induction a as [|x a IH]; simpl; [reflexivity | rewrite IH; reflexivity]. Qed.

Lemma append_length (a b : string) :
  String.length (a ++ b) = (String.length a + String.length b)%nat.
Proof. induction a as [|x a IH]; simpl; [reflexivity | rewrite IH; reflexivity]. Qed.

(** *** Numerals *)

Lemma scan_digits_numeral (d : Decimal.uint) (rest : string) :
  JSON.ends_digits rest = true ->
  JSON.scan_digits (NilEmpty.string_of_uint d ++ rest) = (d, rest).
Proof.
  intros Hrest.
  induction d as [|d IH|d IH|d IH|d IH|d IH|d IH|d IH|d IH|d IH|d IH];
    try (cbn [NilEmpty.string_of_uint String.append JSON.scan_digits];
         rewrite IH; reflexivity).
  cbn [NilEmpty.string_of_uint String.append].
  destruct rest as [|c r]; [reflexivity|].
  cbn [JSON.scan_digits]. unfold JSON.ends_digits in Hrest.
  destruct (JSON.digit_of_char c); [discriminate | reflexivity].
Qed.

Lemma ends_number_digits (rest : string) :
  JSON.ends_number rest = true -> JSON.ends_digits rest = true.
Proof.
  destruct rest as [|c r]; [reflexivity|]. unfold JSON.ends_number, JSON.ends_digits.
  destruct (JSON.digit_of_char c); [discriminate | reflexivity].
Qed.

Lemma to_uint_normal (n : N) : Decimal.unorm (N.to_uint n) = N.to_uint n.
Proof.
  rewrite <- DecimalN.Unsigned.to_of, DecimalN.Unsigned.of_to. reflexivity.
Qed.

Lemma to_uint_nonnil (n : N) : N.to_uint n <> Decimal.Nil.
Proof.
  rewrite <- to_uint_normal. apply DecimalFacts.unorm_nonnil.
Qed.

Lemma to_uint_int_part (n : N) : JSON.int_part_ok (N.to_uint n) = true.
Proof.
  pose proof (to_uint_normal n) as H.
  unfold Decimal.unorm in H.
  destruct (Decimal.nzhead (N.to_uint n)) eqn:E; rewrite <- H; try reflexivity.
  exfalso. exact (DecimalFacts.nzhead_nonzero _ _ E).
Qed.

Lemma N_toString_numeral (n : N) : N_toString n = NilEmpty.string_of_uint (N.to_uint n).
Proof.
  unfold N_toString, NilZero.string_of_uint.
  pose proof (to_uint_nonnil n). destruct (N.to_uint n); congruence.
Qed.

(** A numeral does not start with a minus sign. *)
Lemma sign_numeral (n : N) (rest : string) :
  JSON.sign (N_toString n ++ rest) = (false, (N_toString n ++ rest)%string).
Proof.
  rewrite N_toString_numeral. pose proof (to_uint_nonnil n) as Hd.
  destruct (N.to_uint n); try congruence; reflexivity.
Qed.

Lemma fraction_absent (rest : string) :
  JSON.ends_number rest = true -> JSON.fraction rest = Some (Decimal.Nil, rest).
Proof.
  intros Hrest. destruct rest as [|c r]; [reflexivity|].
  unfold JSON.ends_number in Hrest. unfold JSON.fraction.
  destruct (JSON.digit_of_char c); [discriminate|].
  destruct (Ascii.eqb c "."); [discriminate | reflexivity].
Qed.

Lemma exponent_absent (rest : string) :
  JSON.ends_number rest = true -> JSON.exponent rest = Some (0, rest).
Proof.
  intros Hrest. destruct rest as [|c r]; [reflexivity|].
  unfold JSON.ends_number in Hrest. unfold JSON.exponent.
  destruct (JSON.digit_of_char c); [discriminate|].
  destruct (Ascii.eqb c "."); [discriminate|].
  destruct (Ascii.eqb c "e"); [discriminate|].
  destruct (Ascii.eqb c "E"); [discriminate | reflexivity].
Qed.

(** The numeral of a natural number, read back. *)
Lemma unsigned_number_N (n : N) (rest : string) :
  JSON.ends_number rest = true ->
  JSON.unsigned_number (N_toString n ++ rest) = Some (Z.of_N n, 0, rest).
Proof.
  intros Hrest. unfold JSON.unsigned_number. rewrite N_toString_numeral.
  rewrite (scan_digits_numeral _ _ (ends_number_digits _ Hrest)), to_uint_int_part.
  cbn [negb].
  rewrite (fraction_absent _ Hrest), (exponent_absent _ Hrest).
  cbn [Decimal.nb_digits Z.of_nat]. rewrite DecimalN.Unsigned.of_to.
  change (N.of_uint Decimal.Nil) with 0%N.
  f_equal. f_equal. f_equal. cbn. lia.
Qed.

(** A numeral, a point and one digit, read back. *)
Lemma unsigned_number_decimal (i d : N) (rest : string) :
  JSON.ends_number rest = true ->
  (d < 10)%N ->
  JSON.unsigned_number (N_toString i ++ "." ++ N_toString d ++ rest)
  = Some (Z.of_N i * 10 + Z.of_N d, -1, rest).
Proof.
  intros Hrest Hd. unfold JSON.unsigned_number. rewrite (N_toString_numeral i).
  rewrite scan_digits_numeral by reflexivity. rewrite to_uint_int_part. cbn [negb].
  cbn [String.append JSON.fraction Ascii.eqb Bool.eqb].
  rewrite (N_toString_numeral d), (scan_digits_numeral _ _ (ends_number_digits _ Hrest)).
  pose proof (to_uint_nonnil d) as Hnil.
  assert (Hk : Decimal.nb_digits (N.to_uint d) = 1%nat).
  { do 10 (destruct d as [|d _] using N.peano_ind; [reflexivity|]). lia. }
  assert (Hn : JSON.is_nil (N.to_uint d) = false)
    by (destruct (N.to_uint d); congruence || reflexivity).
  rewrite Hn, (exponent_absent _ Hrest), Hk, !DecimalN.Unsigned.of_to.
  reflexivity.
Qed.

(** The numeral of an integer, read as a number. *)
Lemma number_Z (z : Z) (rest : string) :
  JSON.ends_number rest = true ->
  JSON.number (Z_toString z ++ rest) = Some (JSON.JNumber z 0, rest).
Proof.
  intros Hrest. unfold JSON.number, Z_toString.
  destruct z as [|p|p].
  - rewrite sign_numeral, (unsigned_number_N _ _ Hrest). reflexivity.
  - rewrite sign_numeral, (unsigned_number_N _ _ Hrest). reflexivity.
  - cbn [String.append JSON.sign Ascii.eqb Bool.eqb].
    rewrite (unsigned_number_N _ _ Hrest). reflexivity.
Qed.

(** A number with one decimal, read as a number and taken in tenths. *)
Lemma number_tenths (t : Z) (rest : string) :
  JSON.ends_number rest = true ->
  JSON.number (JSON.tenths_toString t ++ rest) = Some (JSON.tenths_json t, rest).
Proof.
  intros Hrest. unfold JSON.tenths_toString, JSON.tenths_json.
  destruct (t mod 10 =? 0) eqn:E; [apply number_Z; exact Hrest|].
  apply Z.eqb_neq in E.
  assert (Hd : (Z.to_N (Z.abs t mod 10) < 10)%N).
  { pose proof (Z.mod_pos_bound (Z.abs t) 10). lia. }
  assert (Hv : Z.of_N (Z.to_N (Z.abs t / 10)) * 10 + Z.of_N (Z.to_N (Z.abs t mod 10)) = Z.abs t).
  { pose proof (Z.mod_pos_bound (Z.abs t) 10).
    pose proof (Z.div_pos (Z.abs t) 10).
    pose proof (Z.div_mod (Z.abs t) 10). lia. }
  unfold JSON.number.
  destruct (t <? 0) eqn:Hs.
  - apply Z.ltb_lt in Hs.
    rewrite !append_assoc.
    cbn [String.append JSON.sign Ascii.eqb Bool.eqb].
    change (String "." (N_toString ?d ++ rest))%string
      with ("." ++ N_toString d ++ rest)%string.
    rewrite (unsigned_number_decimal _ _ _ Hrest Hd), Hv.
    f_equal. f_equal. f_equal. lia.
  - apply Z.ltb_ge in Hs.
    rewrite !append_assoc. cbn [String.append].
    rewrite sign_numeral.
    change (String "." (N_toString ?d ++ rest))%string
      with ("." ++ N_toString d ++ rest)%string.
    rewrite (unsigned_number_decimal _ _ _ Hrest Hd), Hv.
    f_equal. f_equal. f_equal. lia.
Qed.

(** *** Strings *)

(** Reading what QuoteJSONString writes for one character gives the
    character back. *)
Lemma string_body_quote_char (c : ascii) (r t rest : string) :
  JSON.string_body r = Some (t, rest) ->
  JSON.string_body (JSON.quote_char c ++ r) = Some (String c t, rest).
Proof.
  intros H.
  destruct c as [b0 b1 b2 b3 b4 b5 b6 b7].
  destruct b0, b1, b2, b3, b4, b5, b6, b7;
    cbn; rewrite H; reflexivity.
Qed.

Lemma string_body_quote_body (s rest : string) :
  JSON.string_body (JSON.quote_body s ++ String dquote rest) = Some (s, rest).
Proof.
  induction s as [|c s IH].
  - reflexivity.
  - cbn [JSON.quote_body]. rewrite append_assoc.
    apply string_body_quote_char. exact IH.
Qed.

Lemma quote_append (s rest : string) :
  (JSON.quote s ++ rest)%string = String dquote (JSON.quote_body s ++ String dquote rest).
Proof.
  unfold JSON.quote. cbn [String.append]. rewrite append_assoc. reflexivity.
Qed.

(** *** Values *)

Lemma value_number (f : nat) (c : ascii) (r : string) :
  JSON.starts_number c = true ->
  JSON.value (S f) (String c r) = JSON.number (String c r).
Proof.
  destruct c as [b0 b1 b2 b3 b4 b5 b6 b7].
  destruct b0, b1, b2, b3, b4, b5, b6, b7; intros H; try discriminate H; reflexivity.
Qed.

Lemma numeral_starts (n : N) (rest : string) :
  exists c r, (N_toString n ++ rest)%string = String c r /\ JSON.starts_number c = true.
Proof.
  rewrite N_toString_numeral. pose proof (to_uint_nonnil n) as Hd.
  destruct (N.to_uint n); try congruence;
    cbn [NilEmpty.string_of_uint String.append]; eexists; eexists; split; reflexivity.
Qed.

Lemma Z_toString_starts (z : Z) (rest : string) :
  exists c r, (Z_toString z ++ rest)%string = String c r /\ JSON.starts_number c = true.
Proof.
  unfold Z_toString. destruct z; try apply numeral_starts.
  cbn [String.append]. eexists; eexists; split; reflexivity.
Qed.

Lemma tenths_toString_starts (t : Z) (rest : string) :
  exists c r, (JSON.tenths_toString t ++ rest)%string = String c r
              /\ JSON.starts_number c = true.
Proof.
  unfold JSON.tenths_toString.
  destruct (t mod 10 =? 0); [apply Z_toString_starts|].
  destruct (t <? 0).
  - cbn [String.append]. eexists; eexists; split; reflexivity.
  - cbn [String.append]. rewrite append_assoc. apply numeral_starts.
Qed.

Lemma value_Z (f : nat) (z : Z) (rest : string) :
  JSON.ends_number rest = true ->
  JSON.value (S f) (Z_toString z ++ rest) = Some (JSON.JNumber z 0, rest).
Proof.
  intros Hrest. destruct (Z_toString_starts z rest) as (c & r & E & Hc).
  rewrite E, (value_number f c r Hc), <- E. apply number_Z. exact Hrest.
Qed.

Lemma value_tenths (f : nat) (t : Z) (rest : string) :
  JSON.ends_number rest = true ->
  JSON.value (S f) (JSON.tenths_toString t ++ rest) = Some (JSON.tenths_json t, rest).
Proof.
  intros Hrest. destruct (tenths_toString_starts t rest) as (c & r & E & Hc).
  rewrite E, (value_number f c r Hc), <- E. apply number_tenths. exact Hrest.
Qed.

Lemma value_string (f : nat) (s rest : string) :
  JSON.value (S f) (JSON.quote s ++ rest) = Some (JSON.JString s, rest).
Proof.
  rewrite quote_append. cbn [JSON.value JSON.skip_ws].
  change (JSON.is_ws dquote) with false. cbn iota.
  change (Ascii.eqb dquote "[") with false.
  change (Ascii.eqb dquote "{") with false.
  change (Ascii.eqb dquote dquote) with true. cbn iota.
  rewrite string_body_quote_body. reflexivity.
Qed.

(** One property of an object, followed by a comma and more properties. *)
Lemma members_more (f : nat) (k vtext more rest : string) (v : JSON.json)
  (ms : list (string * JSON.json)) :
  JSON.value f vtext = Some (v, String "," more) ->
  JSON.members f more = Some (ms, rest) ->
  JSON.members (S f) (JSON.quote k ++ String ":" vtext) = Some ((k, v) :: ms, rest).
Proof.
  intros Hv Hm. rewrite quote_append. cbn [JSON.members JSON.skip_ws].
  change (JSON.is_ws dquote) with false. cbn iota.
  change (Ascii.eqb dquote dquote) with true. cbn iota.
  rewrite string_body_quote_body. cbn [JSON.skip_ws].
  change (JSON.is_ws ":") with false. cbn iota.
  change (Ascii.eqb ":" ":") with true. cbn iota.
  rewrite Hv. cbn [JSON.skip_ws].
  change (JSON.is_ws ",") with false. cbn iota.
  change (Ascii.eqb "," ",") with true. cbn iota.
  rewrite Hm. reflexivity.
Qed.

(** The last property of an object, followed by the closing brace. *)
Lemma members_last (f : nat) (k vtext rest : string) (v : JSON.json) :
  JSON.value f vtext = Some (v, String "}" rest) ->
  JSON.members (S f) (JSON.quote k ++ String ":" vtext) = Some ([(k, v)], rest).
Proof.
  intros Hv. rewrite quote_append. cbn [JSON.members JSON.skip_ws].
  change (JSON.is_ws dquote) with false. cbn iota.
  change (Ascii.eqb dquote dquote) with true. cbn iota.
  rewrite string_body_quote_body. cbn [JSON.skip_ws].
  change (JSON.is_ws ":") with false. cbn iota.
  change (Ascii.eqb ":" ":") with true. cbn iota.
  rewrite Hv. cbn [JSON.skip_ws].
  change (JSON.is_ws "}") with false. cbn iota.
  change (Ascii.eqb "}" ",") with false.
  change (Ascii.eqb "}" "}") with true. cbn iota.
  reflexivity.
Qed.

(** The text of a record, laid out character by character around its four
    values. *)
Lemma stringify_walk_append (r : WalkRecord) (rest : string) :
  (JSON.stringify_walk r ++ rest)%string
  = String "{"
      (JSON.quote "date" ++ String ":"
        (JSON.quote (date r) ++ String ","
          (JSON.quote "duration" ++ String ":"
            (Z_toString (duration r) ++ String ","
              (JSON.quote "steps" ++ String ":"
                (Z_toString (steps r) ++ String ","
                  (JSON.quote "stepsPerMinute" ++ String ":"
                    (JSON.tenths_toString (stepsPerMinute r) ++ String "}" rest)))))))).
Proof.
  unfold JSON.stringify_walk. rewrite !append_assoc. reflexivity.
Qed.

(** A record is read back as the object of its four properties. *)
Lemma value_walk (f : nat) (r : WalkRecord) (rest : string) :
  JSON.value (6 + f) (JSON.stringify_walk r ++ rest) = Some (JSON.of_walk r, rest).
Proof.
  rewrite stringify_walk_append.
  change (6 + f)%nat with (S (S (S (S (S (S f)))))).
  cbn [JSON.value JSON.skip_ws].
  change (JSON.is_ws "{") with false. cbn iota.
  change (Ascii.eqb "{" "[") with false.
  change (Ascii.eqb "{" "{") with true. cbn iota.
  rewrite quote_append at 1. cbn [JSON.skip_ws].
  change (JSON.is_ws dquote) with false. cbn iota.
  change (Ascii.eqb dquote "}") with false. cbn iota.
  erewrite members_more; [reflexivity | apply value_string |].
  erewrite members_more; [reflexivity | apply value_Z; reflexivity |].
  erewrite members_more; [reflexivity | apply value_Z; reflexivity |].
  apply members_last. apply value_tenths. reflexivity.
Qed.

(** The text of a record starts with its opening brace. *)
Lemma stringify_walk_head (r : WalkRecord) (rest : string) :
  exists tail, (JSON.stringify_walk r ++ rest)%string = String "{" tail.
Proof. rewrite stringify_walk_append. eexists. reflexivity. Qed.

(** The records of a non-empty array, up to its closing bracket. *)
Lemma elements_walks (rs : list WalkRecord) :
  forall (r : WalkRecord) (f : nat) (rest : string),
    (List.length rs <= f)%nat ->
    JSON.elements (7 + f) (JSON.join_walks (r :: rs) ++ String "]" rest)
    = Some (map JSON.of_walk (r :: rs), rest).
Proof.
  induction rs as [|r' rs IH]; intros r f rest Hf.
  - cbn [JSON.join_walks].
    change (7 + f)%nat with (S (6 + f)). cbn [JSON.elements].
    rewrite value_walk. cbn [JSON.skip_ws].
    change (JSON.is_ws "]") with false. cbn iota.
    change (Ascii.eqb "]" ",") with false.
    change (Ascii.eqb "]" "]") with true. cbn iota. reflexivity.
  - cbn [List.length] in Hf. destruct f as [|f]; [lia|].
    change (JSON.join_walks (r :: r' :: rs))
      with (JSON.stringify_walk r ++ "," ++ JSON.join_walks (r' :: rs))%string.
    rewrite !append_assoc. cbn [String.append].
    change (7 + S f)%nat with (S (6 + S f)). cbn [JSON.elements].
    rewrite value_walk. cbn [JSON.skip_ws].
    change (JSON.is_ws ",") with false. cbn iota.
    change (Ascii.eqb "," ",") with true. cbn iota.
    change (6 + S f)%nat with (7 + f)%nat.
    rewrite IH by lia. reflexivity.
Qed.

(** The text of an array of records, read as a value. *)
Lemma value_walks (rs : list WalkRecord) (f : nat) (rest : string) :
  (List.length rs <= f)%nat ->
  JSON.value (8 + f) (JSON.stringify rs ++ rest) = Some (JSON.JArray (map JSON.of_walk rs), rest).
Proof.
  intros Hf. unfold JSON.stringify. rewrite !append_assoc. cbn [String.append].
  change (8 + f)%nat with (S (7 + f)). cbn [JSON.value JSON.skip_ws].
  change (JSON.is_ws "[") with false. cbn iota.
  change (Ascii.eqb "[" "[") with true. cbn iota.
  destruct rs as [|r rs].
  - reflexivity.
  - destruct (stringify_walk_head r
                (match rs with [] => EmptyString | _ :: _ => "," ++ JSON.join_walks rs end
                 ++ String "]" rest)%string) as (tail & E).
    assert (Ejoin : (JSON.join_walks (r :: rs) ++ String "]" rest)%string = String "{" tail).
    { rewrite <- E. destruct rs; cbn [JSON.join_walks]; [reflexivity|].
      rewrite !append_assoc. reflexivity. }
    rewrite Ejoin at 1. cbn [JSON.skip_ws].
    change (JSON.is_ws "{") with false. cbn iota.
    change (Ascii.eqb "{" "]") with false. cbn iota.
    cbn [List.length] in Hf. destruct f as [|f]; [lia|].
    change (7 + S f)%nat with (7 + S f)%nat.
    rewrite elements_walks by lia. reflexivity.
Qed.

Lemma stringify_length (rs : list WalkRecord) :
  (2 + 8 * List.length rs <= String.length (JSON.stringify rs))%nat.
Proof.
  unfold JSON.stringify. rewrite !append_length. cbn [String.length].
  assert (H : (8 * List.length rs <= String.length (JSON.join_walks rs))%nat).
  { induction rs as [|r rs IH]; [simpl; lia|].
    assert (Hr : (8 <= String.length (JSON.stringify_walk r))%nat).
    { pose proof (stringify_walk_append r EmptyString) as E.
      assert (E' : JSON.stringify_walk r = (JSON.stringify_walk r ++ "")%string).
      { clear. induction (JSON.stringify_walk r); simpl; congruence. }
      rewrite E', E. rewrite quote_append. cbn [String.length JSON.quote_body String.append JSON.quote_char].
      cbn. lia. }
    destruct rs as [|r' rs]; [cbn [JSON.join_walks List.length]; lia|].
    change (JSON.join_walks (r :: r' :: rs))
      with (JSON.stringify_walk r ++ "," ++ JSON.join_walks (r' :: rs))%string.
    rewrite !append_length. cbn [List.length] in *. lia. }
  lia.
Qed.

(** [JSON.parse] reads back what [JSON.stringify] wrote. *)
Lemma parse_stringify (rs : list WalkRecord) :
  JSON.parse (JSON.stringify rs) = Some (JSON.JArray (map JSON.of_walk rs)).
Proof.
  destruct rs as [|r0 rs0]; [reflexivity|].
  set (rs := r0 :: rs0).
  unfold JSON.parse.
  pose proof (stringify_length rs) as Hlen. cbn [rs List.length] in Hlen. fold rs in Hlen.
  assert (Hrs : List.length rs = S (List.length rs0)) by reflexivity.
  set (n := String.length (JSON.stringify rs)) in *.
  assert (E : JSON.stringify rs = (JSON.stringify rs ++ "")%string).
  { clear. induction (JSON.stringify rs); simpl; congruence. }
  replace (2 * n + 2)%nat with (8 + (2 * n - 6))%nat by lia.
  rewrite E at 1. rewrite value_walks by lia. reflexivity.
Qed.

Lemma integer_of_exact (z : Z) : JSON.integer_of z 0 = Some z.
Proof. unfold JSON.integer_of. cbn. f_equal. lia. Qed.

Lemma integer_of_tenths (t : Z) :
  match JSON.tenths_json t with
  | JSON.JNumber m e => JSON.integer_of m (e + 1) = Some t
  | _ => False
  end.
Proof.
  unfold JSON.tenths_json. destruct (t mod 10 =? 0) eqn:E.
  - apply Z.eqb_eq in E. unfold JSON.integer_of. cbn. f_equal.
    pose proof (Z.div_mod t 10). lia.
  - apply integer_of_exact.
Qed.

Lemma walk_of_json_of_walk (r : WalkRecord) : JSON.walk_of_json (JSON.of_walk r) = Some r.
Proof.
  unfold JSON.of_walk. pose proof (integer_of_tenths (stepsPerMinute r)) as Ht.
  destruct (JSON.tenths_json (stepsPerMinute r)); try contradiction.
  cbn [JSON.walk_of_json]. cbn [String.eqb Ascii.eqb Bool.eqb andb].
  rewrite !integer_of_exact, Ht. destruct r; reflexivity.
Qed.

Lemma walks_of_json_of_walks (rs : list WalkRecord) :
  JSON.walks_of_json (JSON.JArray (map JSON.of_walk rs)) = Some rs.
Proof.
  cbn [JSON.walks_of_json].
  induction rs as [|r rs IH]; [reflexivity|].
  cbn [map JSON.walks_of_list]. rewrite walk_of_json_of_walk, IH. reflexivity.
Qed.

(** The text of an array is never empty. *)
Lemma stringify_nonempty (rs : list WalkRecord) :
  String.eqb (JSON.stringify rs) EmptyString = false.
Proof. reflexivity. Qed.

(** ** The fuel of the reader *)

(** [JSON.parse] gives its reader twice the length of the input, and two,
    as fuel.  That is never exhausted: more fuel changes no result, so [None]
    is a syntax error of the input. *)

Lemma skip_ws_length (s : string) : (String.length (JSON.skip_ws s) <= String.length s)%nat.
Proof.
  induction s as [|c s IH]; cbn [JSON.skip_ws]; [lia|].
  destruct (JSON.is_ws c); cbn [String.length] in *; lia.
Qed.

Lemma skip_ws_cons (s r : string) (c : ascii) :
  JSON.skip_ws s = String c r -> (S (String.length r) <= String.length s)%nat.
Proof.
  intros H. pose proof (skip_ws_length s) as Hl. rewrite H in Hl. exact Hl.
Qed.

Lemma string_body_length (s : string) :
  forall t r, JSON.string_body s = Some (t, r) -> (String.length r < String.length s)%nat.
Proof.
  induction s as [s IH] using (well_founded_induction
                                 (Wf_nat.well_founded_ltof _ String.length)).
  unfold Wf_nat.ltof in IH. intros t r H.
  destruct s as [|c s]; [discriminate|]. cbn [JSON.string_body] in H.
  destruct (Ascii.eqb c dquote).
  { injection H as _ <-. cbn [String.length]. lia. }
  destruct (Ascii.eqb c backslash).
  - destruct s as [|e s1]; [discriminate|].
    destruct (Ascii.eqb e "u").
    + destruct s1 as [|h1 [|h2 [|h3 [|h4 s2]]]]; try discriminate.
      destruct (JSON.hex_value h1); [|discriminate].
      destruct (JSON.hex_value h2); [|discriminate].
      destruct (JSON.hex_value h3); [|discriminate].
      destruct (JSON.hex_value h4); [|discriminate].
      destruct (JSON.string_body s2) as [[t' r']|] eqn:E; [|discriminate].
      injection H as _ <-. apply IH in E; cbn [String.length] in *; lia.
    + destruct (JSON.unescape e); [|discriminate].
      destruct (JSON.string_body s1) as [[t' r']|] eqn:E; [|discriminate].
      injection H as _ <-. apply IH in E; cbn [String.length] in *; lia.
  - destruct (N_of_ascii c <? 32)%N; [discriminate|].
    destruct (JSON.string_body s) as [[t' r']|] eqn:E; [|discriminate].
    injection H as _ <-. apply IH in E; cbn [String.length] in *; lia.
Qed.

Lemma scan_digits_length (s : string) :
  forall d r, JSON.scan_digits s = (d, r) ->
              (String.length r <= String.length s)%nat
              /\ (d <> Decimal.Nil -> (String.length r < String.length s)%nat).
Proof.
  induction s as [|c s IH]; intros d r H; cbn [JSON.scan_digits] in H.
  - injection H as <- <-. split; [lia | congruence].
  - destruct (JSON.digit_of_char c).
    + destruct (JSON.scan_digits s) as [d' r'] eqn:E. injection H as <- <-.
      destruct (IH d' r' eq_refl) as [Hle _]. cbn [String.length]. split; intros; lia.
    + injection H as <- <-. split; [lia | congruence].
Qed.

Lemma strip_prefix_length (p s r : string) :
  JSON.strip_prefix p s = Some r -> (String.length r <= String.length s)%nat.
Proof.
  revert s; induction p as [|c p IH]; intros s H; cbn [JSON.strip_prefix] in H.
  - injection H as <-. lia.
  - destruct s as [|c' s]; [discriminate|].
    destruct (Ascii.eqb c c'); [|discriminate].
    apply IH in H. cbn [String.length]. lia.
Qed.

Lemma fraction_length (s : string) (d : Decimal.uint) (r : string) :
  JSON.fraction s = Some (d, r) -> (String.length r <= String.length s)%nat.
Proof.
  unfold JSON.fraction. destruct s as [|c s]; [intros H; injection H as _ <-; lia|].
  destruct (Ascii.eqb c ".").
  - destruct (JSON.scan_digits s) as [d' r'] eqn:E.
    destruct (JSON.is_nil d'); [discriminate|].
    intros H; injection H as _ <-.
    destruct (scan_digits_length s d' r' E) as [Hle _]. cbn [String.length]. lia.
  - intros H; injection H as _ <-. lia.
Qed.

Lemma exponent_length (s : string) (e : Z) (r : string) :
  JSON.exponent s = Some (e, r) -> (String.length r <= String.length s)%nat.
Proof.
  unfold JSON.exponent. destruct s as [|c s]; [intros H; injection H as _ <-; lia|].
  destruct (Ascii.eqb c "e" || Ascii.eqb c "E")%bool.
  - destruct s as [|c' s'].
    + destruct (JSON.scan_digits EmptyString) as [d r2] eqn:E.
      destruct (JSON.is_nil d); [discriminate|].
      intros H; injection H as _ <-.
      destruct (scan_digits_length _ _ _ E) as [Hle _]. cbn [String.length] in *. lia.
    + destruct (Ascii.eqb c' "-"); [|destruct (Ascii.eqb c' "+")];
        match goal with |- context [JSON.scan_digits ?x] =>
          destruct (JSON.scan_digits x) as [d r2] eqn:E end;
        (destruct (JSON.is_nil d); [discriminate|]);
        intros H; injection H as _ <-;
        destruct (scan_digits_length _ _ _ E) as [Hle _]; cbn [String.length] in *; lia.
  - intros H; injection H as _ <-. lia.
Qed.

Lemma number_length (s : string) (v : JSON.json) (r : string) :
  JSON.number s = Some (v, r) -> (String.length r < String.length s)%nat.
Proof.
  unfold JSON.number, JSON.unsigned_number.
  assert (Hsign : (String.length (snd (JSON.sign s)) <= String.length s)%nat).
  { unfold JSON.sign. destruct s as [|c s]; [simpl; lia|].
    destruct (Ascii.eqb c "-"); cbn [snd String.length]; lia. }
  destruct (JSON.sign s) as [neg s1]. cbn [snd] in Hsign.
  destruct (JSON.scan_digits s1) as [ip s2] eqn:E.
  destruct (JSON.int_part_ok ip) eqn:Hip; cbn [negb]; [|discriminate].
  destruct (scan_digits_length _ _ _ E) as [_ Hlt].
  assert (Hnil : ip <> Decimal.Nil) by (intros ->; discriminate).
  specialize (Hlt Hnil).
  destruct (JSON.fraction s2) as [[fp s3]|] eqn:Ef; [|discriminate].
  destruct (JSON.exponent s3) as [[ex s4]|] eqn:Ee; [|discriminate].
  intros H; injection H as _ <-.
  apply fraction_length in Ef. apply exponent_length in Ee. lia.
Qed.

(** A value, and a list of elements or members, takes at least one
    character. *)
Lemma value_length (f : nat) :
  (forall s v r, JSON.value f s = Some (v, r) -> (String.length r < String.length s)%nat)
  /\ (forall s vs r, JSON.elements f s = Some (vs, r) -> (String.length r < String.length s)%nat)
  /\ (forall s ms r, JSON.members f s = Some (ms, r) -> (String.length r < String.length s)%nat).
Proof.
  induction f as [|f (IHv & IHe & IHm)]; [repeat split; intros; discriminate|].
  repeat split.
  - intros s v r H. cbn [JSON.value] in H.
    destruct (JSON.skip_ws s) as [|c t] eqn:Es; [discriminate|].
    pose proof (skip_ws_cons _ _ _ Es) as Hs.
    destruct (Ascii.eqb c "[").
    { destruct (JSON.skip_ws t) as [|c2 t2] eqn:Et; [discriminate|].
      pose proof (skip_ws_cons _ _ _ Et).
      destruct (Ascii.eqb c2 "]"); [injection H as _ <-; lia|].
      destruct (JSON.elements f t) as [[vs r']|] eqn:E; [|discriminate].
      injection H as _ <-. apply IHe in E. lia. }
    destruct (Ascii.eqb c "{").
    { destruct (JSON.skip_ws t) as [|c2 t2] eqn:Et; [discriminate|].
      pose proof (skip_ws_cons _ _ _ Et).
      destruct (Ascii.eqb c2 "}"); [injection H as _ <-; lia|].
      destruct (JSON.members f t) as [[ms r']|] eqn:E; [|discriminate].
      injection H as _ <-. apply IHm in E. lia. }
    destruct (Ascii.eqb c dquote).
    { destruct (JSON.string_body t) as [[t' r']|] eqn:E; [|discriminate].
      injection H as _ <-. apply string_body_length in E. lia. }
    destruct (Ascii.eqb c "t").
    { destruct (JSON.strip_prefix "rue" t) as [r'|] eqn:E; [|discriminate].
      injection H as _ <-. apply strip_prefix_length in E. lia. }
    destruct (Ascii.eqb c "f").
    { destruct (JSON.strip_prefix "alse" t) as [r'|] eqn:E; [|discriminate].
      injection H as _ <-. apply strip_prefix_length in E. lia. }
    destruct (Ascii.eqb c "n").
    { destruct (JSON.strip_prefix "ull" t) as [r'|] eqn:E; [|discriminate].
      injection H as _ <-. apply strip_prefix_length in E. lia. }
    apply number_length in H. cbn [String.length] in *. lia.
  - intros s vs r H. cbn [JSON.elements] in H.
    destruct (JSON.value f s) as [[v t]|] eqn:E; [|discriminate].
    apply IHv in E.
    destruct (JSON.skip_ws t) as [|c t'] eqn:Et; [discriminate|].
    pose proof (skip_ws_cons _ _ _ Et).
    destruct (Ascii.eqb c ",").
    + destruct (JSON.elements f t') as [[vs' r']|] eqn:E'; [|discriminate].
      injection H as _ <-. apply IHe in E'. lia.
    + destruct (Ascii.eqb c "]"); [|discriminate]. injection H as _ <-. lia.
  - intros s ms r H. cbn [JSON.members] in H.
    destruct (JSON.skip_ws s) as [|c t] eqn:Es; [discriminate|].
    pose proof (skip_ws_cons _ _ _ Es).
    destruct (Ascii.eqb c dquote); [|discriminate].
    destruct (JSON.string_body t) as [[k t1]|] eqn:Ek; [|discriminate].
    apply string_body_length in Ek.
    destruct (JSON.skip_ws t1) as [|c1 t2] eqn:E1; [discriminate|].
    pose proof (skip_ws_cons _ _ _ E1).
    destruct (Ascii.eqb c1 ":"); [|discriminate].
    destruct (JSON.value f t2) as [[v t3]|] eqn:Ev; [|discriminate].
    apply IHv in Ev.
    destruct (JSON.skip_ws t3) as [|c3 t4] eqn:E3; [discriminate|].
    pose proof (skip_ws_cons _ _ _ E3).
    destruct (Ascii.eqb c3 ",").
    + destruct (JSON.members f t4) as [[ms' r']|] eqn:Em; [|discriminate].
      injection H as _ <-. apply IHm in Em. lia.
    + destruct (Ascii.eqb c3 "}"); [|discriminate]. injection H as _ <-. lia.
Qed.

Lemma elements_unfold (f : nat) (s : string) :
  JSON.elements (S f) s
  = match JSON.value f s with
    | Some (v, r) =>
        match JSON.skip_ws r with
        | String c r' =>
            if Ascii.eqb c "," then
              match JSON.elements f r' with
              | Some (vs, rest) => Some (v :: vs, rest)
              | None => None
              end
            else if Ascii.eqb c "]" then Some ([v], r')
            else None
        | EmptyString => None
        end
    | None => None
    end.
Proof. reflexivity. Qed.

Lemma members_unfold (f : nat) (s : string) :
  JSON.members (S f) s
  = match JSON.skip_ws s with
    | String c r =>
        if Ascii.eqb c dquote then
          match JSON.string_body r with
          | Some (k, r1) =>
              match JSON.skip_ws r1 with
              | String c1 r2 =>
                  if Ascii.eqb c1 ":" then
                    match JSON.value f r2 with
                    | Some (v, r3) =>
                        match JSON.skip_ws r3 with
                        | String c3 r4 =>
                            if Ascii.eqb c3 "," then
                              match JSON.members f r4 with
                              | Some (ms, rest) => Some ((k, v) :: ms, rest)
                              | None => None
                              end
                            else if Ascii.eqb c3 "}" then Some ([(k, v)], r4)
                            else None
                        | EmptyString => None
                        end
                    | None => None
                    end
                  else None
              | EmptyString => None
              end
          | None => None
          end
        else None
    | EmptyString => None
    end.
Proof. reflexivity. Qed.

(** With fuel above twice the length of the input, one more unit changes
    nothing. *)
Lemma fuel_step (f : nat) :
  (forall s, (2 * String.length s + 1 <= f)%nat -> JSON.value (S f) s = JSON.value f s)
  /\ (forall s, (2 * String.length s + 2 <= f)%nat -> JSON.elements (S f) s = JSON.elements f s)
  /\ (forall s, (2 * String.length s + 2 <= f)%nat -> JSON.members (S f) s = JSON.members f s).
Proof.
  induction f as [|f (IHv & IHe & IHm)]; [repeat split; intros; lia|].
  destruct (value_length f) as (Lv & Le & Lm).
  repeat split.
  - intros s Hf. cbn [JSON.value].
    destruct (JSON.skip_ws s) as [|c t] eqn:Es; [reflexivity|].
    pose proof (skip_ws_cons _ _ _ Es).
    rewrite (IHe t), (IHm t) by lia. reflexivity.
  - intros s Hf. rewrite (elements_unfold (S f)), (elements_unfold f).
    rewrite (IHv s) by lia.
    destruct (JSON.value f s) as [[v t]|] eqn:E; [|reflexivity].
    apply Lv in E.
    destruct (JSON.skip_ws t) as [|c t'] eqn:Et; [reflexivity|].
    pose proof (skip_ws_cons _ _ _ Et).
    rewrite (IHe t') by lia. reflexivity.
  - intros s Hf. rewrite (members_unfold (S f)), (members_unfold f).
    destruct (JSON.skip_ws s) as [|c t] eqn:Es; [reflexivity|].
    pose proof (skip_ws_cons _ _ _ Es).
    destruct (Ascii.eqb c dquote); [|reflexivity].
    destruct (JSON.string_body t) as [[k t1]|] eqn:Ek; [|reflexivity].
    apply string_body_length in Ek.
    destruct (JSON.skip_ws t1) as [|c1 t2] eqn:E1; [reflexivity|].
    pose proof (skip_ws_cons _ _ _ E1).
    destruct (Ascii.eqb c1 ":"); [|reflexivity].
    rewrite (IHv t2) by lia.
    destruct (JSON.value f t2) as [[v t3]|] eqn:Ev; [|reflexivity].
    apply Lv in Ev.
    destruct (JSON.skip_ws t3) as [|c3 t4] eqn:E3; [reflexivity|].
    pose proof (skip_ws_cons _ _ _ E3).
    rewrite (IHm t4) by lia. reflexivity.
Qed.

(** The reader of [JSON.parse] has all the fuel it can use. *)
Theorem parse_fuel_enough (s : string) (extra : nat) :
  JSON.value (2 * String.length s + 2 + extra) s = JSON.value (2 * String.length s + 2) s.
Proof.
  induction extra as [|k IH]; [f_equal; lia|].
  replace (2 * String.length s + 2 + S k)%nat with (S (2 * String.length s + 2 + k)) by lia.
  rewrite (proj1 (fuel_step _)) by lia. exact IH.
Qed.

(** ** Persistence *)

Lemma assign_walks_walksArray (a : list WalkRecord) (w : World) :
  walksArray (assign_walks a w) = a
  /\ storage (assign_walks a w) = storage w
  /\ extends (heap w) (heap (assign_walks a w))
  /\ wf (assign_walks a w).
Proof.
  unfold assign_walks, heap_alloc, walksArray, wf.
  cbn [this heap storage walks set_walks]. repeat split.
  - apply heap_read_alloc_new.
  - exists [a]. reflexivity.
  - rewrite length_app. simpl. lia.
Qed.

(** Loading a persisted array of records gives that array. *)
Lemma loadWalks_stringify (rs : list WalkRecord) (w : World) :
  localStorage.getItem storageKey (storage w) = Some (JSON.stringify rs) ->
  loadWalks w = Normal (assign_walks rs w).
Proof.
  intros H. unfold loadWalks. rewrite H, stringify_nonempty, parse_stringify,
    walks_of_json_of_walks. reflexivity.
Qed.

Lemma saveWalks_spec (rs : list WalkRecord) :
  forall w : World,
    wf w ->
    inSync w ->
    wf (saveWalks rs w)
    /\ inSync (saveWalks rs w)
    /\ walksArray (saveWalks rs w) = walksArray w ++ rs.
Proof.
  unfold saveWalks.
  induction rs as [|r rs IH]; intros w Hwf Hsync; cbn [fold_left].
  - rewrite List.app_nil_r. auto.
  - destruct (IH (saveWalk r w)) as (H1 & H2 & H3).
    + apply saveWalk_wf. exact Hwf.
    + unfold inSync. rewrite (saveWalk_storage r w Hwf), (saveWalk_walksArray r w Hwf).
      reflexivity.
    + rewrite (saveWalk_walksArray r w Hwf) in H3. rewrite <- List.app_assoc in H3.
      auto.
Qed.

(** C5.  From a world whose storage agrees with its walk array: after
    [saveWalk] on each of N records in turn the walk array is the old array
    followed by the N records, and its text is what is stored under the key
    (with no record to save the store is left as it is).
    [loadWalks] then reads the records back from the store alone: in any
    world that has this store, whatever its own walk array, it completes
    and installs the old array followed by the N records, in order (starting
    from the empty array, exactly the N records), and leaves the store as it
    is.  The text [JSON.stringify] writes for an array of records is read
    back by [JSON.parse] as that array. *)
Theorem save_load_roundtrip (rs : list WalkRecord) (w : World)
  (Hwf : wf w) (Hsync : inSync w) :
  let saved := saveWalks rs w in
  walksArray saved = walksArray w ++ rs
  /\ (rs <> [] ->
      localStorage.getItem storageKey (storage saved)
      = Some (JSON.stringify (walksArray w ++ rs)))
  /\ (rs = [] -> storage saved = storage w)
  /\ (forall page : World,
         storage page = storage saved ->
         exists w',
           loadWalks page = Normal w'
           /\ walksArray w' = walksArray w ++ rs
           /\ storage w' = storage saved
           /\ (walksArray w = [] ->
               walksArray w' = rs /\ List.length (walksArray w') = List.length rs))
  /\ (exists j, JSON.parse (JSON.stringify rs) = Some j /\ JSON.walks_of_json j = Some rs).
Proof.
  intros saved.
  destruct (saveWalks_spec rs w Hwf Hsync) as (Hwf' & Hsync' & Harr).
  fold saved in Hwf', Hsync', Harr. unfold inSync in Hsync'.
  split; [exact Harr|]. split; [|split; [|split]].
  - intros Hne.
    destruct (localStorage.getItem storageKey (storage saved)) as [text|].
    + rewrite Hsync', Harr. reflexivity.
    + rewrite Harr in Hsync'. destruct (walksArray w); destruct rs; try discriminate.
      congruence.
  - intros Hnil. unfold saved. rewrite Hnil. reflexivity.
  - intros page Hpage.
    assert (Hload : loadWalks page = Normal (assign_walks (walksArray w ++ rs) page)).
    { destruct (localStorage.getItem storageKey (storage saved)) as [text|] eqn:E.
      - apply loadWalks_stringify. rewrite Hpage, E, Hsync', Harr. reflexivity.
      - unfold loadWalks. rewrite Hpage, E, <- Harr, Hsync'. reflexivity. }
    exists (assign_walks (walksArray w ++ rs) page).
    destruct (assign_walks_walksArray (walksArray w ++ rs) page) as (Ha & Hs & _).
    split; [exact Hload|]. split; [exact Ha|]. split; [rewrite Hs; exact Hpage|].
    intros Hempty. rewrite Ha, Hempty. auto.
  - exists (JSON.JArray (map JSON.of_walk rs)).
    split; [apply parse_stringify | apply walks_of_json_of_walks].
Qed.

(** Three walks saved from the state the constructor leaves. *)
Example save_load_sample :
  loadWalks (saveWalks [walkLastYear; walkLastMonth; walkYesterday] idleWorld)
  = Normal (assign_walks [walkLastYear; walkLastMonth; walkYesterday]
              (saveWalks [walkLastYear; walkLastMonth; walkYesterday] idleWorld)).
Proof. vm_compute. reflexivity. Qed.

(** Three walks saved on a first visit, and read back on another page. *)
Lemma save_load_roundtrip_witness :
  let rs := [walkLastYear; walkLastMonth; walkYesterday] in
  let w := idleWorld in
  let saved := saveWalks rs w in
  walksArray saved = walksArray w ++ rs
  /\ (rs <> [] ->
      localStorage.getItem storageKey (storage saved)
      = Some (JSON.stringify (walksArray w ++ rs)))
  /\ (rs = [] -> storage saved = storage w)
  /\ (forall page : World,
         storage page = storage saved ->
         exists w',
           loadWalks page = Normal w'
           /\ walksArray w' = walksArray w ++ rs
           /\ storage w' = storage saved
           /\ (walksArray w = [] ->
               walksArray w' = rs /\ List.length (walksArray w') = List.length rs))
  /\ (exists j, JSON.parse (JSON.stringify rs) = Some j /\ JSON.walks_of_json j = Some rs).
Proof.
  apply (save_load_roundtrip [walkLastYear; walkLastMonth; walkYesterday] idleWorld).
  - unfold wf. simpl. lia.
  - reflexivity.
Defined.

(** The store after the three walks, opened by a page that holds no walk:
    the page gets the three walks. *)
Example save_load_other_page :
  let saved := saveWalks [walkLastYear; walkLastMonth; walkYesterday] idleWorld in
  let page := mkWorld (this idleWorld) (heap idleWorld) (storage saved) blankPage in
  walksArray page = []
  /\ match loadWalks page with
     | Normal w' => walksArray w' = [walkLastYear; walkLastMonth; walkYesterday]
     | _ => False
     end.
Proof. vm_compute. split; reflexivity. Qed.

(** C3, as the program has it.  [loadWalks] installs the empty array when
    nothing is stored under the key or the stored string is empty, and the
    stored array when the stored string is the text of an array of records
    (more generally, when it parses to one); the storage is left as it is.
    When the stored string does not parse, the SyntaxError of [JSON.parse]
    is not caught: [loadWalks] throws it, and so does [init]. *)
Theorem loadWalks_outcomes (w : World) :
  (localStorage.getItem storageKey (storage w) = None
   \/ localStorage.getItem storageKey (storage w) = Some EmptyString ->
   exists w', loadWalks w = Normal w' /\ walksArray w' = [] /\ storage w' = storage w)
  /\ (forall rs,
         localStorage.getItem storageKey (storage w) = Some (JSON.stringify rs) ->
         exists w', loadWalks w = Normal w' /\ walksArray w' = rs /\ storage w' = storage w)
  /\ (forall saved j rs,
         localStorage.getItem storageKey (storage w) = Some saved ->
         saved <> EmptyString ->
         JSON.parse saved = Some j ->
         JSON.walks_of_json j = Some rs ->
         exists w', loadWalks w = Normal w' /\ walksArray w' = rs /\ storage w' = storage w)
  /\ (forall saved,
         localStorage.getItem storageKey (storage w) = Some saved ->
         saved <> EmptyString ->
         JSON.parse saved = None ->
         loadWalks w = Throw SyntaxError
         /\ forall now, init now w = Throw SyntaxError).
Proof.
  split; [|split; [|split]].
  - intros [H|H]; unfold loadWalks; rewrite H; cbn [String.eqb];
      exists (assign_walks [] w);
      destruct (assign_walks_walksArray [] w) as (Ha & Hs & _); auto.
  - intros rs H. rewrite (loadWalks_stringify rs w H).
    exists (assign_walks rs w).
    destruct (assign_walks_walksArray rs w) as (Ha & Hs & _); auto.
  - intros saved j rs H Hne Hp Hj. unfold loadWalks. rewrite H.
    apply String.eqb_neq in Hne. rewrite Hne, Hp, Hj.
    exists (assign_walks rs w).
    destruct (assign_walks_walksArray rs w) as (Ha & Hs & _); auto.
  - intros saved H Hne Hp.
    assert (Hl : loadWalks w = Throw SyntaxError).
    { unfold loadWalks. rewrite H. apply String.eqb_neq in Hne. rewrite Hne, Hp. reflexivity. }
    split; [exact Hl|]. intros now. unfold init. rewrite Hl. reflexivity.
Qed.

(** Nothing stored; and a stored text cut off after its second character. *)
Lemma loadWalks_outcomes_witness :
  (exists w', loadWalks idleWorld = Normal w' /\ walksArray w' = []
              /\ storage w' = storage idleWorld)
  /\ (loadWalks (persistedWorld "[{") = Throw SyntaxError
      /\ forall now, init now (persistedWorld "[{") = Throw SyntaxError).
Proof.
  split.
  - apply (proj1 (loadWalks_outcomes idleWorld)). left. reflexivity.
  - apply (proj2 (proj2 (proj2 (loadWalks_outcomes (persistedWorld "[{")))) "[{"%string).
    + reflexivity.
    + discriminate.
    + reflexivity.
Defined.

(** C3 fails when the stored string does not parse: with the text "[{"
    under the key, deserialization fails, and [loadWalks] does not install
    the empty array but throws, as does the constructor that calls it. *)
Lemma loadWalks_corrupt_throws :
  JSON.parse "[{" = None
  /\ loadWalks (persistedWorld "[{") = Throw SyntaxError
  /\ (forall w', loadWalks (persistedWorld "[{") <> Normal w')
  /\ constructor (localStorage.setItem storageKey "[{" localStorage.empty) blankPage sampleNow
     = Throw SyntaxError.
Proof.
  split; [reflexivity|]. split; [reflexivity|]. split; [|reflexivity].
  intros w' H. discriminate H.
Qed.

(** ** Reachable worlds *)

(** The conjuncts of the invariant after a method that assigns some fields:
    each is an assumption, arithmetic, or follows from the conjunct on idle
    worlds. *)
Ltac invariant_fields :=
  unfold trackerInvariant; cbn; repeat split;
  try assumption; try lia; try congruence;
  try (match goal with
       | Hs : _ = false -> _ |- _ => apply Hs; assumption
       end).

(** A method that leaves the object alone and only adds arrays keeps the
    invariant. *)
Lemma invariant_frame (w w' : World) :
  this w' = this w -> extends (heap w) (heap w') -> invariant w -> invariant w'.
Proof.
  intros Ht He [Hwf Hinv]. split.
  - unfold wf in *. rewrite Ht. pose proof (extends_length _ _ He). lia.
  - rewrite Ht. exact Hinv.
Qed.

Lemma invariant_updateChart (now : Z) (w : World) : invariant w -> invariant (updateChart now w).
Proof.
  destruct (updateChart_frame now w) as (Ht & _ & He). apply invariant_frame; assumption.
Qed.

Lemma invariant_renderHistory (now : Z) (w : World) :
  invariant w -> invariant (renderHistory now w).
Proof.
  destruct (renderHistory_frame now w) as (Ht & _ & He). apply invariant_frame; assumption.
Qed.

Lemma invariant_updateHistoryStats (now : Z) (w : World) :
  invariant w -> invariant (updateHistoryStats now w).
Proof.
  destruct (updateHistoryStats_frame now w) as (Ht & _ & He). apply invariant_frame; assumption.
Qed.

Lemma invariant_constructor (ls : localStorage.t) (page : DOM) (now : Z) (w : World) :
  constructor ls page now = Normal w -> invariant w.
Proof.
  unfold constructor, heap_alloc, init. cbn [List.length List.app].
  set (w0 := mkWorld _ _ ls page).
  assert (Hload : forall w1, loadWalks w0 = Normal w1 -> invariant w1).
  { intros w1 H. unfold loadWalks in H.
    assert (Ha : forall a, invariant (assign_walks a w0)).
    { intros a. destruct (assign_walks_walksArray a w0) as (_ & _ & _ & Hwf).
      split; [exact Hwf|]. repeat split; intros; try reflexivity; simpl; lia. }
    destruct (localStorage.getItem storageKey (storage w0)) as [saved|].
    - destruct (String.eqb saved EmptyString); [injection H as <-; apply Ha|].
      destruct (JSON.parse saved) as [j|]; [|discriminate].
      destruct (JSON.walks_of_json j); [injection H as <-; apply Ha | discriminate].
    - injection H as <-. apply Ha. }
  destruct (loadWalks w0) as [w1| |]; try discriminate.
  intros H. injection H as <-.
  apply invariant_updateChart, invariant_renderHistory, Hload. reflexivity.
Qed.

Lemma invariant_stopTracking (now : Z) (w : World) : invariant w -> invariant (stopTracking now w).
Proof.
  intros [Hwf (Hb & Hm & Ht & Hl & Hc & _)]. unfold stopTracking.
  set (w2 := stopStepDetection _).
  assert (H2 : invariant w2).
  { split; [exact Hwf|]. invariant_fields. }
  set (r := mkWalk _ _ _ _).
  assert (H3 : invariant (if 1000 <? elapsedTime (this w2) then saveWalk r w2 else w2)).
  { destruct (1000 <? _); [|exact H2].
    destruct H2 as [Hwf2 Hinv2]. split; [apply saveWalk_wf; exact Hwf2 | exact Hinv2]. }
  exact H3.
Qed.

Lemma invariant_startTracking (perm : Permission) (hasDeviceMotion : bool) (now : Z) (w : World) :
  invariant w -> invariant (startTracking perm hasDeviceMotion now w).
Proof.
  intros Hinv.
  assert (Hstart : invariant
            (startStepDetection hasDeviceMotion
               (with_this (fun t =>
                  set_timerInterval true
                    (set_accelerationBuffer []
                      (set_stepCount 0
                        (set_elapsedTime 0
                          (set_startTime (Some now)
                            (set_isTracking true t)))))) w))).
  { destruct Hinv as [Hwf (Hb & Hm & Ht & Hl & Hc & Hs)].
    unfold startStepDetection. destruct hasDeviceMotion;
      (split; [exact Hwf|]); invariant_fields. }
  destruct perm; [exact Hstart | exact Hstart | exact Hinv | exact Hstart].
Qed.

Lemma invariant_registerStep (w : World) :
  invariant w -> isTracking (this w) = true -> invariant (registerStep w).
Proof.
  intros [Hwf (Hb & Hm & Ht & Hl & Hc & Hs)] Htr.
  split; [exact Hwf|]. invariant_fields.
Qed.

Lemma invariant_handleMotion (event : DeviceMotionEvent) (now : Z) (w : World) :
  invariant w -> invariant (handleMotion event now w).
Proof.
  intros Hinv.
  destruct (isTracking (this w)) eqn:Htr.
  2:{ rewrite handleMotion_inactive by (left; exact Htr). exact Hinv. }
  destruct (accelerationIncludingGravity event) as [a|] eqn:Ha.
  2:{ rewrite handleMotion_inactive by (right; exact Ha). exact Hinv. }
  destruct Hinv as [Hwf (Hb & Hm & Ht & Hl & Hc & Hs)].
  unfold handleMotion. rewrite Htr, Ha. cbn [negb].
  set (w1 := with_this _ w).
  assert (H1 : invariant w1).
  { pose proof (pushSample_length (accelerationBuffer (this w)) (magnitudeOf a) Hl).
    split; [exact Hwf|]. unfold trackerInvariant. cbn. rewrite Hb. invariant_fields. }
  destruct (_ && _)%bool; [|exact H1].
  pose proof (invariant_registerStep w1 H1 Htr) as [Hwf2 (Hb2 & Hm2 & Ht2 & Hl2 & Hc2 & Hs2)].
  split; [exact Hwf2|]. invariant_fields.
Qed.

Lemma invariant_deleteWalk (index now : Z) (w : World) :
  invariant w -> invariant (deleteWalk index now w).
Proof.
  intros [Hwf Hinv]. unfold deleteWalk.
  apply invariant_updateChart, invariant_renderHistory.
  split; [|exact Hinv]. unfold wf. cbn [this heap]. rewrite heap_write_length. exact Hwf.
Qed.

Lemma invariant_dispatch (e : Event) (w : World) : invariant w -> invariant (dispatch e w).
Proof.
  intros Hinv. destruct e; cbn [dispatch].
  - unfold toggleTracking. destruct (isTracking (this w)).
    + apply invariant_stopTracking. exact Hinv.
    + apply invariant_startTracking. exact Hinv.
  - destruct (timerInterval (this w)); [|exact Hinv].
    destruct Hinv as [Hwf (Hb & Hm & Ht & Hl & Hc & Hs)].
    split; [exact Hwf | invariant_fields].
  - destruct (motionHandler (this w)); [|exact Hinv].
    apply invariant_handleMotion. exact Hinv.
  - destruct (simulationInterval (this w)); [|exact Hinv].
    unfold simulationTick. destruct (isTracking (this w)) eqn:Htr; [|exact Hinv].
    cbn [andb]. destruct (PrimFloat.ltb _ _); [|exact Hinv].
    apply invariant_registerStep; assumption.
  - destruct Hinv as [Hwf Hi]. split; [exact Hwf | exact Hi].
  - apply invariant_updateChart, invariant_renderHistory. exact Hinv.
  - apply invariant_deleteWalk. exact Hinv.
  - unfold switchPeriod. apply invariant_updateHistoryStats, invariant_updateChart.
    destruct Hinv as [Hwf (Hb & Hm & Ht & Hl & Hc & Hs)].
    split; [exact Hwf | invariant_fields].
Qed.

(** Every reachable world satisfies the invariant: in particular the
    assumptions under which the properties of the motion handler and of
    [stopTracking] are stated hold whenever the program runs. *)
Theorem reachable_invariant (w : World) : reachable w -> invariant w.
Proof.
  induction 1 as [ls page now w H | e w _ IH].
  - exact (invariant_constructor ls page now w H).
  - apply invariant_dispatch. exact IH.
Qed.

Lemma reachableUnprompted_reachable (w : World) : reachableUnprompted w -> reachable w.
Proof.
  induction 1 as [ls page now w H | e w _ _ IH].
  - exact (reachable_new ls page now w H).
  - apply reachable_step. exact IH.
Qed.

(** X4.  On a platform that does not ask for the motion permission, no
    timer or listener is left installed outside a session: in a world the
    program can reach there and that is not tracking, a tick of the timer, a
    sensor event and a tick of the simulation all find nothing to run and
    change nothing. *)
Corollary idle_world_quiet (w : World) :
  reachableUnprompted w ->
  isTracking (this w) = false ->
  (timerInterval (this w) = false
   /\ motionHandler (this w) = false
   /\ simulationInterval (this w) = false)
  /\ (forall now, dispatch (TimerTick now) w = w)
  /\ (forall event now, dispatch (DeviceMotion event now) w = w)
  /\ (forall random, dispatch (SimulationTick random) w = w).
Proof.
  intros Hr Hidle.
  destruct (reachable_invariant w (reachableUnprompted_reachable w Hr))
    as [_ (_ & _ & _ & _ & _ & Hs)].
  destruct (Hs Hidle) as (Ht & Hm & Hsim).
  split; [repeat split; assumption|].
  repeat split; intros; cbn [dispatch].
  - rewrite Ht. reflexivity.
  - rewrite Hm. reflexivity.
  - rewrite Hsim. reflexivity.
Qed.

(** A walk started and stopped again on a first visit. *)
Lemma idle_world_quiet_witness :
  let w := dispatch (ControlClick NotRequired true 900)
             (dispatch (ControlClick NotRequired true 0) freshWorld) in
  (timerInterval (this w) = false
   /\ motionHandler (this w) = false
   /\ simulationInterval (this w) = false)
  /\ (forall now, dispatch (TimerTick now) w = w)
  /\ (forall event now, dispatch (DeviceMotion event now) w = w)
  /\ (forall random, dispatch (SimulationTick random) w = w).
Proof.
  apply (idle_world_quiet
           (dispatch (ControlClick NotRequired true 900)
              (dispatch (ControlClick NotRequired true 0) freshWorld))).
  - apply unprompted_step; [reflexivity|].
    apply unprompted_step; [reflexivity|].
    apply (unprompted_new localStorage.empty blankPage 0). reflexivity.
  - reflexivity.
Defined.

(** X5.  In every reachable world the buffer holds at most four values, and the
    steps a stream of sensor events registers from it are more than 250 ms
    apart from one another and from the last step before. *)
Corollary reachable_signal_filter (w : World) (samples : list (DeviceMotionEvent * Z)) :
  reachable w ->
  (List.length (accelerationBuffer (this (processMotion samples w))) <= 4)%nat
  /\ StronglySorted (apart 250) (lastStepTime (this w) :: stepTimes samples w).
Proof.
  intros Hr. destruct (reachable_invariant w Hr) as [_ (Hb & Hm & _ & Hl & _)].
  split.
  - apply processMotion_buffer; assumption.
  - destruct (stepTimes_apart samples w) as [Hf Hs]; [lia|].
    rewrite Hm in Hf, Hs. constructor; assumption.
Qed.

(** A walk started on a first visit, and three strong samples. *)
Lemma reachable_signal_filter_witness :
  let w := dispatch (ControlClick Granted true 0) freshWorld in
  let samples := [(strongSample, 1000); (strongSample, 1100); (strongSample, 1300)] in
  (List.length (accelerationBuffer (this (processMotion samples w))) <= 4)%nat
  /\ StronglySorted (apart 250) (lastStepTime (this w) :: stepTimes samples w).
Proof.
  apply (reachable_signal_filter
           (dispatch (ControlClick Granted true 0) freshWorld)
           [(strongSample, 1000); (strongSample, 1100); (strongSample, 1300)]).
  apply reachable_step.
  apply (reachable_new localStorage.empty blankPage 0). reflexivity.
Defined.
(** ** Dates of recorded walks *)

(** X9.  Within the years 0 to 9999 the string [toISOString] writes for a
    time value is read back by [Date.parse] as that time value; so two
    different time values are never written as the same string, and walks
    stopped at different milliseconds have different dates. *)
Theorem parse_toISOString (t : Z) :
  -62167219200000 <= t <= 253402300799999 ->
  Date.parse (Date.toISOString t) = Some t
  /\ (forall t' : Z,
         -62167219200000 <= t' <= 253402300799999 ->
         Date.toISOString t' = Date.toISOString t -> t' = t).
Proof.
  intros Ht. split; [exact (toISOString_read_back t Ht)|].
  intros t' Ht' E.
  pose proof (toISOString_read_back t' Ht') as H'.
  rewrite E, (toISOString_read_back t Ht) in H'. congruence.
Qed.

(** The clock reading 2024-02-29T12:34:56.789Z. *)
Lemma parse_toISOString_witness :
  Date.parse (Date.toISOString sampleNow) = Some sampleNow
  /\ (forall t' : Z,
         -62167219200000 <= t' <= 253402300799999 ->
         Date.toISOString t' = Date.toISOString sampleNow -> t' = sampleNow).
Proof.
  apply (parse_toISOString sampleNow). unfold sampleNow. lia.
Defined.

(** X10.  A walk that [stopTracking] records at the clock reading [t] (in
    the years 0 to 9999) is dated [t]; the week shows it at every clock
    reading up to 7 x 24 hours after [t] and at none after that, the month
    likewise for 30 x 24 hours. *)
Theorem recorded_walk_shown (t later : Z) (w : World) :
  wf w ->
  1000 < elapsedTime (this w) ->
  -62167219200000 <= t <= 253402300799999 ->
  exists r,
    walksArray (stopTracking t w) = walksArray w ++ [r]
    /\ dateValue r = Some t
    /\ (In r (filteredBy "week" later (walksArray (stopTracking t w))) <-> later <= t + weekMs)
    /\ (In r (filteredBy "month" later (walksArray (stopTracking t w))) <-> later <= t + monthMs).
Proof.
  intros Hwf Hlong Ht.
  destruct (stopTracking_saved t w Hlong Hwf) as [Hsaved _].
  eexists. split; [exact Hsaved|]. rewrite Hsaved.
  assert (Hd : forall r, date r = Date.toISOString t -> dateValue r = Some t).
  { intros r Hr. unfold dateValue. rewrite Hr. apply toISOString_read_back. exact Ht. }
  split; [apply Hd; reflexivity|].
  unfold filteredBy. cbn [String.eqb Ascii.eqb Bool.eqb].
  split; rewrite filter_In, in_app_iff; unfold notBefore; cbn [date];
    rewrite (toISOString_read_back t Ht), Z.leb_le;
    (split; [intros [_ H]; lia | intros H; split; [right; left; reflexivity | lia]]).
Qed.

(** A walk of 65 seconds stopped at the sample clock reading. *)
Lemma recorded_walk_shown_witness :
  exists r,
    walksArray (stopTracking sampleNow (walkingWorld (sampleNow - 65000) 65000 130))
    = walksArray (walkingWorld (sampleNow - 65000) 65000 130) ++ [r]
    /\ dateValue r = Some sampleNow
    /\ (In r (filteredBy "week" (sampleNow + 1000)
                (walksArray (stopTracking sampleNow (walkingWorld (sampleNow - 65000) 65000 130))))
        <-> sampleNow + 1000 <= sampleNow + weekMs)
    /\ (In r (filteredBy "month" (sampleNow + 1000)
                (walksArray (stopTracking sampleNow (walkingWorld (sampleNow - 65000) 65000 130))))
        <-> sampleNow + 1000 <= sampleNow + monthMs).
Proof.
  apply (recorded_walk_shown sampleNow (sampleNow + 1000)
           (walkingWorld (sampleNow - 65000) 65000 130)).
  - unfold wf. simpl. lia.
  - simpl. lia.
  - unfold sampleNow. lia.
Defined.

(** ** Sessions in simulation mode, and the rate of steps *)




(** The same session evaluated: three steps in 2.2 seconds. *)
Example simulated_session_sample :
  walksArray (stopTracking 2300
                (updateTimer 2200
                   (simulate [0.5; 0.05; 0.9; 0.3]%float
                      (startTracking NotRequired false 0 idleWorld))))
  = [mkWalk "1970-01-01T00:00:02.300Z" 2200 3 818].
Proof. vm_compute. reflexivity. Qed.

(** The steps a stream registers are registered at clock readings of the
    stream. *)
Lemma stepTimes_clock (samples : list (DeviceMotionEvent * Z)) (T : Z) :
  Forall (fun s => snd s <= T) samples ->
  forall w : World, Forall (fun t => t <= T) (stepTimes samples w).
Proof.
  induction 1 as [|[e t] rest Ht _ IH]; intros w; cbn [stepTimes]; [constructor|].
  destruct (stepped w (handleMotion e t w)); [constructor; [exact Ht|]|]; apply IH.
Qed.

(** Times that are more than [gap] apart, from [t0] on and up to [T]: there
    is room for fewer than [(T - t0) / gap] of them. *)
Lemma apart_count (gap T : Z) (l : list Z) :
  0 <= gap ->
  forall t0,
    StronglySorted (apart gap) (t0 :: l) ->
    Forall (fun t => t <= T) l ->
    l = [] \/ Z.of_nat (List.length l) * gap < T - t0.
Proof.
  intros Hgap. induction l as [|t l IH]; intros t0 Hs Hb; [left; reflexivity|].
  right. inversion Hs as [|? ? Hs' Hf]; subst.
  inversion Hb as [|? ? Ht Hb']; subst.
  inversion Hf as [|? ? Hap _]; subst. unfold apart in Hap.
  destruct (IH t Hs' Hb') as [->|Hn].
  - cbn [List.length]. lia.
  - cbn [List.length]. rewrite Nat2Z.inj_succ. unfold Z.succ.
    rewrite Z.mul_add_distr_r. lia.
Qed.

(** X6.  The debounce bounds the rate of steps.  However the sensor
    behaves, the steps registered from clock readings up to [T] number fewer
    than [(T - lastStepTime) / minStepInterval]: with the 250 ms of the
    constructor, fewer than four steps for each second since the step
    before. *)
Theorem step_rate_bounded (samples : list (DeviceMotionEvent * Z)) (w : World) (T : Z) :
  0 <= minStepInterval (this w) ->
  Forall (fun s => snd s <= T) samples ->
  let n := Z.of_nat (List.length (stepTimes samples w)) in
  stepCount (this (processMotion samples w)) = stepCount (this w) + n
  /\ (n = 0 \/ n * minStepInterval (this w) < T - lastStepTime (this w)).
Proof.
  intros Hgap Hclock n. split.
  - apply processMotion_spec.
  - destruct (stepTimes_apart samples w Hgap) as [Hf Hs].
    destruct (apart_count (minStepInterval (this w)) T (stepTimes samples w) Hgap
                (lastStepTime (this w)))
      as [Hnil|Hlt].
    + constructor; assumption.
    + apply stepTimes_clock. exact Hclock.
    + left. unfold n. rewrite Hnil. reflexivity.
    + right. exact Hlt.
Qed.

(** Strong samples every 100 ms for a second: fewer than four steps. *)
Lemma step_rate_bounded_witness :
  let samples :=
    map (fun t => (strongSample, t)) [1000; 1100; 1200; 1300; 1400; 1500; 1600; 1700; 1800; 1900; 2000] in
  let w := with_this (set_lastStepTime 1000) (walkingWorld 0 0 0) in
  let n := Z.of_nat (List.length (stepTimes samples w)) in
  stepCount (this (processMotion samples w)) = stepCount (this w) + n
  /\ (n = 0 \/ n * minStepInterval (this w) < 2000 - lastStepTime (this w)).
Proof.
  apply (step_rate_bounded
           (map (fun t => (strongSample, t))
              [1000; 1100; 1200; 1300; 1400; 1500; 1600; 1700; 1800; 1900; 2000])
           (with_this (set_lastStepTime 1000) (walkingWorld 0 0 0)) 2000).
  - simpl. lia.
  - repeat constructor; simpl; lia.
Defined.

(** ** The store across events and reloads *)

(** The world of a first visit: nothing persisted, the blank page. *)
Lemma constructor_freshWorld : constructor localStorage.empty blankPage 0 = Normal freshWorld.
Proof. reflexivity. Qed.

Lemma walksArray_frame (w w' : World) :
  wf w ->
  walks (this w') = walks (this w) ->
  extends (heap w) (heap w') ->
  walksArray w' = walksArray w.
Proof.
  intros Hwf Hw He. unfold walksArray. rewrite Hw. apply extends_read; assumption.
Qed.

(** What [stopTracking] does to the store. *)
Lemma stopTracking_store (now : Z) (w : World) :
  (storage (stopTracking now w) = storage w /\ heap (stopTracking now w) = heap w)
  \/ storage (stopTracking now w)
     = localStorage.setItem storageKey (JSON.stringify (walksArray (stopTracking now w)))
         (storage w).
Proof.
  unfold stopTracking.
  cbn [stopStepDetection with_this this elapsedTime stepCount set_simulationInterval
       set_motionHandler set_timerInterval set_isTracking].
  destruct (1000 <? elapsedTime (this w)); [right | left; split]; reflexivity.
Qed.

(** What an event can do to the walk array and the store: leave both, or
    write the text of the array under the key. *)
Lemma dispatch_store (e : Event) (w : World) :
  wf w ->
  let w' := dispatch e w in
  (storage w' = storage w /\ walksArray w' = walksArray w)
  \/ storage w'
     = localStorage.setItem storageKey (JSON.stringify (walksArray w')) (storage w).
Proof.
  intros Hwf w'. unfold w'. destruct e; cbn [dispatch].
  - unfold toggleTracking. destruct (isTracking (this w)).
    + destruct (stopTracking_store now w) as [[Hs Hh]|Hs]; [left | right; exact Hs].
      split; [exact Hs|]. unfold walksArray. rewrite stopTracking_walks, Hh. reflexivity.
    + left. unfold startTracking, startStepDetection.
      destruct perm, hasDeviceMotion; split; reflexivity.
  - left. destruct (timerInterval (this w)); split; reflexivity.
  - left. destruct (motionHandler (this w)); [|split; reflexivity].
    destruct (handleMotion_constants event now w) as (_ & _ & _ & _ & Hw & Hh & Hs).
    split; [exact Hs|]. unfold walksArray. rewrite Hw, Hh. reflexivity.
  - left. destruct (simulationInterval (this w)); [|split; reflexivity].
    unfold simulationTick. destruct (_ && _)%bool; split; reflexivity.
  - left. split; reflexivity.
  - left.
    destruct (renderHistory_frame now w) as (Ht1 & Hs1 & He1).
    destruct (updateChart_frame now (renderHistory now w)) as (Ht2 & Hs2 & He2).
    split; [rewrite Hs2; exact Hs1|].
    apply walksArray_frame; [exact Hwf | rewrite Ht2, Ht1; reflexivity|].
    eapply extends_trans; eassumption.
  - right.
    destruct (deleteWalk_spec index now w Hwf) as (Ha & _).
    rewrite Ha. unfold deleteWalk.
    set (h := heap_write (heap w) (walks (this w)) (Array.splice1 (walksArray w) index)).
    set (w1 := mkWorld (this w) h _ (dom w)).
    destruct (renderHistory_frame now w1) as (_ & Hs1 & _).
    destruct (updateChart_frame now (renderHistory now w1)) as (_ & Hs2 & _).
    rewrite Hs2, Hs1. unfold w1, h. cbn [storage].
    rewrite heap_read_write_same by exact Hwf. reflexivity.
  - left. unfold switchPeriod.
    set (w1 := with_this (set_currentPeriod period) w).
    destruct (updateChart_frame now w1) as (Ht1 & Hs1 & He1).
    destruct (updateHistoryStats_frame now (updateChart now w1)) as (Ht2 & Hs2 & He2).
    split; [rewrite Hs2, Hs1; reflexivity|].
    apply walksArray_frame; [exact Hwf | rewrite Ht2, Ht1; reflexivity|].
    change (heap w) with (heap w1). eapply extends_trans; eassumption.
Qed.

(** The text [JSON.stringify] writes is read by [loadWalks] as the array. *)
Lemma storedWalks_setItem (a : list WalkRecord) (ls : localStorage.t) :
  storedWalks (localStorage.setItem storageKey (JSON.stringify a) ls) = Some a.
Proof.
  unfold storedWalks, localStorage.getItem, localStorage.setItem.
  rewrite String.eqb_refl, stringify_nonempty, parse_stringify. apply walks_of_json_of_walks.
Qed.

Lemma loadWalks_storedWalks (w : World) :
  match storedWalks (storage w) with
  | Some a => loadWalks w = Normal (assign_walks a w)
  | None => forall w', loadWalks w <> Normal w'
  end.
Proof.
  unfold storedWalks, loadWalks.
  destruct (localStorage.getItem storageKey (storage w)) as [saved|]; [|reflexivity].
  destruct (String.eqb saved EmptyString); [reflexivity|].
  destruct (JSON.parse saved) as [j|]; [|discriminate].
  destruct (JSON.walks_of_json j); [reflexivity | discriminate].
Qed.

(** The constructor completes exactly when the store holds an array of
    records (or nothing), and then installs that array and leaves the store
    as it is. *)
Lemma constructor_storedWalks (ls : localStorage.t) (page : DOM) (now : Z) :
  match storedWalks ls with
  | Some a =>
      exists w, constructor ls page now = Normal w /\ walksArray w = a /\ storage w = ls
  | None => forall w, constructor ls page now <> Normal w
  end.
Proof.
  unfold constructor, heap_alloc, init. cbn [List.length List.app].
  set (w0 := mkWorld _ _ ls page).
  pose proof (loadWalks_storedWalks w0) as Hl. change (storage w0) with ls in Hl.
  destruct (storedWalks ls) as [a|].
  - rewrite Hl.
    destruct (assign_walks_walksArray a w0) as (Ha & Hs & _ & Hwf).
    set (w1 := assign_walks a w0) in *.
    destruct (renderHistory_frame now w1) as (Ht1 & Hs1 & He1).
    destruct (updateChart_frame now (renderHistory now w1)) as (Ht2 & Hs2 & He2).
    eexists. split; [reflexivity|]. split.
    + rewrite <- Ha. apply walksArray_frame; [exact Hwf | rewrite Ht2, Ht1; reflexivity|].
      eapply extends_trans; eassumption.
    + rewrite Hs2, Hs1, Hs. reflexivity.
  - intros w H. destruct (loadWalks w0) as [w1| |] eqn:E; try discriminate.
    exact (Hl w1 eq_refl).
Qed.

(** In every reachable world the store holds the walk array. *)
Lemma reachable_stored (w : World) : reachable w -> storedWalks (storage w) = Some (walksArray w).
Proof.
  induction 1 as [ls page now w H | e w Hr IH].
  - pose proof (constructor_storedWalks ls page now) as Hc.
    destruct (storedWalks ls) as [a|] eqn:E.
    + destruct Hc as (w' & Hw' & Ha & Hs). rewrite H in Hw'. injection Hw' as <-.
      rewrite Hs, Ha. exact E.
    + exfalso. exact (Hc w H).
  - destruct (reachable_invariant w Hr) as [Hwf _].
    destruct (dispatch_store e w Hwf) as [[Hs Ha]|Hs].
    + rewrite Hs, Ha. exact IH.
    + rewrite Hs. apply storedWalks_setItem.
Qed.

(** X7.  Whatever the user has done, the store holds the walks the object
    holds: opening the page again on the store of a reachable world
    completes, and installs the same walks in the same order. *)
Theorem reload_restores_walks (w : World) (page : DOM) (now : Z) :
  reachable w ->
  exists w', constructor (storage w) page now = Normal w' /\ walksArray w' = walksArray w.
Proof.
  intros Hr.
  pose proof (constructor_storedWalks (storage w) page now) as Hc.
  rewrite (reachable_stored w Hr) in Hc.
  destruct Hc as (w' & Hw' & Ha & _). exists w'. split; assumption.
Qed.

(** A first visit, a walk of five seconds counted by the simulation, and
    the page opened again. *)
Lemma reload_restores_walks_witness :
  let w := run [ControlClick NotRequired false 1000; SimulationTick 0.5; TimerTick 6000;
                ControlClick NotRequired false 6100] freshWorld in
  exists w', constructor (storage w) blankPage 7000 = Normal w' /\ walksArray w' = walksArray w.
Proof.
  apply (reload_restores_walks
           (run [ControlClick NotRequired false 1000; SimulationTick 0.5; TimerTick 6000;
                 ControlClick NotRequired false 6100] freshWorld) blankPage 7000).
  unfold run. cbn [fold_left].
  repeat apply reachable_step.
  apply (reachable_new localStorage.empty blankPage 0). reflexivity.
Defined.

(** X8.  The program uses one key of [localStorage]: no event changes what
    is stored under any other key. *)
Theorem other_keys_untouched (w : World) :
  wf w ->
  forall (e : Event) (key : string),
    String.eqb key storageKey = false ->
    localStorage.getItem key (storage (dispatch e w)) = localStorage.getItem key (storage w).
Proof.
  intros Hwf e key Hkey.
  destruct (dispatch_store e w Hwf) as [[Hs _]|Hs]; rewrite Hs; [reflexivity|].
  unfold localStorage.getItem, localStorage.setItem. rewrite Hkey. reflexivity.
Qed.

(** A walk deleted, and the key of some other program. *)
Lemma other_keys_untouched_witness :
  localStorage.getItem "theme"
    (storage (dispatch (SwipeDelete 0 sampleNow) (storedWorld [walkYesterday] "week")))
  = localStorage.getItem "theme" (storage (storedWorld [walkYesterday] "week")).
Proof.
  apply (other_keys_untouched (storedWorld [walkYesterday] "week")).
  - unfold wf. simpl. lia.
  - reflexivity.
Defined.

(** ** Sorting, searching and [parseInt] *)

Section Sort.
Context {A : Type}.
Variable comparefn : A -> A -> option Z.

Lemma insert_perm (x : A) (l : list A) : Permutation (insert comparefn x l) (x :: l).
Proof.
  induction l as [|y l IH]; cbn [insert]; [reflexivity|].
  destruct (notAfter comparefn x y); [reflexivity|].
  rewrite IH. apply perm_swap.
Qed.

(** [sort] rearranges and neither drops nor repeats. *)
Lemma sort_perm (l : list A) : Permutation (sort comparefn l) l.
Proof.
  induction l as [|x l IH]; [reflexivity|].
  change (sort comparefn (x :: l)) with (insert comparefn x (sort comparefn l)).
  rewrite insert_perm, IH. reflexivity.
Qed.

Lemma sort_length (l : list A) : List.length (sort comparefn l) = List.length l.
Proof. apply Permutation_length, sort_perm. Qed.

(** Where the comparator is the difference of a key, the result is in the
    order of the key. *)
Variable key : A -> Z.

Lemma insert_sorted (x : A) (l : list A) :
  (forall y, In y l -> notAfter comparefn x y = (key x <=? key y)) ->
  StronglySorted (fun a b => key a <= key b) l ->
  StronglySorted (fun a b => key a <= key b) (insert comparefn x l).
Proof.
  intros Hc Hs. induction Hs as [|y l Hs IH Hf]; cbn [insert].
  - constructor; constructor.
  - rewrite (Hc y (or_introl eq_refl)).
    destruct (key x <=? key y) eqn:E.
    + apply Z.leb_le in E. constructor; [constructor; assumption|].
      constructor; [exact E|].
      eapply Forall_impl; [|exact Hf]. cbv beta. intros; lia.
    + apply Z.leb_gt in E. constructor.
      * apply IH. intros z Hz. apply Hc. right. exact Hz.
      * rewrite (insert_perm x l). constructor; [lia | exact Hf].
Qed.

Lemma sort_sorted (l : list A) :
  (forall x y, In x l -> In y l -> notAfter comparefn x y = (key x <=? key y)) ->
  StronglySorted (fun a b => key a <= key b) (sort comparefn l).
Proof.
  induction l as [|x l IH]; intros Hc; [constructor|].
  change (sort comparefn (x :: l)) with (insert comparefn x (sort comparefn l)).
  apply insert_sorted.
  - intros y Hy. apply Hc; [left; reflexivity|].
    right. apply (Permutation_in _ (sort_perm l)). exact Hy.
  - apply IH. intros a b Ha Hb. apply Hc; right; assumption.
Qed.

(** An array already in order is left as it is. *)
Lemma sort_of_sorted (l : list A) :
  StronglySorted (fun a b => notAfter comparefn a b = true) l -> sort comparefn l = l.
Proof.
  induction 1 as [|x l Hs IH Hf]; [reflexivity|].
  change (sort comparefn (x :: l)) with (insert comparefn x (sort comparefn l)).
  rewrite IH. destruct l as [|y l]; [reflexivity|].
  cbn [insert]. inversion Hf as [|? ? Hxy _]; subst. rewrite Hxy. reflexivity.
Qed.

End Sort.

Lemma findIndex_from_found {A : Type} (p : A -> bool) (a : list A) :
  forall k : Z,
    (exists x, In x a /\ p x = true) ->
    exists (i : nat) (x : A),
      findIndex_from p a k = k + Z.of_nat i
      /\ nth_error a i = Some x
      /\ p x = true
      /\ (forall j y, (j < i)%nat -> nth_error a j = Some y -> p y = false).
Proof.
  induction a as [|y a IH]; intros k (x & Hin & Hp); [destruct Hin|].
  cbn [findIndex_from]. destruct (p y) eqn:E.
  - exists 0%nat, y. repeat split; [lia | exact E | intros; lia].
  - destruct (IH (k + 1)) as (i & x' & Hi & Hn & Hp' & Hfirst).
    { exists x. split; [|exact Hp]. destruct Hin as [->|H]; [congruence | exact H]. }
    exists (S i), x'. repeat split; [lia | exact Hn | exact Hp' |].
    intros [|j] z Hj Hz; cbn [nth_error] in Hz.
    + injection Hz as <-. exact E.
    + apply (Hfirst j z); [lia | exact Hz].
Qed.

(** A numeral that starts with 0 is 0. *)
Lemma N_toString_zero (n : N) (c : ascii) (r : string) :
  N_toString n = String "0" (String c r) -> False.
Proof.
  rewrite N_toString_numeral. pose proof (to_uint_int_part n) as H.
  destruct (N.to_uint n) as [|d|d|d|d|d|d|d|d|d|d];
    cbn [NilEmpty.string_of_uint]; try discriminate.
  cbn [JSON.int_part_ok] in H. destruct d; try discriminate H.
  discriminate.
Qed.

Lemma append_empty (s : string) : (s ++ "")%string = s.
Proof. induction s as [|c s IH]; [reflexivity|]. cbn [String.append]. rewrite IH. reflexivity. Qed.

Lemma scan_decimal_numeral (n : N) : scan_decimal (N_toString n) = Some n.
Proof.
  unfold scan_decimal. rewrite N_toString_numeral.
  pose proof (scan_digits_numeral (N.to_uint n) EmptyString eq_refl) as H.
  rewrite append_empty in H. rewrite H.
  pose proof (to_uint_nonnil n) as Hn.
  destruct (N.to_uint n) eqn:En; try congruence; cbn [JSON.is_nil];
    rewrite <- En, DecimalN.Unsigned.of_to; reflexivity.
Qed.

Lemma numeral_head (n : N) :
  exists c r, N_toString n = String c r /\ JSON.digit_of_char c <> None.
Proof.
  rewrite N_toString_numeral. pose proof (to_uint_nonnil n) as Hd.
  destruct (N.to_uint n); try congruence;
    cbn [NilEmpty.string_of_uint]; eexists; eexists; (split; [reflexivity | discriminate]).
Qed.

Lemma parseInt_digits_numeral (n : N) : parseInt_digits (N_toString n) = Some n.
Proof.
  unfold parseInt_digits.
  pose proof (N_toString_zero n) as Hz.
  pose proof (scan_decimal_numeral n) as Hd.
  destruct (N_toString n) as [|c [|c' r]].
  - exact Hd.
  - rewrite <- Hd. destruct c as [b0 b1 b2 b3 b4 b5 b6 b7].
    destruct b0, b1, b2, b3, b4, b5, b6, b7; reflexivity.
  - destruct (Ascii.eqb_spec c "0") as [->|Hc].
    + exfalso. exact (Hz c' r eq_refl).
    + rewrite <- Hd. destruct c as [b0 b1 b2 b3 b4 b5 b6 b7].
      destruct b0, b1, b2, b3, b4, b5, b6, b7; try reflexivity. congruence.
Qed.

(** The index written into an entry is read back by the handler. *)
Lemma parseInt_toString (z : Z) : parseInt (Z_toString z) = Some z.
Proof.
  assert (Hn : forall n, parseInt (N_toString n) = Some (Z.of_N n)).
  { intros n. unfold parseInt.
    destruct (numeral_head n) as (c & r & Hs & Hc).
    assert (E : (let s1 := trimStart (N_toString n) in
                 match s1 with
                 | String "-" r => (true, r)
                 | String "+" r => (false, r)
                 | _ => (false, s1)
                 end) = (false, N_toString n)).
    { rewrite Hs. destruct c as [b0 b1 b2 b3 b4 b5 b6 b7].
      destruct b0, b1, b2, b3, b4, b5, b6, b7;
        try (exfalso; apply Hc; reflexivity); reflexivity. }
    cbv zeta in E |- *. rewrite E, parseInt_digits_numeral. reflexivity. }
  destruct z as [|p|p]; unfold Z_toString.
  - reflexivity.
  - apply Hn.
  - unfold parseInt. cbn [trimStart].
    change (is_StrWhiteSpaceChar "-") with false. cbv iota.
    rewrite parseInt_digits_numeral. reflexivity.
Qed.

(** ** The history list *)

Lemma notBefore_valid (limit : Z) (r : WalkRecord) : notBefore limit r = true -> validDate r.
Proof.
  unfold notBefore, validDate, dateValue. destruct (Date.parse (date r)); [discriminate|].
  discriminate.
Qed.

(** The walks of a week or of a month have valid dates; the walks of every
    period are walks of the array. *)
Lemma filteredBy_valid (period : string) (now : Z) (a : list WalkRecord) :
  period = "week"%string \/ period = "month"%string \/ Forall validDate a ->
  Forall validDate (filteredBy period now a).
Proof.
  unfold filteredBy. intros [->|[->|H]].
  - cbn [String.eqb Ascii.eqb Bool.eqb]. apply Forall_forall. intros r Hr.
    apply filter_In in Hr. eapply notBefore_valid. exact (proj2 Hr).
  - cbn [String.eqb Ascii.eqb Bool.eqb]. apply Forall_forall. intros r Hr.
    apply filter_In in Hr. eapply notBefore_valid. exact (proj2 Hr).
  - destruct (String.eqb period "week"); [|destruct (String.eqb period "month")];
      try exact H; apply Forall_forall; intros r Hr; apply filter_In in Hr;
      exact (proj1 (Forall_forall _ _) H r (proj1 Hr)).
Qed.

Lemma filteredBy_incl (period : string) (now : Z) (a : list WalkRecord) (r : WalkRecord) :
  In r (filteredBy period now a) -> In r a.
Proof.
  unfold filteredBy.
  destruct (String.eqb period "week"); [|destruct (String.eqb period "month")];
    intros H; try exact H; apply filter_In in H; exact (proj1 H).
Qed.

Lemma dateDifference_valid (a b : WalkRecord) :
  validDate a -> validDate b -> dateDifference a b = Some (timeOf a - timeOf b).
Proof.
  unfold validDate, dateDifference, timeOf.
  destruct (dateValue a), (dateValue b); congruence.
Qed.

Lemma byDate_timeOf (a b : WalkRecord) :
  validDate a -> validDate b -> timeOf a <= timeOf b -> byDate a b.
Proof.
  unfold validDate, byDate, timeOf.
  destruct (dateValue a), (dateValue b); congruence.
Qed.

Lemma sorted_byDate (key : WalkRecord -> Z) (R : WalkRecord -> WalkRecord -> Prop)
  (l : list WalkRecord) :
  (forall a b, validDate a -> validDate b -> key a <= key b -> R a b) ->
  Forall validDate l ->
  StronglySorted (fun a b => key a <= key b) l ->
  StronglySorted R l.
Proof.
  intros HR Hv Hs. induction Hs as [|x l Hs IH Hf]; [constructor|].
  inversion Hv as [|? ? Hx Hl]; subst. constructor; [apply IH; exact Hl|].
  apply Forall_forall. intros y Hy. apply HR.
  - exact Hx.
  - exact (proj1 (Forall_forall _ _) Hl y Hy).
  - exact (proj1 (Forall_forall _ _) Hf y Hy).
Qed.

(** Walks with valid dates, sorted with the comparator of the chart: the
    same walks, the earlier first. *)
Lemma sort_ascending (l : list WalkRecord) :
  Forall validDate l ->
  Permutation (sort dateDifference l) l
  /\ StronglySorted byDate (sort dateDifference l).
Proof.
  intros Hv. split; [apply sort_perm|].
  apply (sorted_byDate timeOf).
  - exact byDate_timeOf.
  - apply Forall_forall. intros x Hx.
    apply (proj1 (Forall_forall _ _) Hv). apply (Permutation_in _ (sort_perm dateDifference l)). exact Hx.
  - apply sort_sorted. intros x y Hx Hy. unfold notAfter.
    rewrite dateDifference_valid by (apply (proj1 (Forall_forall _ _) Hv); assumption).
    destruct (Z.leb_spec (timeOf x - timeOf y) 0), (Z.leb_spec (timeOf x) (timeOf y));
      try reflexivity; lia.
Qed.

(** And with the comparator of the history list: the later first. *)
Lemma sort_descending (l : list WalkRecord) :
  Forall validDate l ->
  Permutation (sort (fun a b => dateDifference b a) l) l
  /\ StronglySorted (fun a b => byDate b a) (sort (fun a b => dateDifference b a) l).
Proof.
  intros Hv. split; [apply sort_perm|].
  apply (sorted_byDate (fun r => - timeOf r)).
  - intros a b Ha Hb Hab. apply byDate_timeOf; [assumption | assumption | lia].
  - apply Forall_forall. intros x Hx.
    apply (proj1 (Forall_forall _ _) Hv).
    apply (Permutation_in _ (sort_perm (fun a b => dateDifference b a) l)). exact Hx.
  - apply sort_sorted. intros x y Hx Hy. unfold notAfter.
    rewrite dateDifference_valid by (apply (proj1 (Forall_forall _ _) Hv); assumption).
    destruct (Z.leb_spec (timeOf y - timeOf x) 0), (Z.leb_spec (- timeOf x) (- timeOf y));
      try reflexivity; lia.
Qed.

(** What [getFilteredWalks] returns, and the walk array after it. *)
Lemma getFilteredWalks_read (now : Z) (w : World) :
  wf w ->
  let '(p, w1) := getFilteredWalks now w in
  heap_read (heap w1) p = filteredBy (currentPeriod (this w)) now (walksArray w)
  /\ walksArray w1 = walksArray w
  /\ this w1 = this w
  /\ dom w1 = dom w
  /\ wf w1.
Proof.
  intros Hwf.
  destruct (getFilteredWalks_spec now w) as (Hr & Hp & He & Ht & _ & Hd).
  destruct (getFilteredWalks now w) as [p w1]. cbn [fst snd] in *.
  repeat split; try assumption.
  - apply walksArray_frame; [exact Hwf | rewrite Ht; reflexivity | exact He].
  - unfold wf in *. rewrite Ht. pose proof (extends_length _ _ He). lia.
Qed.

(** X12.  The history list shows the empty state exactly when the period
    has no walk.  Otherwise it has one entry for each walk of the period,
    each walk once, the latest first.  In the period [all] this needs every
    stored date to be a valid one. *)
Theorem history_newest_first (now : Z) (w : World) :
  wf w ->
  currentPeriod (this w) = "week"%string \/ currentPeriod (this w) = "month"%string
  \/ Forall validDate (walksArray w) ->
  let shown := filteredBy (currentPeriod (this w)) now (walksArray w) in
  (shown = [] <-> historyList now w = EmptyState)
  /\ (shown <> [] ->
      exists sorted,
        historyList now w = Items (map (historyItem (walksArray w)) sorted)
        /\ Permutation sorted shown
        /\ StronglySorted (fun a b => byDate b a) sorted
        /\ List.length sorted = List.length shown
        /\ sorted <> []).
Proof.
  intros Hwf Hperiod shown.
  pose proof (filteredBy_valid _ now _ Hperiod) as Hv. fold shown in Hv.
  pose proof (getFilteredWalks_read now w Hwf) as Hg.
  assert (Hlist : historyList now w
                  = if (List.length shown =? 0)%nat then EmptyState
                    else Items (map (historyItem (walksArray w))
                                  (sort (fun a b => dateDifference b a) shown))).
  { unfold historyList. destruct (getFilteredWalks now w) as [p w1].
    destruct Hg as (Hr & Ha & _). fold shown in Hr. rewrite Hr, Ha. reflexivity. }
  rewrite Hlist. destruct (sort_descending shown Hv) as [Hperm Hsorted].
  destruct shown as [|r rest] eqn:E; cbn [List.length Nat.eqb].
  - split; [split; reflexivity | congruence].
  - split; [split; discriminate|]. intros _.
    exists (sort (fun a b => dateDifference b a) (r :: rest)).
    split; [reflexivity|]. split; [exact Hperm|]. split; [exact Hsorted|].
    split; [exact (sort_length (fun a b => dateDifference b a) (r :: rest))|].
    intros Hnil. apply Permutation_length in Hperm. rewrite Hnil in Hperm. discriminate.
Qed.

Lemma history_newest_first_witness :
  let w := storedWorld [walkLastMonth; walkHourAgo; walkYesterday] "week" in
  let shown := filteredBy (currentPeriod (this w)) sampleNow (walksArray w) in
  (shown = [] <-> historyList sampleNow w = EmptyState)
  /\ (shown <> [] ->
      exists sorted,
        historyList sampleNow w = Items (map (historyItem (walksArray w)) sorted)
        /\ Permutation sorted shown
        /\ StronglySorted (fun a b => byDate b a) sorted
        /\ List.length sorted = List.length shown
        /\ sorted <> []).
Proof.
  apply (history_newest_first sampleNow
           (storedWorld [walkLastMonth; walkHourAgo; walkYesterday] "week")).
  - unfold wf. simpl. lia.
  - left. reflexivity.
Defined.

(** A period without a walk: the empty state. *)
Example historyList_empty :
  historyList sampleNow (storedWorld [walkLastYear; walkLastMonth] "week") = EmptyState.
Proof. vm_compute. reflexivity. Qed.

(** The walks of the example, as listed. *)
Example historyList_sample :
  historyList sampleNow (storedWorld [walkLastMonth; walkHourAgo; walkYesterday] "week")
  = Items [ mkItem "1" (Some 1709206496789) "2m 0s" 201 "100.5";
            mkItem "2" (Some 1709121600000) "1m 5s" 130 "120" ].
Proof. vm_compute. reflexivity. Qed.

(** ** Deleting from the list *)

Lemma remove_nth_NoDup {A : Type} (l : list A) :
  forall (i : nat) (x : A),
    NoDup l -> nth_error l i = Some x -> ~ In x (firstn i l ++ skipn (S i) l).
Proof.
  induction l as [|y l IH]; intros [|i] x Hnd Hn; cbn [nth_error] in Hn; try discriminate.
  - injection Hn as <-. cbn [firstn skipn List.app]. inversion Hnd; assumption.
  - inversion Hnd as [|? ? Hy Hl]; subst. cbn [firstn skipn List.app].
    intros [->|Hin].
    + apply Hy. eapply nth_error_In. exact Hn.
    + exact (IH i x Hl Hn Hin).
Qed.

Lemma map_date_injective (a : list WalkRecord) (i : nat) (r r' : WalkRecord) :
  NoDup (map date a) -> nth_error a i = Some r -> In r' a -> date r = date r' -> r = r'.
Proof.
  revert i. induction a as [|x a IH]; intros i Hnd Hn Hin Hd; [destruct Hin|].
  cbn [map] in Hnd. inversion Hnd as [|? ? Hx Ha]; subst.
  destruct i as [|i]; cbn [nth_error] in Hn.
  - injection Hn as ->. destruct Hin as [->|Hin]; [reflexivity|].
    exfalso. apply Hx. rewrite Hd. apply in_map. exact Hin.
  - destruct Hin as [->|Hin].
    + exfalso. apply Hx. rewrite <- Hd. apply in_map. eapply nth_error_In. exact Hn.
    + exact (IH i Ha Hn Hin Hd).
Qed.

(** The index of an entry is that of the first stored walk with its
    date. *)
Lemma originalIndex_first (a : list WalkRecord) (walk : WalkRecord) :
  In walk a ->
  exists (i : nat) (first : WalkRecord),
    originalIndex a walk = Z.of_nat i
    /\ nth_error a i = Some first
    /\ date first = date walk
    /\ (forall j r, (j < i)%nat -> nth_error a j = Some r -> date r <> date walk).
Proof.
  intros Hin. unfold originalIndex, findIndex.
  destruct (findIndex_from_found (fun w => String.eqb (date w) (date walk)) a 0)
    as (i & first & Hi & Hn & Hp & Hfirst).
  { exists walk. split; [exact Hin | apply String.eqb_refl]. }
  exists i, first. repeat split; [lia | exact Hn | apply String.eqb_eq; exact Hp |].
  intros j r Hj Hr. apply String.eqb_neq. exact (Hfirst j r Hj Hr).
Qed.

(** X13.  A confirmed swipe of more than 100 to the left on the entry of a
    walk deletes the first stored walk that has the date of the entry and
    keeps the others in their order; when no two stored walks share a date,
    that is the walk of the entry, and no other.  A shorter swipe, or one
    that is not confirmed, deletes nothing. *)
Theorem swipe_deletes_entry
  (walk : WalkRecord) (touchStartX touchEndX : float) (now : Z) (w : World) :
  wf w ->
  In walk (walksArray w) ->
  let a := walksArray w in
  let item := historyItem a walk in
  (PrimFloat.ltb 100 (touchStartX - touchEndX)%float = true ->
   exists (i : nat) (first : WalkRecord),
     nth_error a i = Some first
     /\ date first = date walk
     /\ (forall j r, (j < i)%nat -> nth_error a j = Some r -> date r <> date walk)
     /\ walksArray (touchend item touchStartX touchEndX true now w)
        = firstn i a ++ skipn (S i) a
     /\ (NoDup (map date a) ->
         first = walk
         /\ ~ In walk (walksArray (touchend item touchStartX touchEndX true now w))))
  /\ (PrimFloat.ltb 100 (touchStartX - touchEndX)%float = false ->
      forall confirmed, touchend item touchStartX touchEndX confirmed now w = w)
  /\ touchend item touchStartX touchEndX false now w = w.
Proof.
  intros Hwf Hin a item. split; [|split].
  - intros Hswipe.
    destruct (originalIndex_first a walk Hin) as (i & first & Hi & Hn & Hd & Hfirst).
    exists i, first.
    assert (Hdel : walksArray (touchend item touchStartX touchEndX true now w)
                   = firstn i a ++ skipn (S i) a).
    { unfold touchend. rewrite Hswipe. unfold item. cbn [dataIndex historyItem].
      rewrite parseInt_toString. fold a. rewrite Hi.
      destruct (deleteWalk_spec (Z.of_nat i) now w Hwf) as (Ha & _).
      rewrite Ha. fold a. rewrite splice1_inside.
      - rewrite Nat2Z.id. reflexivity.
      - split; [lia|]. apply Nat2Z.inj_lt. apply nth_error_Some. congruence. }
    repeat split; try assumption.
    + apply (map_date_injective a i first walk); assumption.
    + rewrite Hdel. apply remove_nth_NoDup.
      * eapply NoDup_map_inv. eassumption.
      * rewrite Hn. f_equal. apply (map_date_injective a i first walk); assumption.
  - intros Hshort confirmed. unfold touchend. rewrite Hshort. reflexivity.
  - unfold touchend. destruct (PrimFloat.ltb _ _); reflexivity.
Qed.

Lemma swipe_deletes_entry_witness :
  let w := storedWorld [walkLastMonth; walkHourAgo; walkYesterday] "week" in
  let a := walksArray w in
  let item := historyItem a walkHourAgo in
  (PrimFloat.ltb 100 (300 - 120)%float = true ->
   exists (i : nat) (first : WalkRecord),
     nth_error a i = Some first
     /\ date first = date walkHourAgo
     /\ (forall j r, (j < i)%nat -> nth_error a j = Some r -> date r <> date walkHourAgo)
     /\ walksArray (touchend item 300 120 true sampleNow w)
        = firstn i a ++ skipn (S i) a
     /\ (NoDup (map date a) ->
         first = walkHourAgo
         /\ ~ In walkHourAgo (walksArray (touchend item 300 120 true sampleNow w))))
  /\ (PrimFloat.ltb 100 (300 - 120)%float = false ->
      forall confirmed, touchend item 300 120 confirmed sampleNow w = w)
  /\ touchend item 300 120 false sampleNow w = w.
Proof.
  apply (swipe_deletes_entry walkHourAgo 300 120 sampleNow
           (storedWorld [walkLastMonth; walkHourAgo; walkYesterday] "week")).
  - unfold wf. simpl. lia.
  - right. left. reflexivity.
Defined.

(** Two walks with one date: the swipe on the entry of the second deletes
    the first. *)
Example swipe_same_date :
  let first := mkWalk "2024-02-28T12:00:00.000Z" 65000 130 1200 in
  let second := mkWalk "2024-02-28T12:00:00.000Z" 120000 201 1005 in
  let w := storedWorld [first; second] "week" in
  walksArray (touchend (historyItem (walksArray w) second) 300 120 true sampleNow w) = [second].
Proof. vm_compute. reflexivity. Qed.

(** ** The chart, its tooltips and the statistics *)

Lemma sum_perm (l l' : list Z) :
  Permutation l l' -> fold_right Z.add 0 l = fold_right Z.add 0 l'.
Proof.
  induction 1; cbn [fold_right]; lia.
Qed.

(** The readouts [updateHistoryStats] leaves, by the walks of the period. *)
Lemma updateHistoryStats_dom (now : Z) (w : World) :
  wf w ->
  let shown := filteredBy (currentPeriod (this w)) now (walksArray w) in
  let len := Z.of_nat (List.length shown) in
  dom (updateHistoryStats now w)
  = if (List.length shown =? 0)%nat then set_stats 0 "0" "0" 0 (dom w)
    else set_stats (Math.round (inject_Z (Array.sumZ steps shown) / inject_Z len))
           (Fixed1_toString (toFixed1 (sumQ shown / inject_Z len)))
           (Z_toString len) (Array.sumZ steps shown) (dom w).
Proof.
  intros Hwf shown len.
  pose proof (getFilteredWalks_read now w Hwf) as Hg. unfold updateHistoryStats.
  destruct (getFilteredWalks now w) as [p w1].
  destruct Hg as (Hr & _ & _ & Hd & _). fold shown in Hr. rewrite Hr.
  destruct (List.length shown =? 0)%nat; cbn [with_dom dom]; rewrite Hd; reflexivity.
Qed.

(** X14.  The chart has one bar for each walk of the period, the earliest
    first, as high as the walk's steps and labelled with its date; the bars
    add up to the total that [updateHistoryStats] shows.  With no walk in the
    period it has seven bars of height 0.  In the period [all] this needs
    every stored date to be a valid one. *)
Theorem chart_bars (now : Z) (w : World) :
  wf w ->
  currentPeriod (this w) = "week"%string \/ currentPeriod (this w) = "month"%string
  \/ Forall validDate (walksArray w) ->
  let period := currentPeriod (this w) in
  let shown := filteredBy period now (walksArray w) in
  let chart := chartData now w in
  (shown = [] ->
   chartValues chart = [0; 0; 0; 0; 0; 0; 0] /\ List.length (chartLabels chart) = 7%nat)
  /\ (shown <> [] ->
      exists sorted,
        Permutation sorted shown
        /\ StronglySorted byDate sorted
        /\ chartValues chart = map steps sorted
        /\ chartLabels chart = map (labelOf period) sorted)
  /\ fold_right Z.add 0 (chartValues chart) = chartTotal (dom (updateHistoryStats now w)).
Proof.
  intros Hwf Hperiod period shown chart.
  pose proof (filteredBy_valid _ now _ Hperiod) as Hv. fold period shown in Hv.
  destruct (sort_ascending shown Hv) as [Hperm Hsorted].
  assert (Hchart : chart
                   = if (List.length shown =? 0)%nat then
                       {| chartLabels :=
                            map LabelText ["Mon"; "Tue"; "Wed"; "Thu"; "Fri"; "Sat"; "Sun"]%string;
                          chartValues := [0; 0; 0; 0; 0; 0; 0] |}
                     else
                       {| chartLabels := map (labelOf period) (sort dateDifference shown);
                          chartValues := map steps (sort dateDifference shown) |}).
  { pose proof (getFilteredWalks_read now w Hwf) as Hg. unfold chart, chartData.
    destruct (getFilteredWalks now w) as [p w1].
    destruct Hg as (Hr & _ & Ht & _). fold period shown in Hr.
    rewrite Hr, Ht, length_map, sort_length. reflexivity. }
  rewrite Hchart, (updateHistoryStats_dom now w Hwf). fold period shown.
  split; [|split].
  - intros ->. split; reflexivity.
  - intros Hne. destruct shown as [|r rest]; [congruence|].
    cbn [List.length Nat.eqb]. cbn [chartValues chartLabels].
    exists (sort dateDifference (r :: rest)). repeat split; assumption.
  - destruct shown as [|r rest]; [reflexivity|].
    cbn [List.length Nat.eqb chartValues set_stats chartTotal].
    rewrite sumZ_fold_right. apply sum_perm. apply Permutation_map. exact Hperm.
Qed.

Lemma chart_bars_witness :
  let w := storedWorld [walkLastMonth; walkHourAgo; walkYesterday] "month" in
  let period := currentPeriod (this w) in
  let shown := filteredBy period sampleNow (walksArray w) in
  let chart := chartData sampleNow w in
  (shown = [] ->
   chartValues chart = [0; 0; 0; 0; 0; 0; 0] /\ List.length (chartLabels chart) = 7%nat)
  /\ (shown <> [] ->
      exists sorted,
        Permutation sorted shown
        /\ StronglySorted byDate sorted
        /\ chartValues chart = map steps sorted
        /\ chartLabels chart = map (labelOf period) sorted)
  /\ fold_right Z.add 0 (chartValues chart) = chartTotal (dom (updateHistoryStats sampleNow w)).
Proof.
  apply (chart_bars sampleNow (storedWorld [walkLastMonth; walkHourAgo; walkYesterday] "month")).
  - unfold wf. simpl. lia.
  - right. left. reflexivity.
Defined.

Example chartData_sample :
  chartValues (chartData sampleNow (storedWorld [walkLastMonth; walkHourAgo; walkYesterday] "month"))
  = [1000; 130; 201].
Proof. vm_compute. reflexivity. Qed.

Lemma StronglySorted_filter {A : Type} (R : A -> A -> Prop) (f : A -> bool) (l : list A) :
  StronglySorted R l -> StronglySorted R (List.filter f l).
Proof.
  induction 1 as [|x l Hs IH Hf]; cbn [List.filter]; [constructor|].
  destruct (f x); [|exact IH]. constructor; [exact IH|].
  apply Forall_forall. intros y Hy. apply filter_In in Hy.
  exact (proj1 (Forall_forall _ _) Hf y (proj1 Hy)).
Qed.

Lemma filteredBy_sorted (R : WalkRecord -> WalkRecord -> Prop) (period : string) (now : Z)
  (a : list WalkRecord) :
  StronglySorted R a -> StronglySorted R (filteredBy period now a).
Proof.
  intros H. unfold filteredBy.
  destruct (String.eqb period "week"); [|destruct (String.eqb period "month")];
    try exact H; apply StronglySorted_filter; exact H.
Qed.

Lemma StronglySorted_impl {A : Type} (R R' : A -> A -> Prop) (l : list A) :
  (forall a b, R a b -> R' a b) -> StronglySorted R l -> StronglySorted R' l.
Proof.
  intros HR. induction 1 as [|x l Hs IH Hf]; constructor; [exact IH|].
  eapply Forall_impl; [|exact Hf]. apply HR.
Qed.

Lemma byDate_notAfter (a b : WalkRecord) : byDate a b -> notAfter dateDifference a b = true.
Proof.
  unfold byDate, notAfter, dateDifference.
  destruct (dateValue a), (dateValue b); try tauto. intros H. apply Z.leb_le. lia.
Qed.

(** X15.  The tooltips look a bar's walk up by its position among the
    walks of the period as stored, the chart draws the bars in the order of
    the dates.  When the stored walks are in the order of their dates, as
    walks recorded one after the other are, the two agree: the walk a tooltip
    describes is the walk of its bar. *)
Theorem tooltip_matches_bar (now : Z) (w : World) :
  wf w ->
  StronglySorted byDate (walksArray w) ->
  forall (index : nat) (walk : WalkRecord),
    tooltipWalk index now w = Some walk ->
    nth_error (chartValues (chartData now w)) index = Some (steps walk)
    /\ nth_error (chartLabels (chartData now w)) index
       = Some (labelOf (currentPeriod (this w)) walk).
Proof.
  intros Hwf Hsorted index walk.
  pose proof (getFilteredWalks_read now w Hwf) as Hg. unfold tooltipWalk, chartData.
  destruct (getFilteredWalks now w) as [p w1].
  destruct Hg as (Hr & _ & Ht & _). rewrite Hr, Ht.
  set (shown := filteredBy (currentPeriod (this w)) now (walksArray w)).
  assert (Hs : sort dateDifference shown = shown).
  { apply sort_of_sorted.
    apply (StronglySorted_impl byDate); [exact byDate_notAfter|].
    apply filteredBy_sorted. exact Hsorted. }
  rewrite Hs, length_map. intros Hn.
  destruct shown as [|r rest]; [destruct index; discriminate|].
  cbn [List.length Nat.eqb chartValues chartLabels].
  split; apply map_nth_error; exact Hn.
Qed.

(** The second of three walks stored in the order of their dates. *)
Lemma tooltip_matches_bar_witness :
  let w := storedWorld [walkLastMonth; walkYesterday; walkHourAgo] "month" in
  nth_error (chartValues (chartData sampleNow w)) 1 = Some (steps walkYesterday)
  /\ nth_error (chartLabels (chartData sampleNow w)) 1
     = Some (labelOf (currentPeriod (this w)) walkYesterday).
Proof.
  apply (tooltip_matches_bar sampleNow
           (storedWorld [walkLastMonth; walkYesterday; walkHourAgo] "month")).
  - unfold wf. simpl. lia.
  - repeat constructor; vm_compute; discriminate.
  - vm_compute. reflexivity.
Defined.

(** Stored out of the order of their dates, the walk of an hour ago before
    the walk of the day before: the first bar is the earlier walk, with 130
    steps, and its tooltip describes the later one. *)
Example tooltip_other_walk :
  let w := storedWorld [walkHourAgo; walkYesterday] "week" in
  nth_error (chartValues (chartData sampleNow w)) 0 = Some 130
  /\ tooltipWalk 0 sampleNow w = Some walkHourAgo
  /\ steps walkHourAgo = 201.
Proof. vm_compute. repeat split. Qed.

(** The average pace shown for walks: a [toFixed(1)] string within half a
    tenth of the mean of their stored paces. *)
Lemma avgPace_close (l : list WalkRecord) :
  let n := inject_Z (Z.of_nat (List.length l)) in
  let meanPace := (Q_of_tenths (fold_right Z.add 0%Z (map stepsPerMinute l)) / n)%Q in
  exists f,
    Fixed1_toString (toFixed1 (sumQ l / n)) = Fixed1_toString f
    /\ (Qabs (Q_of_tenths (Fixed1_value f) - meanPace) <= 1 # 20)%Q.
Proof.
  intros n meanPace. exists (toFixed1 meanPace). split; [|apply toFixed1_close].
  f_equal. apply toFixed1_comp. unfold meanPace. rewrite sumQ_tenths. reflexivity.
Qed.



(** The walk is gone and the page still shows 130 steps in one walk. *)
Example deleteWalk_stale_statistics :
  let w := updateHistoryStats sampleNow (storedWorld [walkYesterday] "week") in
  let w' := deleteWalk 0 sampleNow w in
  walksArray w' = []
  /\ totalWalks (dom w') = "1"%string
  /\ chartTotal (dom w') = 130.
Proof. vm_compute. repeat split. Qed.

(** ** The timer display and the periods *)

(** X16.  [updateTimer] recomputes the elapsed time from the clock, whatever
    it was before, and shows it as hours, minutes and seconds, each padded to
    two digits: the minutes and seconds are below 60, and the three add up to
    the whole seconds elapsed. *)
Theorem updateTimer_display (now start : Z) (w : World) :
  startTime (this w) = Some start ->
  0 <= now - start ->
  let w' := updateTimer now w in
  elapsedTime (this w') = now - start
  /\ exists h m s : Z,
       timerDisplay (dom w')
       = (padStart0 2 h ++ ":" ++ padStart0 2 m ++ ":" ++ padStart0 2 s)%string
       /\ 0 <= h
       /\ 0 <= m < 60
       /\ 0 <= s < 60
       /\ h * 3600 + m * 60 + s = (now - start) / 1000.
Proof.
  intros Hstart Hpos w'. unfold w', updateTimer. rewrite Hstart.
  split; [reflexivity|].
  set (total := (now - start) / 1000).
  exists (total / 3600), (Z.rem total 3600 / 60), (Z.rem total 60).
  split; [reflexivity|].
  assert (Ht : 0 <= total) by (apply Z.div_pos; lia).
  rewrite !Z.rem_mod_nonneg by lia.
  clearbody total. euclid.
Qed.

(** One hour, one minute and one second into a walk. *)
Lemma updateTimer_display_witness :
  let w' := updateTimer 3671500 (walkingWorld 10000 0 0) in
  elapsedTime (this w') = 3671500 - 10000
  /\ exists h m s : Z,
       timerDisplay (dom w')
       = (padStart0 2 h ++ ":" ++ padStart0 2 m ++ ":" ++ padStart0 2 s)%string
       /\ 0 <= h
       /\ 0 <= m < 60
       /\ 0 <= s < 60
       /\ h * 3600 + m * 60 + s = (3671500 - 10000) / 1000.
Proof.
  apply (updateTimer_display 3671500 10000 (walkingWorld 10000 0 0)).
  - reflexivity.
  - lia.
Defined.

Example updateTimer_sample :
  timerDisplay (dom (updateTimer 3671500 (walkingWorld 10000 0 0))) = "01:01:01"%string.
Proof. vm_compute. reflexivity. Qed.

(** The clock set back by half a second during a walk: the elapsed time is
    negative, each field of the display is -1 and the pace is 0. *)
Example updateTimer_clock_set_back :
  let w' := updateTimer 9500 (walkingWorld 10000 0 3) in
  elapsedTime (this w') = -500
  /\ timerDisplay (dom w') = "-1:-1:-1"%string
  /\ stepsPerMinuteEl (dom w') = "0"%string.
Proof. vm_compute. repeat split. Qed.

Lemma notBefore_earlier (limit limit' : Z) (r : WalkRecord) :
  limit' <= limit -> notBefore limit r = true -> notBefore limit' r = true.
Proof.
  unfold notBefore. destruct (Date.parse (date r)); [|discriminate].
  rewrite !Z.leb_le. lia.
Qed.

Lemma filter_week_month (now : Z) (a : list WalkRecord) :
  List.filter (notBefore (now - weekMs)) a
  = List.filter (notBefore (now - weekMs)) (List.filter (notBefore (now - monthMs)) a).
Proof.
  induction a as [|r a IH]; [reflexivity|]. cbn [List.filter].
  destruct (notBefore (now - weekMs) r) eqn:E.
  - assert (Em : notBefore (now - monthMs) r = true).
    { apply (notBefore_earlier (now - weekMs)); [unfold weekMs, monthMs; lia | exact E]. }
    rewrite Em. cbn [List.filter]. rewrite E, IH. reflexivity.
  - destruct (notBefore (now - monthMs) r); [cbn [List.filter]; rewrite E|]; exact IH.
Qed.

(** X11.  The periods are nested.  At one clock reading every walk the
    week shows is shown by the month, in the same order: the week's walks
    are the month's walks not older than 7 x 24 hours.  Every walk of a
    period is a stored walk, and a period that is neither [week] nor [month]
    shows all stored walks. *)
Theorem periods_nested (now : Z) (w : World) :
  wf w ->
  let shown := fun period : string =>
    let '(p, w') := getFilteredWalks now (with_this (set_currentPeriod period) w) in
    heap_read (heap w') p in
  shown "week"%string = List.filter (notBefore (now - weekMs)) (shown "month"%string)
  /\ (forall r, In r (shown "week"%string) -> In r (shown "month"%string))
  /\ (forall period r, In r (shown period) -> In r (walksArray w))
  /\ (forall period,
         period <> "week"%string -> period <> "month"%string -> shown period = walksArray w).
Proof.
  intros Hwf shown.
  assert (Hshown : forall period, shown period = filteredBy period now (walksArray w)).
  { intros period. unfold shown.
    pose proof (getFilteredWalks_read now (with_this (set_currentPeriod period) w) Hwf) as Hg.
    destruct (getFilteredWalks now (with_this (set_currentPeriod period) w)) as [p w'].
    exact (proj1 Hg). }
  assert (Hweek : shown "week"%string
                  = List.filter (notBefore (now - weekMs)) (shown "month"%string)).
  { rewrite !Hshown. unfold filteredBy. cbn [String.eqb Ascii.eqb Bool.eqb].
    apply filter_week_month. }
  split; [exact Hweek|]. split; [|split].
  - intros r. rewrite Hweek, filter_In. tauto.
  - intros period r. rewrite Hshown. apply filteredBy_incl.
  - intros period Hw Hm. rewrite Hshown. unfold filteredBy.
    destruct (String.eqb_spec period "week"); [congruence|].
    destruct (String.eqb_spec period "month"); [congruence | reflexivity].
Qed.

Lemma periods_nested_witness :
  let w := storedWorld [walkLastYear; walkLastMonth; walkYesterday] "all" in
  let shown := fun period : string =>
    let '(p, w') := getFilteredWalks sampleNow (with_this (set_currentPeriod period) w) in
    heap_read (heap w') p in
  shown "week"%string = List.filter (notBefore (sampleNow - weekMs)) (shown "month"%string)
  /\ (forall r, In r (shown "week"%string) -> In r (shown "month"%string))
  /\ (forall period r, In r (shown period) -> In r (walksArray w))
  /\ (forall period,
         period <> "week"%string -> period <> "month"%string -> shown period = walksArray w).
Proof.
  apply (periods_nested sampleNow (storedWorld [walkLastYear; walkLastMonth; walkYesterday] "all")).
  unfold wf. simpl. lia.
Defined.

(** ** A running session *)

Lemma handleMotion_handles (event : DeviceMotionEvent) (now : Z) (w : World) :
  let t' := this (handleMotion event now w) in
  timerInterval t' = timerInterval (this w)
  /\ motionHandler t' = motionHandler (this w)
  /\ simulationInterval t' = simulationInterval (this w).
Proof.
  unfold handleMotion.
  destruct (negb (isTracking (this w))); [repeat split|].
  destruct (accelerationIncludingGravity event); [|repeat split].
  match goal with |- context [if ?c then _ else _] => destruct c end; repeat split.
Qed.

Lemma stopTracking_idle (now : Z) (w : World) : isTracking (this (stopTracking now w)) = false.
Proof. unfold stopTracking. destruct (1000 <? _); reflexivity. Qed.

Lemma deleteWalk_frame (index now : Z) (w : World) :
  this (deleteWalk index now w) = this w.
Proof.
  unfold deleteWalk.
  set (w1 := mkWorld (this w) _ _ (dom w)).
  destruct (renderHistory_frame now w1) as (Ht1 & _).
  destruct (updateChart_frame now (renderHistory now w1)) as (Ht2 & _).
  rewrite Ht2, Ht1. reflexivity.
Qed.

(** The constructor leaves the object idle. *)
Lemma constructor_tracking (ls : localStorage.t) (page : DOM) (now : Z) (w : World) :
  constructor ls page now = Normal w -> isTracking (this w) = false.
Proof.
  unfold constructor, heap_alloc, init. cbn [List.length List.app].
  set (w0 := mkWorld _ _ ls page).
  assert (Hload : forall w1, loadWalks w0 = Normal w1 -> isTracking (this w1) = false).
  { intros w1 H. unfold loadWalks in H.
    destruct (localStorage.getItem storageKey (storage w0)) as [saved|].
    - destruct (String.eqb saved EmptyString); [injection H as <-; reflexivity|].
      destruct (JSON.parse saved) as [j|]; [|discriminate].
      destruct (JSON.walks_of_json j); [injection H as <-; reflexivity | discriminate].
    - injection H as <-. reflexivity. }
  destruct (loadWalks w0) as [w1| |]; try discriminate.
  intros H. injection H as <-.
  destruct (renderHistory_frame now w1) as (Ht1 & _).
  destruct (updateChart_frame now (renderHistory now w1)) as (Ht2 & _).
  rewrite Ht2, Ht1. apply Hload. reflexivity.
Qed.

(** An event keeps a running session running, and a session it starts has
    what it needs. *)
Lemma dispatch_running (e : Event) (w : World) :
  invariant w ->
  (isTracking (this w) = true -> sessionRunning (this w)) ->
  isTracking (this (dispatch e w)) = true ->
  sessionRunning (this (dispatch e w)).
Proof.
  intros [_ (_ & _ & _ & _ & _ & Hidle)] Hrun. destruct e; cbn [dispatch].
  - unfold toggleTracking. destruct (isTracking (this w)) eqn:Ht.
    + rewrite stopTracking_idle. discriminate.
    + destruct (Hidle eq_refl) as (_ & Hm & Hs).
      unfold startTracking, startStepDetection, sessionRunning.
      destruct perm, hasDeviceMotion; cbn; rewrite ?Hm, ?Hs, ?Ht;
        intros H; try discriminate H; repeat split; discriminate.
  - destruct (timerInterval (this w)); [|exact Hrun]. exact Hrun.
  - destruct (motionHandler (this w)) eqn:Hm; [|exact Hrun].
    destruct (handleMotion_constants event now w) as (Hi & _).
    destruct (handleMotion_handles event now w) as (Ht & Hm' & Hs).
    rewrite Hi. intros H. destruct (Hrun H) as (H1 & H2 & H3).
    unfold sessionRunning. rewrite Ht, Hm', Hs, handleMotion_startTime, Hm.
    rewrite Hm in H2. auto.
  - destruct (simulationInterval (this w)); [|exact Hrun].
    unfold simulationTick. destruct (_ && _)%bool; exact Hrun.
  - exact Hrun.
  - destruct (renderHistory_frame now w) as (Ht1 & _).
    destruct (updateChart_frame now (renderHistory now w)) as (Ht2 & _).
    rewrite Ht2, Ht1. exact Hrun.
  - rewrite deleteWalk_frame. exact Hrun.
  - unfold switchPeriod.
    set (w1 := with_this (set_currentPeriod period) w).
    destruct (updateChart_frame now w1) as (Ht1 & _).
    destruct (updateHistoryStats_frame now (updateChart now w1)) as (Ht2 & _).
    rewrite Ht2, Ht1. exact Hrun.
Qed.

(** X18.  On a platform that does not ask for the motion permission, in
    every world the program can reach and that is tracking, the timer is
    installed, exactly one source of steps is installed (the sensor listener
    or the simulation, never both) and the start time is set. *)
Theorem tracking_is_running (w : World) :
  reachableUnprompted w ->
  isTracking (this w) = true ->
  sessionRunning (this w).
Proof.
  induction 1 as [ls page now w H | e w _ Hr IH].
  - intros Ht. pose proof (constructor_tracking ls page now w H) as Hidle. congruence.
  - apply dispatch_running; [|exact IH].
    apply reachable_invariant, reachableUnprompted_reachable. exact Hr.
Qed.

(** A walk started on a first visit, on a platform without the sensor. *)
Lemma tracking_is_running_witness :
  sessionRunning (this (dispatch (ControlClick NotRequired false 0) freshWorld)).
Proof.
  apply (tracking_is_running (dispatch (ControlClick NotRequired false 0) freshWorld)).
  - apply unprompted_step; [reflexivity|].
    apply (unprompted_new localStorage.empty blankPage 0). reflexivity.
  - reflexivity.
Defined.

(** ** The timer ring *)

Lemma ring_seconds : all_from ring_seconds_ok 0 3600 = true.
Proof. vm_compute. reflexivity. Qed.

(** The ring depends on the second of the minute only. *)
Lemma timerRing_second (elapsed : Z) :
  0 <= elapsed -> timerRing elapsed = timerRing ((elapsed / 1000) mod 60 * 1000).
Proof.
  intros H. unfold timerRing.
  assert (Ht : 0 <= elapsed / 1000) by (apply Z.div_pos; lia).
  rewrite Z.div_mul by lia.
  rewrite !Z.rem_mod_nonneg; try lia.
  - rewrite Z.mod_mod by lia. reflexivity.
  - apply Z.mod_pos_bound. lia.
Qed.

(** X19.  The ring of the timer goes round once a minute.  Its dash offset
    depends on the second of the minute only; it is the full circumference
    at second 0 and at no other second, it is positive throughout, and
    within a minute it is smaller at each later second. *)
Theorem timer_ring_minute (elapsed elapsed' : Z) :
  0 <= elapsed ->
  0 <= elapsed' ->
  let s := (elapsed / 1000) mod 60 in
  let s' := (elapsed' / 1000) mod 60 in
  let circumference := (2 * PI * 90)%float in
  PrimFloat.ltb 0 (timerRing elapsed) = true
  /\ PrimFloat.leb (timerRing elapsed) circumference = true
  /\ (PrimFloat.eqb (timerRing elapsed) circumference = true <-> s = 0)
  /\ (s = s' -> timerRing elapsed' = timerRing elapsed)
  /\ (s < s' -> PrimFloat.ltb (timerRing elapsed') (timerRing elapsed) = true).
Proof.
  intros H H' s s' circumference.
  assert (Hs : 0 <= s < 60) by (apply Z.mod_pos_bound; lia).
  assert (Hs' : 0 <= s' < 60) by (apply Z.mod_pos_bound; lia).
  rewrite (timerRing_second elapsed H), (timerRing_second elapsed' H'). fold s s'.
  pose proof (all_from_spec ring_seconds_ok _ _ ring_seconds (60 * s + s')) as Hok.
  specialize (Hok ltac:(lia)). unfold ring_seconds_ok in Hok.
  replace ((60 * s + s') / 60) with s in Hok by euclid.
  replace ((60 * s + s') mod 60) with s' in Hok by euclid.
  fold circumference in Hok.
  apply andb_prop in Hok. destruct Hok as [Hok Himp].
  apply andb_prop in Hok. destruct Hok as [Hok Heq].
  apply andb_prop in Hok. destruct Hok as [Hpos Hle].
  apply Bool.eqb_prop in Heq.
  split; [exact Hpos|]. split; [exact Hle|]. split; [|split].
  - rewrite Heq. apply Z.eqb_eq.
  - intros ->. reflexivity.
  - intros Hlt. apply Z.ltb_lt in Hlt. rewrite Hlt in Himp. exact Himp.
Qed.

(** 61.5 s and 75.2 s into a walk. *)
Lemma timer_ring_minute_witness :
  let s := (61500 / 1000) mod 60 in
  let s' := (75200 / 1000) mod 60 in
  let circumference := (2 * PI * 90)%float in
  PrimFloat.ltb 0 (timerRing 61500) = true
  /\ PrimFloat.leb (timerRing 61500) circumference = true
  /\ (PrimFloat.eqb (timerRing 61500) circumference = true <-> s = 0)
  /\ (s = s' -> timerRing 75200 = timerRing 61500)
  /\ (s < s' -> PrimFloat.ltb (timerRing 75200) (timerRing 61500) = true).
Proof.
  apply (timer_ring_minute 61500 75200); lia.
Defined.

(** ** The summary and the period buttons *)

(** X20.  [stopTracking] always opens the summary, also for a walk too
    short to be saved.  It shows the step count of the session and the
    elapsed time in whole seconds: seconds alone below a minute,
    minutes and seconds below an hour, hours, minutes and seconds from there
    on, the minutes and seconds below 60 and adding up with the hours to the
    whole seconds. *)
Theorem stopTracking_summary (now : Z) (w : World) :
  0 <= elapsedTime (this w) ->
  let d := dom (stopTracking now w) in
  let total := elapsedTime (this w) / 1000 in
  summaryModal d = true
  /\ summarySteps d = Z_toString (stepCount (this w))
  /\ exists h m s : Z,
       0 <= h /\ 0 <= m < 60 /\ 0 <= s < 60 /\ h * 3600 + m * 60 + s = total
       /\ summaryDuration d
          = (if (total <? 60)%Z then Z_toString s ++ " sec"
             else if (total <? 3600)%Z then Z_toString m ++ " min " ++ Z_toString s ++ " sec"
             else Z_toString h ++ "h " ++ Z_toString m ++ "m " ++ Z_toString s ++ "s")%string.
Proof.
  intros Hpos d total.
  assert (Hd : d = dom (showSummary (elapsedTime (this w)) (stepCount (this w))
                          (paceOf (stepCount (this w)) (elapsedTime (this w))) w)).
  { unfold d, stopTracking.
    cbn [stopStepDetection with_this this elapsedTime stepCount set_simulationInterval
         set_motionHandler set_timerInterval set_isTracking].
    destruct (1000 <? elapsedTime (this w)); reflexivity. }
  rewrite Hd. unfold showSummary. fold total. cbn [with_dom dom set_summary
    summaryModal summarySteps summaryPace summaryDuration].
  split; [reflexivity|]. split; [reflexivity|].
  assert (Ht : 0 <= total) by (apply Z.div_pos; lia).
  exists (total / 3600), (Z.rem total 3600 / 60), (Z.rem total 60).
  rewrite !Z.rem_mod_nonneg by lia.
  split; [apply Z.div_pos; lia|].
  split; [clearbody total; euclid|].
  split; [apply Z.mod_pos_bound; lia|].
  split; [clearbody total; euclid|].
  destruct (Z.ltb_spec total 60) as [H60|H60].
  - replace (0 <? total / 3600) with false by (symmetry; apply Z.ltb_ge; clearbody total; euclid).
    replace (0 <? total mod 3600 / 60) with false
      by (symmetry; apply Z.ltb_ge; clearbody total; euclid).
    reflexivity.
  - destruct (Z.ltb_spec total 3600) as [H3600|H3600].
    + replace (0 <? total / 3600) with false
        by (symmetry; apply Z.ltb_ge; clearbody total; euclid).
      replace (0 <? total mod 3600 / 60) with true
        by (symmetry; apply Z.ltb_lt; clearbody total; euclid).
      reflexivity.
    + replace (0 <? total / 3600) with true
        by (symmetry; apply Z.ltb_lt; clearbody total; euclid).
      reflexivity.
Qed.

(** A walk of 65 seconds. *)
Lemma stopTracking_summary_witness :
  let d := dom (stopTracking sampleNow (walkingWorld 0 65000 130)) in
  let total := elapsedTime (this (walkingWorld 0 65000 130)) / 1000 in
  summaryModal d = true
  /\ summarySteps d = Z_toString (stepCount (this (walkingWorld 0 65000 130)))
  /\ exists h m s : Z,
       0 <= h /\ 0 <= m < 60 /\ 0 <= s < 60 /\ h * 3600 + m * 60 + s = total
       /\ summaryDuration d
          = (if (total <? 60)%Z then Z_toString s ++ " sec"
             else if (total <? 3600)%Z then Z_toString m ++ " min " ++ Z_toString s ++ " sec"
             else Z_toString h ++ "h " ++ Z_toString m ++ "m " ++ Z_toString s ++ "s")%string.
Proof.
  apply (stopTracking_summary sampleNow (walkingWorld 0 65000 130)).
  simpl. lia.
Defined.

(** Half a second, 65 seconds and over an hour. *)
Example stopTracking_summary_samples :
  summaryDuration (dom (stopTracking sampleNow (walkingWorld 0 500 1))) = "0 sec"%string
  /\ summaryDuration (dom (stopTracking sampleNow (walkingWorld 0 65000 130)))
     = "1 min 5 sec"%string
  /\ summaryDuration (dom (stopTracking sampleNow (walkingWorld 0 3725000 6000)))
     = "1h 2m 5s"%string.
Proof. vm_compute. repeat split. Qed.

(** X21.  A click on a period button sets the period and refreshes the four
    readouts for it: they are 0 when the clicked period has no walk, and
    otherwise the count, the total, the rounded mean of the steps and the
    mean pace of its walks to one decimal place.  The walks and the store
    stay as they are. *)
Theorem switchPeriod_statistics (period : string) (now : Z) (w : World) :
  wf w ->
  let w' := switchPeriod period now w in
  let shown := filteredBy period now (walksArray w) in
  let len := Z.of_nat (List.length shown) in
  let meanPace :=
    (Q_of_tenths (fold_right Z.add 0%Z (map stepsPerMinute shown)) / inject_Z len)%Q in
  currentPeriod (this w') = period
  /\ walksArray w' = walksArray w
  /\ storage w' = storage w
  /\ (shown = [] ->
      avgSteps (dom w') = 0 /\ avgPace (dom w') = "0"%string
      /\ totalWalks (dom w') = "0"%string /\ chartTotal (dom w') = 0)
  /\ (shown <> [] ->
      totalWalks (dom w') = Z_toString len
      /\ chartTotal (dom w') = Array.sumZ steps shown
      /\ avgSteps (dom w')
         = Math.round (inject_Z (Array.sumZ steps shown) / inject_Z len)
      /\ exists f,
           avgPace (dom w') = Fixed1_toString f
           /\ (Qabs (Q_of_tenths (Fixed1_value f) - meanPace) <= 1 # 20)%Q).
Proof.
  intros Hwf w' shown len meanPace. unfold w', switchPeriod.
  set (w1 := with_this (set_currentPeriod period) w).
  assert (Hwf1 : wf w1) by exact Hwf.
  destruct (updateChart_frame now w1) as (Ht1 & Hs1 & He1).
  assert (Hwf2 : wf (updateChart now w1)).
  { unfold wf in *. rewrite Ht1. pose proof (extends_length _ _ He1). lia. }
  assert (Ha2 : walksArray (updateChart now w1) = walksArray w).
  { change (walksArray w) with (walksArray w1).
    apply walksArray_frame; [exact Hwf1 | rewrite Ht1; reflexivity | exact He1]. }
  assert (Hd2 : dom (updateChart now w1) = dom w).
  { destruct (getFilteredWalks_spec now w1) as (_ & _ & _ & _ & _ & Hd). exact Hd. }
  destruct (updateHistoryStats_frame now (updateChart now w1)) as (Ht3 & Hs3 & He3).
  split; [rewrite Ht3, Ht1; reflexivity|].
  split.
  { rewrite <- Ha2. apply walksArray_frame; [exact Hwf2 | rewrite Ht3; reflexivity | exact He3]. }
  split; [rewrite Hs3, Hs1; reflexivity|].
  rewrite (updateHistoryStats_dom now (updateChart now w1) Hwf2), Ht1, Ha2, Hd2.
  change (currentPeriod (this w1)) with period. fold shown.
  pose proof (avgPace_close shown) as Hpace. cbv zeta in Hpace. fold len meanPace in Hpace.
  split.
  - intros ->. repeat split.
  - intros Hne. destruct shown as [|r rest]; [congruence|].
    cbn [List.length Nat.eqb]. cbn [set_stats totalWalks chartTotal avgSteps avgPace].
    split; [reflexivity|]. split; [reflexivity|]. split; [reflexivity|]. exact Hpace.
Qed.

(** The month clicked on a page that showed the week. *)
Lemma switchPeriod_statistics_witness :
  let w := storedWorld [walkLastYear; walkLastMonth; walkYesterday] "week" in
  let w' := switchPeriod "month" sampleNow w in
  let shown := filteredBy "month" sampleNow (walksArray w) in
  let len := Z.of_nat (List.length shown) in
  let meanPace :=
    (Q_of_tenths (fold_right Z.add 0%Z (map stepsPerMinute shown)) / inject_Z len)%Q in
  currentPeriod (this w') = "month"%string
  /\ walksArray w' = walksArray w
  /\ storage w' = storage w
  /\ (shown = [] ->
      avgSteps (dom w') = 0 /\ avgPace (dom w') = "0"%string
      /\ totalWalks (dom w') = "0"%string /\ chartTotal (dom w') = 0)
  /\ (shown <> [] ->
      totalWalks (dom w') = Z_toString len
      /\ chartTotal (dom w') = Array.sumZ steps shown
      /\ avgSteps (dom w')
         = Math.round (inject_Z (Array.sumZ steps shown) / inject_Z len)
      /\ exists f,
           avgPace (dom w') = Fixed1_toString f
           /\ (Qabs (Q_of_tenths (Fixed1_value f) - meanPace) <= 1 # 20)%Q).
Proof.
  apply (switchPeriod_statistics "month" sampleNow
           (storedWorld [walkLastYear; walkLastMonth; walkYesterday] "week")).
  unfold wf. simpl. lia.
Defined.
